(** * wechat-mp-publisher: Markdown converter, token manager, API client,
      configuration and image uploader, embedded from [src/converter.py],
      [src/wechat_api.py], [src/config.py] and [src/uploader.py]. *)

From Stdlib Require Import String Ascii List ZArith QArith Qround Lia Lqa Bool.
From stdpp Require Import base option gmap strings list.

Local Open Scope string_scope.
Local Open Scope list_scope.

(** ** Python strings

    A Python [str] is modelled by its UTF-8 encoding, one [ascii] per byte.
    The string operations used by the sources ([split], [join], [strip],
    [startswith], [in], the regular expression of the strikethrough rewrite)
    only ever look for ASCII patterns or for whole code points, so they act
    on the encoding exactly as they act on the code points. *)

Module PyStr.

Definition LF : ascii := "010"%char.
Definition tilde : ascii := "~"%char.

Definition is_LF (c : ascii) : bool := Ascii.eqb c LF.

(** [s] with the prefix [p] taken off, when [s] starts with [p]. *)
Fixpoint strip_prefix (p s : string) : option string :=
  match p, s with
  | EmptyString, _ => Some s
  | String _ _, EmptyString => None
  | String a p', String b s' =>
      if Ascii.eqb a b then strip_prefix p' s' else None
  end.

(** [s.startswith(p)] *)
Definition startswith (s p : string) : bool :=
  match strip_prefix p s with Some _ => true | None => false end.

(** [p in s] for strings: [p] occurs somewhere in [s]. *)
Fixpoint contains (s p : string) : bool :=
  startswith s p ||
  match s with
  | EmptyString => false
  | String _ s' => contains s' p
  end.

(** [s.split('\n')]: the pieces between line feeds; always at least one. *)
Fixpoint split_lines (s : string) : list string :=
  match s with
  | EmptyString => [EmptyString]
  | String c s' =>
      if is_LF c then EmptyString :: split_lines s'
      else match split_lines s' with
           | [] => [String c EmptyString]
           | l :: ls => String c l :: ls
           end
  end.

(** ['\n'.join(ls)] *)
Fixpoint join_lines (ls : list string) : string :=
  match ls with
  | [] => EmptyString
  | [l] => l
  | l :: ls' => l ++ String LF (join_lines ls')
  end.

(** The code points for which [str.isspace()] holds, which are the ones
    [str.strip()] removes: U+0009..U+000D, U+001C..U+0020, U+0085, U+00A0,
    U+1680, U+2000..U+200A, U+2028, U+2029, U+202F, U+205F, U+3000.
    [space1], [space2] and [space3] recognise their UTF-8 encodings of
    one, two and three bytes. *)
Definition space1 (a : ascii) : bool :=
  let n := nat_of_ascii a in
  (((9 <=? n) && (n <=? 13)) || ((28 <=? n) && (n <=? 32)))%nat.

Definition space2 (a b : ascii) : bool :=
  ((nat_of_ascii a =? 194) &&
   ((nat_of_ascii b =? 133) || (nat_of_ascii b =? 160)))%nat.

Definition space3 (a b c : ascii) : bool :=
  let x := nat_of_ascii a in
  let y := nat_of_ascii b in
  let z := nat_of_ascii c in
  (((x =? 225) && (y =? 154) && (z =? 128)) ||
   ((x =? 226) && (y =? 128) &&
      (((128 <=? z) && (z <=? 138)) || (z =? 168) || (z =? 169) || (z =? 175))) ||
   ((x =? 226) && (y =? 129) && (z =? 159)) ||
   ((x =? 227) && (y =? 128) && (z =? 128)))%nat.

(** [s.lstrip()] *)
Fixpoint lstrip (s : string) : string :=
  match s with
  | EmptyString => EmptyString
  | String a s1 =>
      if space1 a then lstrip s1
      else match s1 with
           | EmptyString => s
           | String b s2 =>
               if space2 a b then lstrip s2
               else match s2 with
                    | EmptyString => s
                    | String c s3 => if space3 a b c then lstrip s3 else s
                    end
           end
  end.

Fixpoint rev_append (s acc : string) : string :=
  match s with
  | EmptyString => acc
  | String c s' => rev_append s' (String c acc)
  end.

Definition rev (s : string) : string := rev_append s EmptyString.

(** [lstrip] on the reversed string: the encodings are read backwards. *)
Fixpoint lstrip_rev (s : string) : string :=
  match s with
  | EmptyString => EmptyString
  | String a s1 =>
      if space1 a then lstrip_rev s1
      else match s1 with
           | EmptyString => s
           | String b s2 =>
               if space2 b a then lstrip_rev s2
               else match s2 with
                    | EmptyString => s
                    | String c s3 => if space3 c b a then lstrip_rev s3 else s
                    end
           end
  end.

(** [s.rstrip()] and [s.strip()] *)
Definition rstrip (s : string) : string := rev (lstrip_rev (rev s)).
Definition strip (s : string) : string := rstrip (lstrip s).

(** Python truthiness of a string: non-empty. *)
Definition truthy (s : string) : bool :=
  match s with EmptyString => false | _ => true end.

End PyStr.

(** ** [converter.py]: strikethrough preprocessing *)

Module Preprocess.
Import PyStr.

(** The lazy group of [~~(.*?)~~], entered just after the opening [~~]:
    the shortest run of characters other than line feed that is followed
    by [~~].  Returns the group and what follows the closing [~~]. *)
Fixpoint find_close (s : string) : option (string * string) :=
  match s with
  | EmptyString => None
  | String c s' =>
      match strip_prefix "~~" s with
      | Some rest => Some (EmptyString, rest)
      | None =>
          if is_LF c then None
          else match find_close s' with
               | Some (g, rest) => Some (String c g, rest)
               | None => None
               end
      end
  end.

(** A match of [~~(.*?)~~] anchored at the head of [s]. *)
Definition match_here (s : string) : option (string * string) :=
  match strip_prefix "~~" s with
  | Some s' => find_close s'
  | None => None
  end.

(** [re.sub(r'~~(.*?)~~', r'<del>\1</del>', s)]: leftmost matches, scanned
    left to right, the search resuming right after each match.  [fuel]
    bounds the number of scanning steps. *)
Fixpoint re_sub_del_from (fuel : nat) (s : string) : string :=
  match fuel with
  | O => s
  | S fuel' =>
      match s with
      | EmptyString => EmptyString
      | String c s' =>
          match match_here s with
          | Some (g, rest) =>
              "<del>" ++ g ++ "</del>" ++ re_sub_del_from fuel' rest
          | None => String c (re_sub_del_from fuel' s')
          end
      end
  end.

Definition re_sub_del (s : string) : string :=
  re_sub_del_from (String.length s) s.

(** [line.strip().startswith('```')] *)
Definition is_fence (line : string) : bool :=
  startswith (strip line) "```".

(** The body of the [for line in lines] loop: the flag is toggled first,
    then the line is rewritten unless the flag is set. *)
Fixpoint preprocess_lines (in_code_block : bool) (lines : list string)
  : list string :=
  match lines with
  | [] => []
  | line :: rest =>
      let in_code_block :=
        if is_fence line then negb in_code_block else in_code_block in
      let line := if negb in_code_block then re_sub_del line else line in
      line :: preprocess_lines in_code_block rest
  end.

(** [MarkdownConverter._preprocess_markdown] *)
Definition _preprocess_markdown (markdown_text : string) : string :=
  join_lines (preprocess_lines false (split_lines markdown_text)).

(** Vocabulary of the statements.  A fence line is a line the loop toggles
    on; [fences_upto lines n] counts the fence lines among the first [n]
    lines. *)
Definition fences_upto (lines : list string) (n : nat) : nat :=
  List.length (List.filter is_fence (firstn n lines)).

Fixpoint has_LF (s : string) : bool :=
  match s with
  | EmptyString => false
  | String c s' => is_LF c || has_LF s'
  end.

(** A sample: a struck-out word, then a fenced block holding the same. *)
Definition sample_markdown : string :=
  join_lines ["a ~~b~~ c"; "```python"; "x = ~~b~~"; "```"; "~~d~~"].


(** *** Fenced code blocks of the Markdown text

    What the statements call a fenced code block is what the parser the
    converter hands the text to takes for one (the [fenced_code] extension
    of [markdown]): an opening line made of a run of three or more
    backticks, or of three or more tildes, at the start of the line, then
    spaces and either a language name or attributes in braces; the code;
    and, closing it, the first later line made of the same run and spaces.
    The search goes on after the closing line; an opening line without a
    closing line opens nothing.  (Language names are taken in ASCII; the
    [hl_lines] form of the opening line is left out.) *)

Definition backtick : ascii := "`"%char.
Definition is_blank (c : ascii) : bool := Ascii.eqb c " ".

Fixpoint take_while (p : ascii -> bool) (s : string) : string :=
  match s with
  | EmptyString => EmptyString
  | String c s' => if p c then String c (take_while p s') else EmptyString
  end.

Fixpoint drop_while (p : ascii -> bool) (s : string) : string :=
  match s with
  | EmptyString => EmptyString
  | String c s' => if p c then drop_while p s' else s
  end.

(** [[\w#.+-]], for ASCII. *)
Definition lang_char (c : ascii) : bool :=
  let n := nat_of_ascii c in
  (((48 <=? n) && (n <=? 57)) || ((65 <=? n) && (n <=? 90)) ||
   ((97 <=? n) && (n <=? 122)) || (n =? 95) ||
   (n =? 35) || (n =? 46) || (n =? 43) || (n =? 45))%nat.

(** [\{[^\n]*\}] for the rest of a line. *)
Definition braced (s : string) : bool :=
  match s with
  | String c s' =>
      Ascii.eqb c "{" &&
      match rev s' with
      | String d _ => Ascii.eqb d "}"
      | EmptyString => false
      end
  | EmptyString => false
  end.

Definition is_empty (s : string) : bool :=
  match s with EmptyString => true | _ => false end.

(** What may follow the run on an opening line. *)
Definition info_string (rest : string) : bool :=
  let rest := drop_while is_blank rest in
  braced rest || is_empty (drop_while is_blank (drop_while lang_char rest)).

(** The fence of an opening line. *)
Definition opening_fence (line : string) : option string :=
  match line with
  | String c _ =>
      if Ascii.eqb c backtick || Ascii.eqb c tilde then
        let fence := take_while (Ascii.eqb c) line in
        if (3 <=? String.length fence)%nat
           && info_string (drop_while (Ascii.eqb c) line)
        then Some fence else None
      else None
  | EmptyString => None
  end.

(** The line closes a block opened with [fence]. *)
Definition closes (fence line : string) : bool :=
  match strip_prefix fence line with
  | Some rest => is_empty (drop_while is_blank rest)
  | None => false
  end.

(** How many lines come before the first that closes. *)
Fixpoint first_closing (fence : string) (lines : list string) : option nat :=
  match lines with
  | [] => None
  | l :: ls =>
      if closes fence l then Some 0
      else option_map S (first_closing fence ls)
  end.

Inductive place := Plain | FenceLine | Code.


(** Where each line lies: on a line that opens or closes a fenced code
    block, strictly inside one, or outside all of them. *)
Fixpoint places_from (fuel : nat) (lines : list string) : list place :=
  match fuel, lines with
  | S fuel', l :: ls =>
      match opening_fence l with
      | Some fence =>
          match first_closing fence ls with
          | Some n =>
              FenceLine :: repeat Code n ++
              FenceLine :: places_from fuel' (skipn (S n) ls)
          | None => Plain :: places_from fuel' ls
          end
      | None => Plain :: places_from fuel' ls
      end
  | _, _ => List.map (fun _ => Plain) lines
  end.

Definition fenced_places (lines : list string) : list place :=
  places_from (List.length lines) lines.




(** A block fenced with tildes that holds a struck-out word. *)
Definition tilde_fenced : string := join_lines ["~~~"; "~~x~~"; "~~~"].

(** A block of four backticks that shows a block of three. *)
Definition nested_fences : string :=
  join_lines ["````"; "```"; "~~x~~"; "```"; "````"].

(** A run of three backticks that opens nothing. *)
Definition unclosed_fence : string := join_lines ["```"; "~~x~~"].

End Preprocess.

(** ** JSON values and Python objects

    The dictionaries the client exchanges with the server and keeps in the
    token file are JSON objects.  JSON numbers are integers here: the
    server's codes and lifetimes, and what [save_token] writes, are. *)

Module Json.

#[warnings="-register-all"]
Inductive jval :=
  | JNull
  | JBool (b : bool)
  | JInt (z : Z)
  | JStr (s : string)
  | JList (l : list jval)
  | JObj (m : gmap string jval).

(** Python truthiness ([if v:]). *)
Definition jtruthy (v : jval) : bool :=
  match v with
  | JNull => false
  | JBool b => b
  | JInt z => negb (z =? 0)%Z
  | JStr s => PyStr.truthy s
  | JList l => match l with [] => false | _ => true end
  | JObj m => match map_to_list m with [] => false | _ => true end
  end.

(** The value as a number in arithmetic and comparisons ([bool] is a
    subtype of [int]); [None] where Python raises [TypeError]. *)
Definition as_number (v : jval) : option Z :=
  match v with
  | JInt z => Some z
  | JBool b => Some (if b then 1 else 0)%Z
  | _ => None
  end.

(** [v == z] for an integer literal [z], and [v == s] for a string [s]. *)
Definition eq_int (v : jval) (z : Z) : bool :=
  match as_number v with Some z' => (z' =? z)%Z | None => false end.

Definition eq_str (v : jval) (s : string) : bool :=
  match v with JStr s' => String.eqb s' s | _ => false end.

(** [d.get(k, default)] *)
Definition get_default (d : gmap string jval) (k : string) (default : jval) : jval :=
  match d !! k with Some v => v | None => default end.

(** [d.get(k)], which is [None] for a missing key. *)
Definition get_none (d : gmap string jval) (k : string) : jval :=
  get_default d k JNull.

End Json.

(** ** [wechat_api.py] and the token cache of [config.py]

    The clock, randomness, the network and the file system are outside the
    program.  They are given by an [oracle]: the value of the n-th call of
    [time.time()], of the n-th call of [random.uniform(0, 0.5)], the outcome
    of the n-th HTTP request the process sends, and which paths [open] can
    read.  Times are rationals: the sources only truncate them and compare
    them with integers, and both are exact on floats. *)

Module Api.
Import Json.

Inductive http_method := GET | POST.

Record request := {
  rq_method : http_method;
  rq_url : string;
  rq_params : gmap string jval;
  rq_json : option jval;
  rq_file : option string
}.

Inductive body :=
  | BadJson (msg : string)              (* [response.json()] raises *)
  | Json (data : gmap string jval).

Record response := {
  http_error : option string;          (* what [raise_for_status()] raises *)
  resp_body : body
}.

Inductive http_outcome :=
  | ConnectionError (msg : string)      (* [requests.get/post] raises *)
  | Response (r : response).

Inductive exn :=
  | WeChatAPIError (errcode errmsg : jval)
  | RequestException (msg : string)
  | OtherError (name : string).

Inductive result (A : Type) :=
  | Ok (a : A)
  | Raise (e : exn).
Arguments Ok {A} a.
Arguments Raise {A} e.

(** What the process does to the outside, in order.  [EvClearCache] marks a
    call of [TokenManager.clear_cache]. *)
Inductive event :=
  | EvRequest (r : request)
  | EvSleep (seconds : Q)
  | EvClearCache.

Record oracle := {
  clock : nat -> Q;
  jitter : nat -> Q;
  server : nat -> http_outcome;
  can_open : string -> bool
}.

Record world := {
  env : oracle;
  clock_reads : nat;
  jitter_reads : nat;
  requests_made : nat;
  appid : string;                        (* [self.appid] *)
  appsecret : string;                    (* [self.appsecret] *)
  _access_token : option jval;           (* [self._access_token], [None] at first *)
  _expires_at : Z;                       (* [self._expires_at] *)
  config_appid : option string;          (* [config.get_appid()] *)
  token_file : option (gmap string jval);(* the token file, when it loads *)
  trace : list event
}.

Definition set_clock_reads (n : nat) (w : world) : world :=
  {| env := env w; clock_reads := n; jitter_reads := jitter_reads w;
     requests_made := requests_made w; appid := appid w;
     appsecret := appsecret w; _access_token := _access_token w;
     _expires_at := _expires_at w; config_appid := config_appid w;
     token_file := token_file w; trace := trace w |}.

Definition set_jitter_reads (n : nat) (w : world) : world :=
  {| env := env w; clock_reads := clock_reads w; jitter_reads := n;
     requests_made := requests_made w; appid := appid w;
     appsecret := appsecret w; _access_token := _access_token w;
     _expires_at := _expires_at w; config_appid := config_appid w;
     token_file := token_file w; trace := trace w |}.

Definition set_requests_made (n : nat) (w : world) : world :=
  {| env := env w; clock_reads := clock_reads w; jitter_reads := jitter_reads w;
     requests_made := n; appid := appid w;
     appsecret := appsecret w; _access_token := _access_token w;
     _expires_at := _expires_at w; config_appid := config_appid w;
     token_file := token_file w; trace := trace w |}.

Definition set_access_token (t : option jval) (w : world) : world :=
  {| env := env w; clock_reads := clock_reads w; jitter_reads := jitter_reads w;
     requests_made := requests_made w; appid := appid w;
     appsecret := appsecret w; _access_token := t;
     _expires_at := _expires_at w; config_appid := config_appid w;
     token_file := token_file w; trace := trace w |}.

Definition set_expires_at (z : Z) (w : world) : world :=
  {| env := env w; clock_reads := clock_reads w; jitter_reads := jitter_reads w;
     requests_made := requests_made w; appid := appid w;
     appsecret := appsecret w; _access_token := _access_token w;
     _expires_at := z; config_appid := config_appid w;
     token_file := token_file w; trace := trace w |}.

Definition set_token_file (f : option (gmap string jval)) (w : world) : world :=
  {| env := env w; clock_reads := clock_reads w; jitter_reads := jitter_reads w;
     requests_made := requests_made w; appid := appid w;
     appsecret := appsecret w; _access_token := _access_token w;
     _expires_at := _expires_at w; config_appid := config_appid w;
     token_file := f; trace := trace w |}.

Definition set_trace (t : list event) (w : world) : world :=
  {| env := env w; clock_reads := clock_reads w; jitter_reads := jitter_reads w;
     requests_made := requests_made w; appid := appid w;
     appsecret := appsecret w; _access_token := _access_token w;
     _expires_at := _expires_at w; config_appid := config_appid w;
     token_file := token_file w; trace := t |}.

(** Computations: they read and change the world and return or raise.  The
    changes made before an exception stay, as in Python. *)
Definition M (A : Type) : Type := world -> result A * world.

Definition ret {A} (a : A) : M A := fun w => (Ok a, w).
Definition raise {A} (e : exn) : M A := fun w => (Raise e, w).
Definition bind {A B} (c : M A) (k : A -> M B) : M B :=
  fun w => match c w with
           | (Ok a, w') => k a w'
           | (Raise e, w') => (Raise e, w')
           end.
Definition get : M world := fun w => (Ok w, w).
Definition modify (f : world -> world) : M unit := fun w => (Ok tt, f w).

Notation "'do' x <- c ; k" := (bind c (fun x => k))
  (at level 10, x name, c at level 100, k at level 200).
Notation "c ;; k" := (bind c (fun _ => k))
  (at level 100, k at level 200, right associativity).

Definition log (e : event) : M unit :=
  modify (fun w => set_trace (trace w ++ [e]) w).

(** [time.time()] *)
Definition time_time : M Q :=
  fun w => (Ok (clock (env w) (clock_reads w)),
            set_clock_reads (S (clock_reads w)) w).

(** [random.uniform(0, 0.5)] *)
Definition random_uniform : M Q :=
  fun w => (Ok (jitter (env w) (jitter_reads w)),
            set_jitter_reads (S (jitter_reads w)) w).

(** [time.sleep(seconds)] *)
Definition time_sleep (seconds : Q) : M unit := log (EvSleep seconds).

(** [int(t)]: truncation towards zero. *)
Definition py_int (t : Q) : Z := Z.quot (Qnum t) (Zpos (Qden t)).

(** [t < z] for a time [t] and an integer [z]. *)
Definition time_lt (t : Q) (z : Z) : bool := negb (Qle_bool (inject_Z z) t).

(** [requests.get] / [requests.post] *)
Definition send (r : request) : M response :=
  fun w =>
    let w' := set_requests_made (S (requests_made w))
                (set_trace (trace w ++ [EvRequest r]) w) in
    match server (env w) (requests_made w) with
    | ConnectionError msg => (Raise (RequestException msg), w')
    | Response resp => (Ok resp, w')
    end.

Definition raise_for_status (r : response) : M unit :=
  match http_error r with
  | Some msg => raise (RequestException msg)
  | None => ret tt
  end.

Definition response_json (r : response) : M (gmap string jval) :=
  match resp_body r with
  | BadJson msg => raise (RequestException msg)
  | Json data => ret data
  end.

(** [except requests.RequestException as e:
       raise WeChatAPIError(-1, f"Network error: {str(e)}")] *)
Definition network_error_wrapped {A} (c : M A) : M A :=
  fun w => match c w with
           | (Raise (RequestException msg), w') =>
               (Raise (WeChatAPIError (JInt (-1))
                         (JStr ("Network error: " ++ msg))), w')
           | rw => rw
           end.

(** *** [config.py]: the token cache *)

Definition option_jstr (o : option string) : jval :=
  match o with Some s => JStr s | None => JNull end.

(** [Config.get_cached_token] *)
Definition get_cached_token : M (option (gmap string jval)) :=
  fun w => (Ok (token_file w), w).

(** The dictionary [save_token] writes. *)
Definition token_data (access_token : jval) (expires_at : Z)
    (appid : option string) : gmap string jval :=
  <["appid" := option_jstr appid]>
    (<["expires_at" := JInt expires_at]>
       (<["access_token" := access_token]> ∅)).

(** [Config.save_token] *)
Definition save_token (access_token : jval) (expires_in : Z) : M unit :=
  do t <- time_time;
  do w <- get;
  modify (set_token_file
            (Some (token_data access_token (py_int t + expires_in - 300)
                     (config_appid w)))).

(** [Config.clear_token] *)
Definition clear_token : M unit := modify (set_token_file None).

(** *** [TokenManager] *)

Definition token_url : string := "https://api.weixin.qq.com/cgi-bin/token".

(** [TokenManager._fetch_token] *)
Definition _fetch_token : M jval :=
  do w <- get;
  let params : gmap string jval :=
    <["secret" := JStr (appsecret w)]>
      (<["appid" := JStr (appid w)]>
         (<["grant_type" := JStr "client_credential"]> ∅)) in
  network_error_wrapped
    (do response <- send {| rq_method := GET; rq_url := token_url;
                            rq_params := params; rq_json := None;
                            rq_file := None |};
     raise_for_status response;;
     do data <- response_json response;
     match data !! "access_token" with
     | Some tok =>
         modify (set_access_token (Some tok));;
         let expires_in := get_default data "expires_in" (JInt 7200) in
         do t <- time_time;
         match as_number expires_in with
         | None => raise (OtherError "TypeError")
         | Some ttl =>
             modify (set_expires_at (py_int t + ttl - 300));;
             save_token tok ttl;;
             ret tok
         end
     | None =>
         raise (WeChatAPIError (get_default data "errcode" (JInt (-1)))
                  (get_default data "errmsg" (JStr "Unknown error")))
     end).

(** The memory check of [get_token]:
    [not force_refresh and self._access_token and time.time() < self._expires_at];
    the clock is read only when the first two hold. *)
Definition memory_hit (force_refresh : bool) : M (option jval) :=
  do w <- get;
  if force_refresh then ret None
  else match _access_token w with
       | Some tok =>
           if jtruthy tok then
             do t <- time_time;
             if time_lt t (_expires_at w) then ret (Some tok) else ret None
           else ret None
       | None => ret None
       end.

(** The file check of [get_token]. *)
Definition file_hit (force_refresh : bool) : M (option jval) :=
  if force_refresh then ret None
  else
    do cached <- get_cached_token;
    do w <- get;
    match cached with
    | None => ret None
    | Some d =>
        if jtruthy (JObj d) && eq_str (get_none d "appid") (appid w) then
          do t <- time_time;
          match as_number (get_default d "expires_at" (JInt 0)) with
          | None => raise (OtherError "TypeError")
          | Some z =>
              if time_lt t z then
                match d !! "access_token" with
                | None => raise (OtherError "KeyError")
                | Some tok =>
                    modify (set_access_token (Some tok));;
                    match d !! "expires_at" with
                    | None => raise (OtherError "KeyError")
                    | Some _ =>
                        modify (set_expires_at z);;
                        ret (Some tok)
                    end
                end
              else ret None
          end
        else ret None
    end.

(** [TokenManager.get_token] *)
Definition get_token (force_refresh : bool) : M jval :=
  do m <- memory_hit force_refresh;
  match m with
  | Some tok => ret tok
  | None =>
      do f <- file_hit force_refresh;
      match f with
      | Some tok => ret tok
      | None => _fetch_token
      end
  end.

(** [TokenManager.clear_cache] *)
Definition clear_cache : M unit :=
  log EvClearCache;;
  modify (set_access_token None);;
  modify (set_expires_at 0);;
  clear_token.

(** *** [WeChatAPI] *)

Definition API_BASE : string := "https://api.weixin.qq.com/cgi-bin".

Definition _get_access_token : M jval := get_token false.

(** [WeChatAPI._request] *)
Definition _request (method : http_method) (endpoint : string)
    (params : gmap string jval) (json : option jval) : M (gmap string jval) :=
  let url := (API_BASE ++ endpoint)%string in
  do tok <- _get_access_token;
  let params := <["access_token" := tok]> params in
  network_error_wrapped
    (do response <- send {| rq_method := method; rq_url := url;
                            rq_params := params; rq_json := json;
                            rq_file := None |};
     raise_for_status response;;
     do data <- response_json response;
     let errcode := get_default data "errcode" (JInt 0) in
     if negb (eq_int errcode 0) then
       do retried <-
         (if eq_int errcode 40001 then
            clear_cache;;
            do tok <- _get_access_token;
            let params := <["access_token" := tok]> params in
            do response <- send {| rq_method := method; rq_url := url;
                                   rq_params := params; rq_json := json;
                                   rq_file := None |};
            do data <- response_json response;
            ret (data, get_default data "errcode" (JInt 0))
          else ret (data, errcode));
       let '(data, errcode) := retried in
       if negb (eq_int errcode 0) then
         raise (WeChatAPIError errcode
                  (get_default data "errmsg" (JStr "Unknown error")))
       else ret data
     else ret data).

(** [retry_on_error(max_retries, backoff_factor, retryable_errors)(func)],
    for a method of an object that has a [token_manager].
    [retry_loop n k last] is the [for] loop with [n] iterations left, at
    [retry_count = k] and [last_exception = last]. *)
Section Retry.
Context {A : Type}.
Variable max_retries : Z.
Variable backoff_factor : Q.
Variable retryable_errors : list Z.
Variable func : M A.

(** [e.errcode in retryable_errors] *)
Definition retryable (errcode : jval) : bool :=
  existsb (eq_int errcode) retryable_errors.

(** The retry branch of the handler: wait, then refresh on 40001. *)
Definition back_off (retry_count : Z) (errcode : jval) : M unit :=
  do j <- random_uniform;
  let wait_time := (backoff_factor * inject_Z (2 ^ retry_count) + j)%Q in
  time_sleep wait_time;;
  if eq_int errcode 40001 then clear_cache else ret tt.

Fixpoint retry_loop (n : nat) (retry_count : Z) (last_exception : option exn)
  : M A :=
  match n with
  | O =>
      match last_exception with
      | Some e => raise e
      | None => raise (OtherError "TypeError")
      end
  | S n' =>
      fun w =>
        match func w with
        | (Ok a, w') => (Ok a, w')
        | (Raise (WeChatAPIError errcode errmsg), w') =>
            if retryable errcode && (retry_count <? max_retries)%Z then
              (back_off retry_count errcode;;
               retry_loop n' (retry_count + 1)%Z
                 (Some (WeChatAPIError errcode errmsg))) w'
            else (Raise (WeChatAPIError errcode errmsg), w')
        | (Raise e, w') => (Raise e, w')
        end
  end.

Definition retry_on_error : M A :=
  retry_loop (Z.to_nat (max_retries + 1)) 0%Z None.
End Retry.

Definition default_retryable_errors : list Z := [40001; 42001; 45009]%Z.

(** [WeChatAPI.upload_image], the decorated method and its body. *)
Definition upload_image_body (image_path : string) : M jval :=
  let url := (API_BASE ++ "/media/uploadimg")%string in
  do tok <- _get_access_token;
  let params : gmap string jval := <["access_token" := tok]> ∅ in
  do w <- get;
  if can_open (env w) image_path then
    do response <- send {| rq_method := POST; rq_url := url;
                           rq_params := params; rq_json := None;
                           rq_file := Some image_path |};
    raise_for_status response;;
    do data <- response_json response;
    match data !! "url" with
    | Some u => ret u
    | None =>
        raise (WeChatAPIError (get_default data "errcode" (JInt (-1)))
                 (get_default data "errmsg" (JStr "Upload failed")))
    end
  else raise (OtherError "OSError").

Definition upload_image (image_path : string) : M jval :=
  retry_on_error 3 1 default_retryable_errors (upload_image_body image_path).

(** The article dictionary built by [add_draft]. *)
Definition draft_article (title content author digest content_source_url
    thumb_media_id : string) (need_open_comment only_fans_can_comment : Z)
  : gmap string jval :=
  let article : gmap string jval :=
    <["content" := JStr content]> (<["title" := JStr title]> ∅) in
  let article :=
    if PyStr.truthy author then <["author" := JStr author]> article
    else article in
  let article :=
    if PyStr.truthy digest then <["digest" := JStr digest]> article
    else article in
  let article :=
    if PyStr.truthy content_source_url
    then <["content_source_url" := JStr content_source_url]> article
    else article in
  let article :=
    if PyStr.truthy thumb_media_id
    then <["thumb_media_id" := JStr thumb_media_id]> article
    else article in
  let article := <["need_open_comment" := JInt need_open_comment]> article in
  <["only_fans_can_comment" := JInt only_fans_can_comment]> article.

(** [WeChatAPI.add_draft], the decorated method and its body. *)
Definition add_draft_body (title content author digest content_source_url
    thumb_media_id : string) (need_open_comment only_fans_can_comment : Z)
  : M jval :=
  let endpoint := "/draft/add" in
  let article :=
    draft_article title content author digest content_source_url
      thumb_media_id need_open_comment only_fans_can_comment in
  let data : gmap string jval := <["articles" := JList [JObj article]]> ∅ in
  do result <- _request POST endpoint ∅ (Some (JObj data));
  ret (get_none result "media_id").

Definition add_draft (title content author digest content_source_url
    thumb_media_id : string) (need_open_comment only_fans_can_comment : Z)
  : M jval :=
  retry_on_error 3 1 default_retryable_errors
    (add_draft_body title content author digest content_source_url
       thumb_media_id need_open_comment only_fans_can_comment).

(** [WeChatAPI.get_draft], [delete_draft], [get_draft_count]: the
    operations that call [_request] without the retry decorator. *)
Definition get_draft (media_id : string) : M (gmap string jval) :=
  _request POST "/draft/get" (<["media_id" := JStr media_id]> ∅) None.

Definition delete_draft (media_id : string) : M bool :=
  do result <- _request POST "/draft/delete" ∅
                 (Some (JObj (<["media_id" := JStr media_id]> ∅)));
  ret (eq_int (get_none result "errcode") 0).

Definition get_draft_count : M (gmap string jval) :=
  _request GET "/draft/count" ∅ None.

(** *** Vocabulary of the statements *)

(** The credential exchange: the request [_fetch_token] sends. *)
Definition exchange_request (w : world) : request :=
  {| rq_method := GET; rq_url := token_url;
     rq_params :=
       <["secret" := JStr (appsecret w)]>
         (<["appid" := JStr (appid w)]>
            (<["grant_type" := JStr "client_credential"]> ∅));
     rq_json := None; rq_file := None |}.

(** The time of the [k]-th reading of the clock. *)
Definition time_at (w : world) (k : nat) : Q := clock (env w) k.

(** The token in memory is absent (or falsy), or it has expired for the
    clock readings still to come. *)
Definition memory_token_stale (w : world) : Prop :=
  match _access_token w with
  | None => True
  | Some tok =>
      jtruthy tok = false \/
      forall k, clock_reads w <= k -> (inject_Z (_expires_at w) <= time_at w k)%Q
  end.

(** The token file is absent, or its [expires_at] (0 when the key is
    missing) is a number that has passed for the clock readings to come. *)
Definition file_token_stale (w : world) : Prop :=
  match token_file w with
  | None => True
  | Some d =>
      exists z, as_number (get_default d "expires_at" (JInt 0)) = Some z /\
                forall k, clock_reads w <= k -> (inject_Z z <= time_at w k)%Q
  end.

(** The server's answer to the next request grants the token [tok] with
    the lifetime [ttl] (7200 when it reports none). *)
Definition exchange_grants (w : world) (tok : jval) (ttl : Z) : Prop :=
  exists resp data,
    server (env w) (requests_made w) = Response resp /\
    http_error resp = None /\
    resp_body resp = Json data /\
    data !! "access_token" = Some tok /\
    as_number (get_default data "expires_in" (JInt 7200)) = Some ttl.

(** C7 as the specification words it: a token [get_token] returns is
    unexpired at some reading of the clock taken during the call. *)
Definition returned_token_unexpired (force_refresh : bool) (w : world) : Prop :=
  forall tok w',
    get_token force_refresh w = (Ok tok, w') ->
    exists k, clock_reads w <= k < clock_reads w' /\
              (time_at w k < inject_Z (_expires_at w'))%Q.

(** The events a computation adds to the trace: the calls of
    [clear_cache], the requests other than credential exchanges, the waits. *)
Definition added_events (w w' : world) : list event :=
  skipn (List.length (trace w)) (trace w').

Definition clears (t : list event) : nat :=
  List.length
    (List.filter (fun e => match e with EvClearCache => true | _ => false end) t).

Definition api_requests (t : list event) : list request :=
  flat_map (fun e => match e with
                     | EvRequest r =>
                         if String.eqb (rq_url r) token_url then [] else [r]
                     | _ => []
                     end) t.

Definition sleeps (t : list event) : list Q :=
  flat_map (fun e => match e with EvSleep q => [q] | _ => [] end) t.

(** The request [_request] sends with the token [tok]. *)
Definition api_request (method : http_method) (endpoint : string)
    (params : gmap string jval) (json : option jval) (tok : jval) : request :=
  {| rq_method := method; rq_url := (API_BASE ++ endpoint)%string;
     rq_params := <["access_token" := tok]> params;
     rq_json := json; rq_file := None |}.

(** C2 as the specification words it, for an operation [op] run where the
    server answers 40001: the cache is cleared once and the call is sent
    twice, the first time and one retry. *)
Definition auth_failure_retried_once {A} (op : M A) (w : world) : Prop :=
  let t := added_events w (snd (op w)) in
  clears t = 1 /\ List.length (api_requests t) = 2.

(** The state between two attempts of the retry policy: the jitter is
    drawn, the process has slept [seconds], and on 40001 the token cache
    has been cleared. *)
Definition waited (seconds : Q) (errcode : jval) (w : world) : world :=
  let w1 := set_trace (trace w ++ [EvSleep seconds])
              (set_jitter_reads (S (jitter_reads w)) w) in
  if eq_int errcode 40001 then snd (clear_cache w1) else w1.

(** [failing_attempts func backoff k w errs w']: from [w], at retry count
    [k], [func] fails with the API errors [errs] one after the other, the
    process waiting [backoff * 2^k + jitter], [backoff * 2^(k+1) + jitter],
    ... after each, and [w'] is the state after the last wait. *)
Inductive failing_attempts {A} (func : M A) (backoff_factor : Q)
  : Z -> world -> list (jval * jval) -> world -> Prop :=
  | fa_done k w : failing_attempts func backoff_factor k w [] w
  | fa_retry k w errcode errmsg w1 errs w' :
      func w = (Raise (WeChatAPIError errcode errmsg), w1) ->
      failing_attempts func backoff_factor (k + 1)
        (waited (backoff_factor * inject_Z (2 ^ k)
                 + jitter (env w1) (jitter_reads w1))%Q errcode w1)
        errs w' ->
      failing_attempts func backoff_factor k w ((errcode, errmsg) :: errs) w'.

(** [only_sends P w w']: from [w] to [w'] the trace has grown, and every
    request added satisfies [P]; [sends P c]: so it is for every run of the
    computation [c]. *)
Definition only_sends (P : request -> Prop) (w w' : world) : Prop :=
  exists l, trace w' = trace w ++ l /\
            List.Forall (fun e => match e with
                                  | EvRequest r => P r
                                  | _ => True
                                  end) l.

Definition sends {A} (P : request -> Prop) (c : M A) : Prop :=
  forall w, only_sends P w (snd (c w)).

(** The body [add_draft] sends to the draft endpoint. *)
Definition draft_payload (title content author digest content_source_url
    thumb_media_id : string) (need_open_comment only_fans_can_comment : Z)
  : jval :=
  JObj (<["articles" :=
            JList [JObj (draft_article title content author digest
                           content_source_url thumb_media_id
                           need_open_comment only_fans_can_comment)]]> ∅).

(** A request is a credential exchange, or a request to [endpoint] with
    the JSON body [json]. *)
Definition exchange_or (endpoint : string) (json : option jval) (r : request)
  : Prop :=
  rq_url r = token_url \/
  (rq_url r = (API_BASE ++ endpoint)%string /\ rq_json r = json).

(** *** Sample worlds *)

Definition token_response (tok : string) (ttl : Z) : http_outcome :=
  Response {| http_error := None;
              resp_body := Json (<["expires_in" := JInt ttl]>
                                   (<["access_token" := JStr tok]> ∅)) |}.

Definition error_response (errcode : Z) (errmsg : string) : http_outcome :=
  Response {| http_error := None;
              resp_body := Json (<["errmsg" := JStr errmsg]>
                                   (<["errcode" := JInt errcode]> ∅)) |}.

Definition url_response (url : string) : http_outcome :=
  Response {| http_error := None;
              resp_body := Json (<["url" := JStr url]> ∅) |}.

(** The clock starts at 1000 and advances one second per reading; every
    jitter drawn is a quarter of a second. *)
Definition sample_env (srv : nat -> http_outcome) : oracle :=
  {| clock := fun n => inject_Z (1000 + Z.of_nat n);
     jitter := fun _ => (1 # 4)%Q;
     server := srv;
     can_open := fun _ => true |}.

(** A process that has just started: nothing in memory, no token file. *)
Definition fresh_world (srv : nat -> http_outcome) : world :=
  {| env := sample_env srv; clock_reads := 0; jitter_reads := 0;
     requests_made := 0; appid := "wx1"; appsecret := "secret";
     _access_token := None; _expires_at := 0;
     config_appid := Some "wx1"; token_file := None; trace := [] |}.

(** A server that grants a token at every exchange (the requests of even
    rank in the runs below) and answers 40001 to every other request. *)
Definition rejecting_server (n : nat) : http_outcome :=
  if Nat.even n then token_response "T" 7200
  else error_response 40001 "invalid credential".

(** A server whose tokens live 100 seconds. *)
Definition short_lived_server (n : nat) : http_outcome :=
  token_response "T" 100.

(** A server that grants a token, is busy (45009) twice, then accepts the
    upload. *)
Definition busy_server (n : nat) : http_outcome :=
  match n with
  | 0 => token_response "T" 7200
  | 1 | 2 => error_response 45009 "busy"
  | _ => url_response "http://mmbiz.qpic.cn/x"
  end.

(** A server that grants a token and files the draft. *)
Definition filing_server (n : nat) : http_outcome :=
  match n with
  | 0 => token_response "T" 7200
  | _ => Response {| http_error := None;
                     resp_body := Json (<["media_id" := JStr "M1"]> ∅) |}
  end.

(** A process whose token, in memory and in the file, expired at 900. *)
Definition expired_world : world :=
  {| env := sample_env (fun _ => token_response "NEW" 7200);
     clock_reads := 0; jitter_reads := 0;
     requests_made := 0; appid := "wx1"; appsecret := "secret";
     _access_token := Some (JStr "OLD"); _expires_at := 900;
     config_appid := Some "wx1";
     token_file := Some (token_data (JStr "OLD") 900 (Some "wx1"));
     trace := [] |}.

(** The outcome of an attempt ends the policy: a result, an exception that
    is not an API error, an API error outside the whitelist, or any API
    error once [max_retries] retries have been made. *)
Definition final_outcome {A} (retryable_errors : list Z) (max_retries : Z)
    (retries : nat) (r : result A) : Prop :=
  match r with
  | Raise (WeChatAPIError errcode _) =>
      retryable retryable_errors errcode = false \/
      Z.of_nat retries = max_retries
  | _ => True
  end.

End Api.

(** ** The document tree of BeautifulSoup

    A soup is the list of the children of the [BeautifulSoup] object.  An
    attribute value is a string, or a list of strings for the multi-valued
    attributes ([class] and the like).  [NMisc] stands for the strings that
    are not text (comments, declarations, doctypes). *)

Module Dom.

Inductive attr_value :=
  | AStr (s : string)
  | AList (l : list string).

#[warnings="-register-all"]
Inductive node :=
  | NText (s : string)
  | NMisc (s : string)
  | NTag (name : string) (attrs : gmap string attr_value) (children : list node).

Section NodeInduction.
Variable P : node -> Prop.
Hypothesis Htext : forall s, P (NText s).
Hypothesis Hmisc : forall s, P (NMisc s).
Hypothesis Htag : forall name attrs children,
    List.Forall P children -> P (NTag name attrs children).

Fixpoint node_induction (n : node) : P n :=
  match n with
  | NText s => Htext s
  | NMisc s => Hmisc s
  | NTag name attrs children =>
      Htag name attrs children
        ((fix all (l : list node) : List.Forall P l :=
            match l with
            | [] => @List.Forall_nil _ P
            | x :: l' =>
                @List.Forall_cons _ P x l' (node_induction x) (all l')
            end) children)
  end.
End NodeInduction.

(** [tag.find_all()] on one node and [soup.find_all()]: the tags, the
    node itself included, in document order. *)
Fixpoint tags_of (n : node) : list node :=
  match n with
  | NTag _ _ children => n :: flat_map tags_of children
  | _ => []
  end.

Definition find_all (soup : list node) : list node := flat_map tags_of soup.

(** [soup.find_all(name)] *)
Definition find_all_named (name : string) (soup : list node) : list node :=
  List.filter (fun n => match n with
                        | NTag nm _ _ => String.eqb nm name
                        | _ => false
                        end) (find_all soup).

(** A place in a soup: the siblings before and after it, level by level
    up to the root. *)
Inductive ctx :=
  | Hole (before after : list node)
  | Inside (before : list node) (name : string)
      (attrs : gmap string attr_value) (inner : ctx) (after : list node).

(** The soup with the nodes [x] put at the place [c]. *)
Fixpoint plug (c : ctx) (x : list node) : list node :=
  match c with
  | Hole before after => before ++ x ++ after
  | Inside before name attrs inner after =>
      before ++ [NTag name attrs (plug inner x)] ++ after
  end.

(** The tags around the place, outermost first. *)
Fixpoint ancestors (c : ctx) : list (string * gmap string attr_value) :=
  match c with
  | Hole _ _ => []
  | Inside _ name attrs inner _ => (name, attrs) :: ancestors inner
  end.

(** [html.parser] closes [img] as soon as it opens it: an [img] has no
    children and nothing lies inside an [img]. *)
Definition outside_img (c : ctx) : Prop :=
  List.Forall (fun a => String.eqb (fst a) "img" = false) (ancestors c).


End Dom.

(** ** [converter.py]: the attribute scrub *)

Module Clean.
Import Dom.

(** The body of the loop of [_clean_html] on one tag. *)
Definition clean_attrs (name : string) (attrs : gmap string attr_value)
  : gmap string attr_value :=
  let attrs :=
    if bool_decide (is_Some (attrs !! "id")) then delete "id" attrs
    else attrs in
  if bool_decide (is_Some (attrs !! "class")) then
    if negb (String.eqb name "code") then delete "class" attrs else attrs
  else attrs.

(** [for tag in soup.find_all(): ...]: every tag of the tree. *)
Fixpoint clean_node (n : node) : node :=
  match n with
  | NTag name attrs children =>
      NTag name (clean_attrs name attrs) (List.map clean_node children)
  | _ => n
  end.

Definition clean_soup (soup : list node) : list node :=
  List.map clean_node soup.




Definition sample_code_tag : node :=
  NTag "code" (<["class" := AList ["foo"]]> (<["id" := AStr "x"]> ∅))
    [NText "print"].

End Clean.

(** ** [uploader.py]: images of a document

    The image processor works on what is outside the program: files, the
    network, the API client it was given.  [Outside W] gathers what it calls
    there, on a state [W] of the outside.  [_download_image] and
    [image_utils.compress_image] run wholly inside [try: ... except
    Exception], so they return ([None] included) and never raise;
    [stat_size] and [api_upload_image] answer [None] when the call raises. *)

Module Uploader.
Import Dom.

Class Outside (W : Type) := {
  is_absolute : string -> bool;            (* [Path(s).is_absolute()] *)
  path_str : string -> string;             (* [str(Path(s))] *)
  path_join : string -> string -> string;  (* [Path(a) / b] *)
  path_parent : string -> string;          (* [Path(a).parent] *)
  path_exists : W -> string -> bool;       (* [Path(a).exists()] *)
  path_is_file : W -> string -> bool;      (* [Path(a).is_file()] *)
  path_resolve : W -> string -> string;    (* [str(Path(a).resolve())] *)
  cwd : W -> string;                       (* [Path.cwd()] *)
  stat_size : W -> string -> option Z;     (* [Path(a).stat().st_size] *)
  _download_image : string -> W -> option string * W;
  compress_image : string -> Z -> Z -> W -> option string * W;
  api_upload_image : string -> W -> option string * W
}.

(** The processor: its settings and its cache of uploaded files. *)
Record processor := {
  auto_compress : bool;
  max_width : Z;
  quality : Z;
  _url_cache : gmap string string
}.

Definition COMPRESS_THRESHOLD : Z := 500 * 1024.

Definition set_url_cache (c : gmap string string) (pr : processor) : processor :=
  {| auto_compress := auto_compress pr; max_width := max_width pr;
     quality := quality pr; _url_cache := c |}.

(** [img.get('src', '')]; [html.parser] gives [src] a string value. *)
Definition get_src (attrs : gmap string attr_value) : string :=
  match attrs !! "src" with
  | Some (AStr s) => s
  | _ => ""
  end.

(** ['mmbiz.qpic.cn' in src or 'mmbizurl.cn' in src] *)
Definition on_wechat_host (src : string) : bool :=
  PyStr.contains src "mmbiz.qpic.cn" || PyStr.contains src "mmbizurl.cn".

Definition option_truthy (o : option string) : bool :=
  match o with Some s => PyStr.truthy s | None => false end.

Section Processor.
Context {W : Type} `{Outside W}.

(** [ImageProcessor._resolve_image_path] *)
Definition _resolve_image_path (src : string) (base_path : option string)
    (w : W) : option string * W :=
  if PyStr.startswith src "http://" || PyStr.startswith src "https://" then
    _download_image src w
  else if is_absolute src then
    if path_exists w src then (Some (path_str src), w) else (None, w)
  else
    let full_path :=
      if option_truthy base_path then
        let base := match base_path with Some b => b | None => "" end in
        let base := if path_is_file w base then path_parent base else base in
        path_join base src
      else path_join (cwd w) src in
    if path_exists w full_path then (Some (path_resolve w full_path), w)
    else (None, w).

(** What the [try] block of the loop comes to for one image. *)
Inductive attempt :=
  | Unresolved                  (* [if not image_path]: failure, [continue] *)
  | Uploaded (wechat_url : string)
  | Raised.                     (* [except Exception] *)

(** The [else] branch of the cache test: compress when asked and
    needed, then upload. *)
Definition compress_and_upload (pr : processor) (image_path : string)
    (w : W) : option string * W :=
  let go (upload_path : string) (w : W) := api_upload_image upload_path w in
  if auto_compress pr then
    match stat_size w image_path with
    | None => (None, w)
    | Some file_size =>
        if (COMPRESS_THRESHOLD <? file_size)%Z then
          let '(compressed, w1) :=
            compress_image image_path (max_width pr) (quality pr) w in
          match compressed with
          | Some c =>
              if PyStr.truthy c && negb (String.eqb c image_path) then
                match stat_size w1 c with
                | None => (None, w1)
                | Some _ => go c w1
                end
              else go image_path w1
          | None => go image_path w1
          end
        else go image_path w
    end
  else go image_path w.

(** The [try] block for an image with the source [src]. *)
Definition try_image (src : string) (base_path : option string)
    (pr : processor) (w : W) : attempt * processor * W :=
  let '(image_path, w1) := _resolve_image_path src base_path w in
  if negb (option_truthy image_path) then (Unresolved, pr, w1)
  else
    let image_path := match image_path with Some p => p | None => "" end in
    match _url_cache pr !! image_path with
    | Some wechat_url => (Uploaded wechat_url, pr, w1)
    | None =>
        match compress_and_upload pr image_path w1 with
        | (Some wechat_url, w2) =>
            (Uploaded wechat_url,
             set_url_cache (<[image_path := wechat_url]> (_url_cache pr)) pr,
             w2)
        | (None, w2) => (Raised, pr, w2)
        end
    end.

(** The state the loop threads: the processor, the outside, and the two
    lists it appends to. *)
Record run := mk_run {
  proc : processor;
  outside : W;
  success_list : list string;
  fail_list : list string
}.

(** The body of [for img in soup.find_all('img')] on one [img]: the
    attributes the element has afterwards, or [None] when it is
    decomposed. *)
Definition process_img (base_path : option string) (remove_failed : bool)
    (attrs : gmap string attr_value) (r : run)
  : option (gmap string attr_value) * run :=
  let src := get_src attrs in
  if negb (PyStr.truthy src) then (Some attrs, r)
  else if on_wechat_host src then (Some attrs, r)
  else
    match try_image src base_path (proc r) (outside r) with
    | (Uploaded wechat_url, pr, w) =>
        (Some (<["data-src" := AStr wechat_url]>
                 (<["src" := AStr wechat_url]> attrs)),
         {| proc := pr; outside := w;
            success_list := success_list r ++ [src];
            fail_list := fail_list r |})
    | (_, pr, w) =>
        (if remove_failed then None else Some attrs,
         {| proc := pr; outside := w;
            success_list := success_list r;
            fail_list := fail_list r ++ [src] |})
    end.

(** A loop body applied to the nodes of a list in order. *)
Definition in_order (f : node -> run -> list node * run)
  : list node -> run -> list node * run :=
  fix go (l : list node) (r : run) : list node * run :=
    match l with
    | [] => ([], r)
    | n :: l' =>
        let '(n', r1) := f n r in
        let '(l'', r2) := go l' r1 in
        (n' ++ l'', r2)
    end.

(** The loop over the [img] tags of a node, in document order; the
    nodes that stand for it afterwards (none when it was decomposed). *)
Fixpoint process_node (base_path : option string) (remove_failed : bool)
    (n : node) (r : run) : list node * run :=
  match n with
  | NTag name attrs children =>
      if String.eqb name "img" then
        match process_img base_path remove_failed attrs r with
        | (Some attrs', r1) =>
            let '(children', r2) :=
              in_order (process_node base_path remove_failed) children r1 in
            ([NTag name attrs' children'], r2)
        | (None, r1) => ([], r1)
        end
      else
        let '(children', r1) :=
          in_order (process_node base_path remove_failed) children r in
        ([NTag name attrs children'], r1)
  | _ => ([n], r)
  end.

Definition process_soup (base_path : option string) (remove_failed : bool)
  : list node -> run -> list node * run :=
  in_order (process_node base_path remove_failed).

(** The state the loop is in when it reaches the place [c]. *)
Fixpoint run_before (base_path : option string) (remove_failed : bool)
    (c : ctx) (r : run) : run :=
  match c with
  | Hole before _ => snd (process_soup base_path remove_failed before r)
  | Inside before _ _ inner _ =>
      run_before base_path remove_failed inner
        (snd (process_soup base_path remove_failed before r))
  end.

(** A run with other lists. *)
Definition with_lists (s f : list string) (r : run) : run :=
  {| proc := proc r; outside := outside r;
     success_list := s; fail_list := f |}.



(** Every source in the two lists is a non-empty string. *)
Definition lists_truthy (r : run) : Prop :=
  List.Forall (fun s => PyStr.truthy s = true) (success_list r) /\
  List.Forall (fun s => PyStr.truthy s = true) (fail_list r).

(** The sources the loop has to deal with: those of the [img] tags whose
    [src] is non-empty and not on the platform's hosts. *)
Definition candidate (n : node) : list string :=
  match n with
  | NTag name attrs _ =>
      if String.eqb name "img" && PyStr.truthy (get_src attrs)
         && negb (on_wechat_host (get_src attrs))
      then [get_src attrs] else []
  | _ => []
  end.

Definition candidates (soup : list node) : list string :=
  flat_map candidate (find_all soup).


End Processor.

(** *** A sample outside

    The state is the list of the files there are; the working directory is
    [/work]; nothing can be downloaded; uploads succeed. *)
#[export] Instance sample_outside : Outside (list string) := {|
  is_absolute := fun s => PyStr.startswith s "/";
  path_str := fun s => s;
  path_join := fun a b => (a ++ "/" ++ b)%string;
  path_parent := fun a => a;
  path_exists := fun w p => existsb (String.eqb p) w;
  path_is_file := fun _ _ => false;
  path_resolve := fun _ p => p;
  cwd := fun _ => "/work";
  stat_size := fun _ _ => Some 10%Z;
  _download_image := fun _ w => (None, w);
  compress_image := fun p _ _ w => (Some p, w);
  api_upload_image := fun p w => (Some ("https://mmbiz.qpic.cn" ++ p)%string, w)
|}.

Definition sample_processor : processor :=
  {| auto_compress := true; max_width := 1080; quality := 85;
     _url_cache := ∅ |}.

Definition img_tag (src : string) : node :=
  NTag "img" (<["src" := AStr src]> ∅) [].

(** A paragraph holding an image that is there and, at the place left
    open, whatever is plugged in, followed by a second paragraph. *)
Definition sample_place : ctx :=
  Inside [NText "a"] "p" ∅ (Hole [img_tag "/work/ok.png"] [NText "b"])
    [NTag "p" ∅ [NText "c"]].

Definition sample_files : list string := ["/work/ok.png"].

(** A stand-in for the parser: two documents, with and without the image
    at the place; and for the printer: the number of tags. *)
Definition sample_parse (x : list node) (html : string) : list node :=
  if String.eqb html "with" then plug sample_place x
  else plug sample_place [].

Definition sample_render (soup : list node) : string :=
  String.concat "," (List.map (fun n => match n with
                                        | NTag name _ _ => name
                                        | _ => ""
                                        end) (find_all soup)).

(** *** A sample outside where an upload fails

    The state is the list of the files there are and the number of
    uploads tried; the upload of [/work/bad.png] raises. *)
#[export] Instance flaky_outside : Outside (list string * nat) := {|
  is_absolute := fun s => PyStr.startswith s "/";
  path_str := fun s => s;
  path_join := fun a b => (a ++ "/" ++ b)%string;
  path_parent := fun a => a;
  path_exists := fun w p => existsb (String.eqb p) (fst w);
  path_is_file := fun _ _ => false;
  path_resolve := fun _ p => p;
  cwd := fun _ => "/work";
  stat_size := fun _ _ => Some 10%Z;
  _download_image := fun _ w => (None, w);
  compress_image := fun p _ _ w => (Some p, w);
  api_upload_image := fun p w =>
    (if String.eqb p "/work/bad.png" then None
     else Some ("https://mmbiz.qpic.cn" ++ p)%string,
     (fst w, S (snd w)))
|}.

Definition flaky_files : list string * nat :=
  (["/work/ok.png"; "/work/bad.png"; "/work/late.png"], 0).

(** A paragraph holding an image, the place left open, and one more
    image. *)
Definition busy_place : ctx :=
  Inside [NText "a"] "p" ∅
    (Hole [img_tag "/work/ok.png"] [img_tag "/work/late.png"]) [].

(** [ImageProcessor.process_html], between [BeautifulSoup(html,
    'html.parser')] and [str(soup)], which are given. *)
Definition process_html {W : Type} `{Outside W}
    (parse : string -> list node) (render : list node -> string)
    (html : string) (base_path : option string) (remove_failed : bool)
    (pr : processor) (w : W)
  : (string * list string * list string) * processor * W :=
  let '(soup, r) :=
    process_soup base_path remove_failed (parse html)
      {| proc := pr; outside := w; success_list := []; fail_list := [] |} in
  ((render soup, success_list r, fail_list r), proc r, outside r).

End Uploader.

(** ** [converter.py]: the conversion pipeline

    The Markdown parser, BeautifulSoup and Pygments are libraries.  [Libs]
    gathers what [MarkdownConverter] calls in them: the parser is an object
    with a state ([md_new] after construction); [md_convert] is
    [self.md.convert(text)], [bs_parse] is [BeautifulSoup(html,
    'html.parser')], [bs_render] is [str(soup)] and [highlight] is
    [highlight(code, lexer, formatter)] for the formatter the source
    builds: each answers [None] when the call raises (a [RecursionError]
    on a text nested too deep, say), the parser being then in the state it
    was in when it gave up; [get_lexer_by_name] and [guess_lexer] answer
    [None] when they raise [ClassNotFound]; [get_theme_css] is what
    [theme_manager] reads for a theme name. *)

Module Converter.
Import Dom.

Class Libs := {
  md_state : Type;
  md_new : md_state;
  md_convert : md_state -> string -> option string * md_state;
  md_reset : md_state -> md_state;
  bs_parse : string -> option (list node);
  bs_render : list node -> option string;
  lexer : Type;
  get_lexer_by_name : string -> option lexer;
  guess_lexer : string -> option lexer;
  highlight : string -> lexer -> option string;
  get_theme_css : string -> string
}.

(** [tag['style'] = v] *)
Definition set_style (v : string) (attrs : gmap string attr_value)
  : gmap string attr_value :=
  <["style" := AStr v]> attrs.

(** A loop [for tag in soup.find_all(...): tag[...] = ...] that only
    changes attributes: [f] gets the names of the ancestors of the tag,
    nearest first, its name and its attributes. *)
Fixpoint map_tags
    (f : list string -> string -> gmap string attr_value -> gmap string attr_value)
    (ancestors : list string) (n : node) : node :=
  match n with
  | NTag name attrs children =>
      NTag name (f ancestors name attrs)
        (List.map (map_tags f (name :: ancestors)) children)
  | _ => n
  end.

Definition map_soup f (soup : list node) : list node :=
  List.map (map_tags f []) soup.

Definition has_ancestor (name : string) (ancestors : list string) : bool :=
  existsb (String.eqb name) ancestors.

(** *** Code blocks *)

(** While the loop over [soup.find_all('pre')] runs, the tree holds the
    tags of the parsed document, which the loop is still to visit, and the
    tags [replace_with] has put in, which it never visits: [listed] tells
    them apart. *)
#[warnings="-register-all"]
Inductive mnode :=
  | MText (s : string)
  | MMisc (s : string)
  | MTag (listed : bool) (name : string) (attrs : gmap string attr_value)
      (children : list mnode).

Fixpoint mark (listed : bool) (n : node) : mnode :=
  match n with
  | NText s => MText s
  | NMisc s => MMisc s
  | NTag name attrs children =>
      MTag listed name attrs (List.map (mark listed) children)
  end.

Fixpoint unmark (m : mnode) : node :=
  match m with
  | MText s => NText s
  | MMisc s => NMisc s
  | MTag _ name attrs children => NTag name attrs (List.map unmark children)
  end.

Section MnodeInduction.
Variable P : mnode -> Prop.
Hypothesis Htext : forall s, P (MText s).
Hypothesis Hmisc : forall s, P (MMisc s).
Hypothesis Htag : forall listed name attrs children,
  List.Forall P children -> P (MTag listed name attrs children).

Fixpoint mnode_induction (m : mnode) : P m :=
  match m with
  | MText s => Htext s
  | MMisc s => Hmisc s
  | MTag listed name attrs children =>
      Htag listed name attrs children
        ((fix all (l : list mnode) : List.Forall P l :=
            match l with
            | [] => @List.Forall_nil _ P
            | x :: l' =>
                @List.Forall_cons _ P x l' (mnode_induction x) (all l')
            end) children)
  end.
End MnodeInduction.

(** [tag.find(name)] among the descendants given as [l]: the first tag of
    that name in document order. *)
Fixpoint find_in (name : string) (m : mnode) : option mnode :=
  match m with
  | MTag _ nm _ children =>
      if String.eqb nm name then Some m
      else (fix first (l : list mnode) : option mnode :=
              match l with
              | [] => None
              | x :: l' =>
                  match find_in name x with
                  | Some r => Some r
                  | None => first l'
                  end
              end) children
  | _ => None
  end.

Fixpoint find_first (name : string) (l : list mnode) : option mnode :=
  match l with
  | [] => None
  | x :: l' =>
      match find_in name x with
      | Some r => Some r
      | None => find_first name l'
      end
  end.

(** [found.replace_with(new)] for the tag [tag.find(name)] found: the
    first tag of that name among the descendants gives way to [new]. *)
Fixpoint replace_in (name : string) (new : mnode) (m : mnode)
  : option mnode :=
  match m with
  | MTag listed nm attrs children =>
      if String.eqb nm name then Some new
      else
        match (fix first (l : list mnode) : option (list mnode) :=
                 match l with
                 | [] => None
                 | x :: l' =>
                     match replace_in name new x with
                     | Some x' => Some (x' :: l')
                     | None =>
                         match first l' with
                         | Some l'' => Some (x :: l'')
                         | None => None
                         end
                     end
                 end) children with
        | Some children' => Some (MTag listed nm attrs children')
        | None => None
        end
  | _ => None
  end.

Fixpoint replace_first (name : string) (new : mnode) (l : list mnode)
  : list mnode :=
  match l with
  | [] => []
  | x :: l' =>
      match replace_in name new x with
      | Some x' => x' :: l'
      | None => x :: replace_first name new l'
      end
  end.

(** [tag.get_text()]: the text below the tag, comments and the like left
    out. *)
Fixpoint get_text (m : mnode) : string :=
  match m with
  | MText s => s
  | MMisc _ => ""
  | MTag _ _ _ children => String.concat "" (List.map get_text children)
  end.

(** [cls.replace('language-', '')]; [skip] characters of a match are
    still to be dropped. *)
Fixpoint remove_language_from (skip : nat) (s : string) : string :=
  match s with
  | EmptyString => EmptyString
  | String c s' =>
      match skip with
      | S k => remove_language_from k s'
      | O =>
          if PyStr.startswith s "language-" then remove_language_from 8 s'
          else String c (remove_language_from 0 s')
      end
  end.

(** The language of a [code] tag: from the first of its classes that
    starts with [language-]. *)
Definition code_language (attrs : gmap string attr_value) : option string :=
  match attrs !! "class" with
  | Some (AList l) =>
      match List.find (fun cls => PyStr.startswith cls "language-") l with
      | Some cls => Some (remove_language_from 0 cls)
      | None => None
      end
  | _ => None
  end.

Definition pre_style : string :=
  "background: #f8f8f8;padding: 16px;border-radius: 4px;overflow-x: auto;font-family: Consolas, Monaco, monospace;font-size: 14px;line-height: 1.5;margin: 16px 0;".

Definition inline_code_style : string :=
  "background: #f0f0f0;padding: 2px 6px;border-radius: 3px;font-family: Consolas, Monaco, monospace;font-size: 14px;color: #e83e8c;".

Definition attrs_of (m : mnode) : gmap string attr_value :=
  match m with MTag _ _ attrs _ => attrs | _ => ∅ end.

Definition children_of (m : mnode) : list mnode :=
  match m with MTag _ _ _ children => children | _ => [] end.

Fixpoint all_some {A} (l : list (option A)) : option (list A) :=
  match l with
  | [] => Some []
  | Some a :: l' =>
      match all_some l' with Some r => Some (a :: r) | None => None end
  | None :: _ => None
  end.

(** A step run on the result of the step before, unless that one
    raised. *)
Definition and_then {A B} (o : option A) (step : A -> option B) : option B :=
  match o with
  | Some a => step a
  | None => None
  end.

Section CodeBlocks.
Context `{Libs}.

(** What the [try] block of the loop comes to for the [code] tag found. *)
Inductive highlighting :=
  | NoLexer                    (* [ClassNotFound]: [pass] *)
  | Replacement (new : mnode)
  | NoneInserted               (* [replace_with(None)] raises *)
  | LibraryRaised.             (* [highlight] or [BeautifulSoup] raises *)

Definition highlight_code (code : mnode) : highlighting :=
  let code_text := get_text code in
  let language := code_language (attrs_of code) in
  let lexer :=
    match language with
    | Some l => if PyStr.truthy l then get_lexer_by_name l
                else guess_lexer code_text
    | None => guess_lexer code_text
    end in
  match lexer with
  | None => NoLexer
  | Some lx =>
      match and_then (highlight code_text lx) bs_parse with
      | None => LibraryRaised
      | Some parsed =>
          let highlighted := List.map (mark false) parsed in
          match find_first "div" highlighted with
          | Some new => Replacement new
          | None =>
              match find_first "pre" highlighted with
              | Some new => Replacement new
              | None => NoneInserted
              end
          end
      end
  end.

(** The loop over [soup.find_all('pre')], on the tree below one node.
    A listed [pre] is dealt with before the listed tags below it; the
    listed tags below a [code] tag that was replaced are still visited,
    off the tree.  [None] when an iteration raises.  Each level of the
    parsed document takes one unit of [fuel]. *)
Fixpoint visit_pre (fuel : nat) (m : mnode) : option mnode :=
  match fuel with
  | O => Some m
  | S fuel' =>
      match m with
      | MTag true name attrs children =>
          if String.eqb name "pre" then
            match find_first "code" children with
            | None =>
                option_map (MTag true name attrs)
                  (all_some (List.map (visit_pre fuel') children))
            | Some code =>
                match highlight_code code with
                | NoLexer =>
                    option_map (MTag true name (set_style pre_style attrs))
                      (all_some (List.map (visit_pre fuel') children))
                | NoneInserted | LibraryRaised => None
                | Replacement new =>
                    match all_some (List.map (visit_pre fuel') (children_of code)) with
                    | None => None
                    | Some _ =>
                        option_map (MTag true name (set_style pre_style attrs))
                          (all_some
                             (List.map (visit_pre fuel')
                                (replace_first "code" new children)))
                    end
                end
            end
          else
            option_map (MTag true name attrs)
              (all_some (List.map (visit_pre fuel') children))
      | _ => Some m
      end
  end.

(** The number of listed tags on the longest way down a tree, and down
    the trees of a list. *)
Fixpoint listed_depth (m : mnode) : nat :=
  match m with
  | MTag listed _ _ children =>
      (if listed then 1 else 0)
      + List.fold_right Nat.max 0 (List.map listed_depth children)
  | _ => 0
  end.

Definition max_depth (l : list mnode) : nat :=
  List.fold_right Nat.max 0 (List.map listed_depth l).

(** [for code in soup.find_all('code'):
      if not code.parent.name == 'pre': code['style'] = ...] *)
Definition style_inline_code (ancestors : list string) (name : string)
    (attrs : gmap string attr_value) : gmap string attr_value :=
  if String.eqb name "code" then
    match ancestors with
    | parent :: _ =>
        if String.eqb parent "pre" then attrs
        else set_style inline_code_style attrs
    | [] => set_style inline_code_style attrs
    end
  else attrs.

(** [MarkdownConverter._process_code_blocks]; [None] when it raises. *)
Definition _process_code_blocks (html : string) : option string :=
  match bs_parse html with
  | None => None
  | Some parsed =>
      let soup := List.map (mark true) parsed in
      let fuel := S (max_depth soup) in
      match all_some (List.map (visit_pre fuel) soup) with
      | None => None
      | Some soup' =>
          bs_render (map_soup style_inline_code (List.map unmark soup'))
      end
  end.
End CodeBlocks.

(** *** Images, tables, structural styles *)

Definition img_style : string :=
  "max-width: 100%;height: auto;display: block;margin: 16px auto;".

(** The loop of [_process_images]. *)
Definition style_image (ancestors : list string) (name : string)
    (attrs : gmap string attr_value) : gmap string attr_value :=
  if String.eqb name "img" then
    let attrs := set_style img_style attrs in
    match attrs !! "src", attrs !! "data-src" with
    | Some src, None => <["data-src" := src]> attrs
    | _, _ => attrs
    end
  else attrs.

Definition table_style : string :=
  "width: 100%;border-collapse: collapse;margin: 16px 0;font-size: 14px;".
Definition th_style : string :=
  "background: #f5f5f5;border: 1px solid #ddd;padding: 12px;text-align: left;font-weight: bold;".
Definition td_style : string :=
  "border: 1px solid #ddd;padding: 12px;text-align: left;".

(** The loops of [_process_tables]: every [table], and the [th] and [td]
    below a [table]. *)
Definition style_table (ancestors : list string) (name : string)
    (attrs : gmap string attr_value) : gmap string attr_value :=
  if String.eqb name "table" then set_style table_style attrs
  else if String.eqb name "th" && has_ancestor "table" ancestors
  then set_style th_style attrs
  else if String.eqb name "td" && has_ancestor "table" ancestors
  then set_style td_style attrs
  else attrs.

Definition h1_style : string :=
  "font-size: 24px;font-weight: bold;color: #000;margin: 24px 0 16px;padding-bottom: 8px;border-bottom: 2px solid #07c160;".
Definition h2_style : string :=
  "font-size: 20px;font-weight: bold;color: #222;margin: 20px 0 12px;padding-left: 12px;border-left: 4px solid #07c160;".
Definition h3_style : string :=
  "font-size: 18px;font-weight: bold;color: #333;margin: 16px 0 10px;".
Definition p_style : string :=
  "margin: 16px 0;text-align: justify;line-height: 1.8;".
Definition blockquote_style : string :=
  "margin: 16px 0;padding: 12px 16px;background: #f5f5f5;border-left: 4px solid #07c160;color: #666;".
Definition list_style : string := "margin: 16px 0;padding-left: 24px;".
Definition nested_list_style : string := "margin: 8px 0;padding-left: 24px;".
Definition li_style : string := "margin: 8px 0;line-height: 1.6;".
Definition a_style : string := "color: #07c160;text-decoration: none;".
Definition hr_style : string :=
  "border: none;border-top: 1px solid #eee;margin: 24px 0;".

(** The loops of [_apply_wechat_styles]; a tag has one name, so at most
    one of them touches it. *)
Definition style_structure (ancestors : list string) (name : string)
    (attrs : gmap string attr_value) : gmap string attr_value :=
  if String.eqb name "h1" then set_style h1_style attrs
  else if String.eqb name "h2" then set_style h2_style attrs
  else if String.eqb name "h3" then set_style h3_style attrs
  else if String.eqb name "p" then
    match attrs !! "style" with
    | None => set_style p_style attrs
    | Some _ => attrs
    end
  else if String.eqb name "blockquote" then set_style blockquote_style attrs
  else if String.eqb name "ul" || String.eqb name "ol" then
    if negb (has_ancestor "li" ancestors) then set_style list_style attrs
    else set_style nested_list_style attrs
  else if String.eqb name "li" then set_style li_style attrs
  else if String.eqb name "a" then set_style a_style attrs
  else if String.eqb name "hr" then set_style hr_style attrs
  else attrs.

(** *** The document shell *)

Definition dq : string := String "034"%char EmptyString.
Definition nl : string := String PyStr.LF EmptyString.

(** [MarkdownConverter._wrap_article] *)
Definition _wrap_article (theme_css html : string) (title : option string)
  : string :=
  let title_tag :=
    match title with
    | Some t => if PyStr.truthy t then ("<title>" ++ t ++ "</title>")%string else ""
    | None => ""
    end in
  ("<!DOCTYPE html>" ++ nl ++
  "<html>" ++ nl ++
  "<head>" ++ nl ++
  "<meta charset=" ++ dq ++ "UTF-8" ++ dq ++ ">" ++ nl ++
  "<meta name=" ++ dq ++ "viewport" ++ dq ++ " content=" ++ dq
    ++ "width=device-width, initial-scale=1.0" ++ dq ++ ">" ++ nl ++
  title_tag ++ nl ++
  "<style>" ++ nl ++
  theme_css ++ nl ++
  ".mp-article {" ++ nl ++
  "    font-family: -apple-system, BlinkMacSystemFont, " ++ dq ++ "Segoe UI" ++ dq
    ++ ", Roboto, " ++ dq ++ "Helvetica Neue" ++ dq ++ ", Arial, sans-serif;" ++ nl ++
  "    font-size: 16px;" ++ nl ++
  "    line-height: 1.8;" ++ nl ++
  "    color: #333;" ++ nl ++
  "    max-width: 100%;" ++ nl ++
  "    padding: 20px;" ++ nl ++
  "}" ++ nl ++
  "</style>" ++ nl ++
  "</head>" ++ nl ++
  "<body>" ++ nl ++
  "<section class=" ++ dq ++ "mp-article" ++ dq ++ ">" ++ nl ++
  html ++ nl ++
  "</section>" ++ nl ++
  "</body>" ++ nl ++
  "</html>")%string.

(** *** The converter *)

Section Convert.
Context `{Libs}.

(** A [MarkdownConverter]: what [__init__] sets. *)
Record converter := {
  theme : string;
  theme_css : string;
  md : md_state
}.

(** [MarkdownConverter(theme)] *)
Definition new_converter (theme : string) : converter :=
  {| theme := theme; theme_css := get_theme_css theme; md := md_new |}.

Definition set_md (s : md_state) (cv : converter) : converter :=
  {| theme := theme cv; theme_css := theme_css cv; md := s |}.

(** A pass that parses the HTML, runs its loops on the tree and prints
    the tree; [None] when the parser or the printer raises. *)
Definition restyled (loops : list node -> list node) (html : string)
  : option string :=
  and_then (bs_parse html) (fun soup => bs_render (loops soup)).

Definition _process_images : string -> option string :=
  restyled (map_soup style_image).

Definition _process_tables : string -> option string :=
  restyled (map_soup style_table).

Definition _apply_wechat_styles : string -> option string :=
  restyled (map_soup style_structure).

(** [MarkdownConverter._clean_html] *)
Definition _clean_html : string -> option string :=
  restyled Clean.clean_soup.

(** Steps 2 to 6 of [convert]. *)
Definition style_passes (html_content : string) : option string :=
  and_then
    (and_then
       (and_then
          (and_then (_process_code_blocks html_content) _process_images)
          _process_tables)
       _apply_wechat_styles)
    _clean_html.

(** [MarkdownConverter.convert]: the HTML, or [None] when a step raises,
    and the converter afterwards.  [self.md.reset()] is the last statement
    before [return]: it is not reached when a step raises. *)
Definition convert (cv : converter) (markdown_text : string)
    (title : option string) : option string * converter :=
  let markdown_text := Preprocess._preprocess_markdown markdown_text in
  let '(html_content, md1) := md_convert (md cv) markdown_text in
  let cv := set_md md1 cv in
  match and_then html_content style_passes with
  | None => (None, cv)
  | Some html_content =>
      let html_content := _wrap_article (theme_css cv) html_content title in
      (Some html_content, set_md (md_reset (md cv)) cv)
  end.

(** C6 as the specification words it, for a converter in whatever state
    earlier calls have left it: two successive conversions of a text give
    the same HTML. *)
Definition same_html_twice (cv : converter) (text : string)
    (title : option string) : Prop :=
  fst (convert cv text title) =
  fst (convert (snd (convert cv text title)) text title).
End Convert.

(** *** Sample libraries

    A parser that, like [markdown.Markdown], keeps the link definitions it
    has read until it is reset: its state tells whether a text holding
    [[ref]: ...], which defines the link [ref], has been read, and a text
    is printed as a link once one has.  It gives up on a quotation nested
    four deep, after reading the text. *)
#[export] Instance sample_libs : Libs := {|
  md_state := bool;
  md_new := false;
  md_convert := fun defined text =>
    let defined := defined || PyStr.contains text "[ref]: " in
    if PyStr.startswith text ">>>>" then (None, defined)
    else (Some (if defined then "<a>" ++ text ++ "</a>" else text)%string,
          defined);
  md_reset := fun _ => false;
  bs_parse := fun html => Some [NTag "p" ∅ [NText html]];
  bs_render := fun soup =>
    Some (String.concat "" (List.map (fun n => match n with
                                               | NTag _ _ [NText t] => t
                                               | _ => ""
                                               end) soup));
  lexer := unit;
  get_lexer_by_name := fun _ => None;
  guess_lexer := fun _ => None;
  highlight := fun code _ => Some code;
  get_theme_css := fun _ => "p { color: #333; }"
|}.

(** A quotation nested too deep for the sample parser, which defines the
    link [ref]. *)
Definition deep_text : string := ">>>> [ref]: http://example.com".

End Converter.

(** ** [converter.py], [uploader.py]: what is read off the Markdown text

    The two regular expressions are followed as the [re] module runs them:
    leftmost match, lazy groups grown one character at a time, the greedy
    [\s+] giving characters back when what follows cannot match. *)

Module Extract.
Import PyStr.

(** [(.+?)\)] after its first character: the shortest run of characters
    other than line feed that is followed by [)]. *)
Fixpoint find_paren (s : string) : option (string * string) :=
  match s with
  | EmptyString => None
  | String c s' =>
      if Ascii.eqb c ")" then Some (EmptyString, s')
      else if is_LF c then None
      else match find_paren s' with
           | Some (g, rest) => Some (String c g, rest)
           | None => None
           end
  end.

(** [(.+?)\)]: the group and what follows the closing parenthesis. *)
Definition url_here (s : string) : option (string * string) :=
  match s with
  | EmptyString => None
  | String c s' =>
      if is_LF c then None
      else match find_paren s' with
           | Some (g, rest) => Some (String c g, rest)
           | None => None
           end
  end.

(** [.*?\]\((.+?)\)], entered after [![]: the lazy [.*?] grows until what
    follows matches. *)
Fixpoint alt_here (s : string) : option (string * string) :=
  match s with
  | EmptyString => None
  | String c s' =>
      match match strip_prefix "](" s with
            | Some r => url_here r
            | None => None
            end with
      | Some res => Some res
      | None => if is_LF c then None else alt_here s'
      end
  end.

(** A match of [!\[.*?\]\((.+?)\)] at the head of [s]. *)
Definition image_here (s : string) : option (string * string) :=
  match strip_prefix "![" s with
  | Some r => alt_here r
  | None => None
  end.

(** [re.findall(pattern, s)]: the groups of the matches, left to right,
    the search resuming after each match. *)
Fixpoint findall_from (fuel : nat) (s : string) : list string :=
  match fuel with
  | O => []
  | S fuel' =>
      match s with
      | EmptyString => []
      | String c s' =>
          match image_here s with
          | Some (g, rest) => g :: findall_from fuel' rest
          | None => findall_from fuel' s'
          end
      end
  end.

(** [MarkdownConverter.extract_images] and
    [ImageProcessor.extract_images_from_markdown] *)
Definition extract_images (markdown_text : string) : list string :=
  findall_from (String.length markdown_text) markdown_text.

Definition extract_images_from_markdown (markdown_text : string) : list string :=
  findall_from (String.length markdown_text) markdown_text.

(** One whitespace character off the head of [s]. *)
Definition skip_space (s : string) : option string :=
  match s with
  | EmptyString => None
  | String a s1 =>
      if space1 a then Some s1
      else match s1 with
           | EmptyString => None
           | String b s2 =>
               if space2 a b then Some s2
               else match s2 with
                    | EmptyString => None
                    | String c s3 => if space3 a b c then Some s3 else None
                    end
           end
  end.

(** The last character other than line feed of a run of whitespace that
    is read backwards. *)
Fixpoint last_black_rev (s : string) : option string :=
  match s with
  | EmptyString => None
  | String a s1 =>
      if is_LF a then last_black_rev s1
      else if space1 a then Some (String a EmptyString)
      else match s1 with
           | EmptyString => None
           | String b s2 =>
               if space2 b a then Some (String b (String a EmptyString))
               else match s2 with
                    | EmptyString => None
                    | String c s3 =>
                        if space3 c b a
                        then Some (String c (String b (String a EmptyString)))
                        else None
                    end
           end
  end.

(** [s] up to its first line feed. *)
Fixpoint line_rest (s : string) : string :=
  match s with
  | EmptyString => EmptyString
  | String c s' => if is_LF c then EmptyString else String c (line_rest s')
  end.

(** A match of [marker\s+(.+)$] at the head of [s], a line start: the
    group.  [\s+] takes all the whitespace there is, line feeds included;
    the group is then the rest of the line it stops on.  When the
    whitespace runs to the end of the text, [\s+] gives back characters
    until the group can start: on the last whitespace character that is
    not a line feed, the first of the run apart. *)
Definition heading_here (marker s : string) : option string :=
  match strip_prefix marker s with
  | None => None
  | Some t =>
      match skip_space t with
      | None => None
      | Some t1 =>
          match lstrip t1 with
          | EmptyString => last_black_rev (rev t1)
          | rest => Some (line_rest rest)
          end
      end
  end.

(** [re.search(r'^marker\s+(.+)$', s, re.MULTILINE)]: the first line
    start at which the pattern matches.  [at_start] tells whether the
    head of [s] is a line start. *)
Fixpoint search_heading (marker : string) (at_start : bool) (s : string)
  : option string :=
  match (if at_start then heading_here marker s else None) with
  | Some g => Some g
  | None =>
      match s with
      | EmptyString => None
      | String c s' => search_heading marker (is_LF c) s'
      end
  end.

(** [MarkdownConverter.extract_title] *)
Definition extract_title (markdown_text : string) : option string :=
  match search_heading "#" true markdown_text with
  | Some g => Some (strip g)
  | None =>
      match search_heading "##" true markdown_text with
      | Some g => Some (strip g)
      | None => None
      end
  end.

(** Lines, each followed by a line feed. *)
Fixpoint unlines (lines : list string) : string :=
  match lines with
  | [] => EmptyString
  | l :: ls => l ++ String LF (unlines ls)
  end.

(** A line on which no level-1 heading can start: it does not begin with
    [#], or it begins with [##]. *)
Definition not_h1 (line : string) : bool :=
  negb (startswith line "#") || startswith line "##".

End Extract.

(** ** [wechat_api.py]: the other draft operations, restarts and failures *)

Module Operations.
Import Json Api.

(** [WeChatAPI.update_draft] *)
Definition update_draft (media_id : string) (index : Z)
    (article : gmap string jval) : M bool :=
  let data : gmap string jval :=
    <["articles" := JObj article]>
      (<["index" := JInt index]> (<["media_id" := JStr media_id]> ∅)) in
  do result <- _request POST "/draft/update" ∅ (Some (JObj data));
  ret (eq_int (get_none result "errcode") 0).

(** The body [list_drafts] posts. *)
Definition list_payload (offset count no_content : Z) : jval :=
  JObj (<["no_content" := JInt no_content]>
          (<["count" := JInt (Z.min count 20)]>
             (<["offset" := JInt offset]> ∅))).

(** [WeChatAPI.list_drafts] *)
Definition list_drafts (offset count no_content : Z) : M jval :=
  do result <- _request POST "/draft/batchget" ∅
                 (Some (list_payload offset count no_content));
  ret (get_default result "item" (JList [])).

(** A new process with the token file the old one left: a [TokenManager]
    starts with no token in memory and [_expires_at = 0]. *)
Definition restarted (w : world) : world :=
  set_expires_at 0 (set_access_token None w).

(** The world after one more request [r] has been sent. *)
Definition sent (r : request) (w : world) : world :=
  set_requests_made (S (requests_made w))
    (set_trace (trace w ++ [EvRequest r]) w).

(** The request [upload_image] posts with the token [tok]. *)
Definition upload_request (image_path : string) (tok : jval) : request :=
  {| rq_method := POST; rq_url := (API_BASE ++ "/media/uploadimg")%string;
     rq_params := <["access_token" := tok]> ∅;
     rq_json := None; rq_file := Some image_path |}.

(** A request is a credential exchange, or the request [req] makes of
    some token. *)
Definition token_or (req : jval -> request) (r : request) : Prop :=
  rq_url r = token_url \/ exists tok, r = req tok.

(** The transport fails on the next request with the message [msg]: no
    connection, an HTTP error status, or a body that is not JSON. *)
Definition transport_fails (w : world) (msg : string) : Prop :=
  match server (env w) (requests_made w) with
  | ConnectionError m => m = msg
  | Response resp =>
      match http_error resp with
      | Some m => m = msg
      | None => resp_body resp = BadJson msg
      end
  end.

(** The next answer is a JSON object [data]. *)
Definition answers (w : world) (data : gmap string jval) : Prop :=
  exists resp, server (env w) (requests_made w) = Response resp /\
               http_error resp = None /\ resp_body resp = Json data.

Definition network_error (msg : string) : exn :=
  WeChatAPIError (JInt (-1)) (JStr ("Network error: " ++ msg)).

(** The credential exchange is refused with the exception [e]: the
    transport fails, or the answer carries no [access_token]. *)
Definition exchange_refused (w : world) (e : exn) : Prop :=
  (exists msg, transport_fails w msg /\ e = network_error msg) \/
  (exists data, answers w data /\ data !! "access_token" = None /\
                e = WeChatAPIError (get_default data "errcode" (JInt (-1)))
                      (get_default data "errmsg" (JStr "Unknown error"))).

(** A server that cannot be reached after it has granted a token. *)
Definition unreachable_server (n : nat) : http_outcome :=
  match n with
  | 0 => token_response "T" 7200
  | _ => ConnectionError "refused"
  end.

(** A server that grants a token and accepts whatever follows without
    reporting a code. *)
Definition terse_server (n : nat) : http_outcome :=
  match n with
  | 0 => token_response "T" 7200
  | _ => Response {| http_error := None; resp_body := Json ∅ |}
  end.

(** A process configured for another account than the one its client was
    built for. *)
Definition foreign_world (srv : nat -> http_outcome) : world :=
  {| env := sample_env srv; clock_reads := 0; jitter_reads := 0;
     requests_made := 0; appid := "wx1"; appsecret := "secret";
     _access_token := None; _expires_at := 0;
     config_appid := Some "wx2"; token_file := None; trace := [] |}.

End Operations.

(** ** Places and shapes in a document *)

Module Places.
Import Dom Converter.

(** The tree without its attributes: the tags, their nesting and order,
    and the strings between them. *)
Fixpoint shape (n : node) : node :=
  match n with
  | NTag name _ children => NTag name ∅ (List.map shape children)
  | _ => n
  end.

(** The names of the tags around a place, nearest first, above the names
    [above] of the tags around the whole. *)
Fixpoint names_above (c : ctx) (above : list string) : list string :=
  match c with
  | Hole _ _ => above
  | Inside _ name _ inner _ => names_above inner (name :: above)
  end.

(** A loop that changes attributes, run on what surrounds a place. *)
Fixpoint map_ctx
    (f : list string -> string -> gmap string attr_value -> gmap string attr_value)
    (above : list string) (c : ctx) : ctx :=
  match c with
  | Hole before after =>
      Hole (List.map (map_tags f above) before)
           (List.map (map_tags f above) after)
  | Inside before name attrs inner after =>
      Inside (List.map (map_tags f above) before) name (f above name attrs)
        (map_ctx f (name :: above) inner)
        (List.map (map_tags f above) after)
  end.

(** The place lies below a tag named [name]. *)
Definition below (name : string) (c : ctx) : bool :=
  existsb (fun a => String.eqb name (fst a)) (ancestors c).

(** The tag right above the place, if there is one. *)
Fixpoint parent_name (c : ctx) : option string :=
  match c with
  | Hole _ _ => None
  | Inside _ name _ inner _ =>
      match parent_name inner with
      | Some p => Some p
      | None => Some name
      end
  end.


(** A list item holding a nested list, in a list. *)
Definition sample_list_place : ctx :=
  Inside [] "ul" ∅ (Inside [] "li" ∅ (Hole [NText "item"] []) []) [].

End Places.

(** ** [uploader.py]: the sources of a document, and what the loop keeps *)

Module Sources.
Import Dom Uploader.

(** The body of the loop of [extract_images_from_html]:
    [if src and src not in images: images.append(src)]. *)
Definition collect_src (images : list string) (n : node) : list string :=
  match n with
  | NTag _ attrs _ =>
      let src := get_src attrs in
      if PyStr.truthy src && negb (existsb (String.eqb src) images)
      then images ++ [src] else images
  | _ => images
  end.

(** [ImageProcessor.extract_images_from_html], after the parser. *)
Definition extract_images_from_html (parse : string -> list node)
    (html : string) : list string :=
  fold_left collect_src (find_all_named "img" (parse html)) [].

(** The document without its images. *)
Fixpoint without_imgs (n : node) : list node :=
  match n with
  | NTag name attrs children =>
      if String.eqb name "img" then []
      else [NTag name attrs (flat_map without_imgs children)]
  | _ => [n]
  end.

(** The processor has its settings and at least the entries of its cache
    from before. *)
Definition cache_extends (pr pr' : processor) : Prop :=
  _url_cache pr ⊆ _url_cache pr' /\
  auto_compress pr' = auto_compress pr /\
  max_width pr' = max_width pr /\
  quality pr' = quality pr.

End Sources.

(** ** [config.py]: configuration values

    The configuration is the JSON value [json.load] gave, or the default
    dictionary.  The environment and the configuration file are outside the
    program: [environ] is [os.environ]; [stored] is what the file holds,
    [None] when there is no file and [Some None] when it does not load;
    [writable] tells whether [save_config] can write it.  [upper] is
    [str.upper]. *)

Module Config.
Import Json.

Definition dot : ascii := "."%char.

(** [key.split(".")]: the pieces between dots; always at least one. *)
Fixpoint split_dots (s : string) : list string :=
  match s with
  | EmptyString => [EmptyString]
  | String c s' =>
      if Ascii.eqb c dot then EmptyString :: split_dots s'
      else match split_dots s' with
           | [] => [String c EmptyString]
           | k :: ks => String c k :: ks
           end
  end.

(** [key.replace(".", "_")] *)
Fixpoint dots_to_underscores (s : string) : string :=
  match s with
  | EmptyString => EmptyString
  | String c s' =>
      String (if Ascii.eqb c dot then "_"%char else c) (dots_to_underscores s')
  end.

Definition DEFAULT_CONFIG : jval :=
  JObj (<["version" := JStr "0.1.0"]>
       (<["default" := JObj (<["theme" := JStr "default"]>
                            (<["author" := JStr ""]>
                            (<["comment_enabled" := JBool false]>
                            (<["fans_only_comment" := JBool false]> ∅))))]>
       (<["image" := JObj (<["max_width" := JInt 1080]>
                          (<["quality" := JInt 85]>
                          (<["format" := JStr "jpeg"]>
                          (<["auto_compress" := JBool true]> ∅))))]>
       (<["upload" := JObj (<["retry_times" := JInt 3]>
                           (<["retry_delay" := JInt 2]> ∅))]> ∅)))).

Record config := {
  environ : gmap string string;
  _config : jval;
  stored : option (option jval);
  writable : bool
}.

(** [Config()]: [__init__] and [_load_config]. *)
Definition _load_config (stored : option (option jval)) : jval :=
  match stored with
  | Some (Some v) => v
  | _ => DEFAULT_CONFIG
  end.

Definition new_config (environ : gmap string string)
    (stored : option (option jval)) (writable : bool) : config :=
  {| environ := environ; _config := _load_config stored;
     stored := stored; writable := writable |}.

(** The loop of [get]: down the dictionaries, [default] as soon as a key
    is missing or the value is not a dictionary. *)
Fixpoint walk (keys : list string) (value default : jval) : jval :=
  match keys with
  | [] => value
  | k :: keys' =>
      match value with
      | JObj d =>
          match d !! k with
          | Some v => walk keys' v default
          | None => default
          end
      | _ => default
      end
  end.

(** The loop of [set] and the assignment after it, on the dictionary
    reached; [None] where Python raises [TypeError] (a value on the way
    that is not a dictionary). *)
Fixpoint set_path (keys : list string) (value config : jval) : option jval :=
  match keys with
  | [] => None
  | k :: keys' =>
      match config with
      | JObj d =>
          match keys' with
          | [] => Some (JObj (<[k := value]> d))
          | _ =>
              let sub := match d !! k with Some v => v | None => JObj ∅ end in
              match set_path keys' value sub with
              | Some sub' => Some (JObj (<[k := sub']> d))
              | None => None
              end
          end
      | _ => None
      end
  end.

Inductive outcome :=
  | Done
  | TypeError
  | OSError.

Section Upper.
Variable upper : string -> string.

(** [os.getenv(f"WECHAT_{env_key}") or os.getenv(env_key)] *)
Definition env_value (environ : gmap string string) (key : string)
  : option string :=
  let env_key := upper (dots_to_underscores key) in
  match environ !! ("WECHAT_" ++ env_key)%string with
  | Some v => if PyStr.truthy v then Some v else environ !! env_key
  | None => environ !! env_key
  end.

(** [Config.get] *)
Definition get (cfg : config) (key : string) (default : jval) : jval :=
  match env_value (environ cfg) key with
  | Some v =>
      if PyStr.truthy v then JStr v
      else walk (split_dots key) (_config cfg) default
  | None => walk (split_dots key) (_config cfg) default
  end.
End Upper.

(** [Config.save_config] *)
Definition save_config (cfg : config) : outcome * config :=
  if writable cfg then
    (Done, {| environ := environ cfg; _config := _config cfg;
              stored := Some (Some (_config cfg)); writable := writable cfg |})
  else (OSError, cfg).

(** [Config.set] *)
Definition set (cfg : config) (key : string) (value : jval)
  : outcome * config :=
  match set_path (split_dots key) value (_config cfg) with
  | None => (TypeError, cfg)
  | Some c =>
      save_config {| environ := environ cfg; _config := c;
                     stored := stored cfg; writable := writable cfg |}
  end.

(** Two paths part: at some depth, after the same keys, they go on with
    different keys. *)
Fixpoint diverge (ks1 ks2 : list string) : bool :=
  match ks1, ks2 with
  | k1 :: ks1', k2 :: ks2' =>
      if String.eqb k1 k2 then diverge ks1' ks2' else true
  | _, _ => false
  end.

(** [str.upper] on ASCII letters, for the samples. *)
Fixpoint ascii_upper (s : string) : string :=
  match s with
  | EmptyString => EmptyString
  | String c s' =>
      let n := nat_of_ascii c in
      String (if ((97 <=? n) && (n <=? 122))%nat then ascii_of_nat (n - 32) else c)
        (ascii_upper s')
  end.

End Config.

(** * Theorems *)

(** ** Strikethrough preprocessing *)

Module PreprocessFacts.
Import PyStr Preprocess.

Lemma split_lines_nonempty s : split_lines s <> [].
Proof.
  destruct s as [|c s]; simpl; [discriminate|].
  destruct (is_LF c); [discriminate|].
  destruct (split_lines s); discriminate.
Qed.

Lemma split_lines_no_LF s :
  List.Forall (fun l => has_LF l = false) (split_lines s).
Proof.
  induction s as [|c s IH]; simpl.
  - constructor; [reflexivity | constructor].
  - destruct (is_LF c) eqn:Hc.
    + constructor; [reflexivity | exact IH].
    + destruct (split_lines s) as [|l ls].
      * constructor; [simpl; rewrite Hc; reflexivity | constructor].
      * inversion IH; subst. constructor; [simpl; rewrite Hc; assumption | assumption].
Qed.

Lemma split_lines_single l : has_LF l = false -> split_lines l = [l].
Proof.
  induction l as [|c l IH]; simpl; [reflexivity|].
  intros H. apply orb_false_iff in H as [Hc Hl].
  rewrite Hc, (IH Hl). reflexivity.
Qed.

Lemma split_lines_app_LF l r :
  has_LF l = false -> split_lines (l ++ String LF r) = l :: split_lines r.
Proof.
  induction l as [|c l IH]; simpl; intros H.
  - reflexivity.
  - apply orb_false_iff in H as [Hc Hl].
    rewrite Hc, (IH Hl). reflexivity.
Qed.

Lemma split_join ls :
  ls <> [] -> List.Forall (fun l => has_LF l = false) ls ->
  split_lines (join_lines ls) = ls.
Proof.
  induction ls as [|l ls IH]; [congruence|].
  intros _ HF. inversion HF as [|? ? Hl HF']; subst.
  destruct ls as [|l2 ls].
  - simpl. apply split_lines_single; assumption.
  - change (join_lines (l :: l2 :: ls)) with (l ++ String LF (join_lines (l2 :: ls)))%string.
    rewrite split_lines_app_LF by assumption.
    rewrite IH; [reflexivity | discriminate | assumption].
Qed.

Lemma join_split s : join_lines (split_lines s) = s.
Proof.
  induction s as [|c s IH]; simpl; [reflexivity|].
  destruct (is_LF c) eqn:Hc.
  - apply Ascii.eqb_eq in Hc. subst c.
    pose proof (split_lines_nonempty s) as Hne.
    destruct (split_lines s) as [|l ls]; [congruence|].
    change (join_lines ("" :: l :: ls)) with ("" ++ String LF (join_lines (l :: ls)))%string.
    rewrite IH. reflexivity.
  - pose proof (split_lines_nonempty s) as Hne.
    destruct (split_lines s) as [|l ls]; [congruence|].
    destruct ls as [|l2 ls]; simpl in *; rewrite <- IH; reflexivity.
Qed.

Lemma strip_prefix_length p s r :
  strip_prefix p s = Some r -> String.length s = String.length p + String.length r.
Proof.
  revert s; induction p as [|a p IH]; intros s; simpl.
  - intros [= <-]. reflexivity.
  - destruct s as [|b s]; [discriminate|].
    destruct (Ascii.eqb a b); [|discriminate].
    intros H. simpl. rewrite (IH _ H). reflexivity.
Qed.

Lemma strip_prefix_app p r : strip_prefix p (p ++ r) = Some r.
Proof.
  induction p as [|a p IH]; simpl; [reflexivity|].
  rewrite Ascii.eqb_refl. exact IH.
Qed.

Lemma find_close_length s g r :
  find_close s = Some (g, r) ->
  String.length s = String.length g + 2 + String.length r.
Proof.
  revert g r; induction s as [|c s IH]; intros g r; [discriminate|].
  cbn [find_close].
  destruct (strip_prefix "~~" (String c s)) as [rest|] eqn:Hp.
  - intros [= <- <-]. apply strip_prefix_length in Hp. exact Hp.
  - destruct (is_LF c); [discriminate|].
    destruct (find_close s) as [[g' r']|]; [|discriminate].
    intros [= <- <-]. simpl. rewrite (IH _ _ eq_refl). reflexivity.
Qed.

Lemma match_here_length s g r :
  match_here s = Some (g, r) ->
  String.length s = String.length g + 4 + String.length r.
Proof.
  unfold match_here.
  destruct (strip_prefix "~~" s) as [s'|] eqn:Hp; [|discriminate].
  intros H. apply find_close_length in H. apply strip_prefix_length in Hp.
  simpl in Hp. lia.
Qed.

(** The fuel given by [re_sub_del] is enough: more fuel changes nothing. *)
Lemma re_sub_del_from_enough n m s :
  String.length s <= n -> String.length s <= m ->
  re_sub_del_from n s = re_sub_del_from m s.
Proof.
  revert m s; induction n as [|n IH]; intros m s Hn Hm.
  - destruct s; simpl in Hn; [|lia]. destruct m; reflexivity.
  - destruct s as [|c s]; [destruct m; reflexivity|].
    destruct m as [|m]; [simpl in Hm; lia|].
    cbn [re_sub_del_from]. simpl in Hn, Hm.
    destruct (match_here (String c s)) as [[g rest]|] eqn:Hm'.
    + apply match_here_length in Hm'. simpl in Hm'.
      rewrite (IH m rest) by lia. reflexivity.
    + rewrite (IH m s) by lia. reflexivity.
Qed.

(** The equations of [re.sub]: at each position, either a match is replaced
    and the scan resumes after it, or one character is copied. *)
Lemma re_sub_del_nil : re_sub_del "" = "".
Proof. reflexivity. Qed.

Lemma re_sub_del_cons c s :
  re_sub_del (String c s) =
  match match_here (String c s) with
  | Some (g, rest) => ("<del>" ++ g ++ "</del>" ++ re_sub_del rest)%string
  | None => String c (re_sub_del s)
  end.
Proof.
  unfold re_sub_del. cbn [String.length re_sub_del_from].
  destruct (match_here (String c s)) as [[g rest]|] eqn:Hm.
  - apply match_here_length in Hm. simpl in Hm.
    rewrite (re_sub_del_from_enough (String.length s) (String.length rest) rest) by lia.
    reflexivity.
  - reflexivity.
Qed.

Lemma has_LF_app a b : has_LF (a ++ b) = has_LF a || has_LF b.
Proof.
  induction a as [|c a IH]; simpl; [reflexivity|].
  rewrite IH. apply orb_assoc.
Qed.

Lemma strip_prefix_no_LF p s r :
  strip_prefix p s = Some r -> has_LF s = false -> has_LF r = false.
Proof.
  revert s; induction p as [|a p IH]; intros s; simpl.
  - intros [= <-]. trivial.
  - destruct s as [|b s]; [discriminate|].
    destruct (Ascii.eqb a b); [|discriminate].
    simpl. intros H Hs. apply orb_false_iff in Hs as [_ Hs]. eauto.
Qed.

Lemma find_close_no_LF s g r :
  find_close s = Some (g, r) -> has_LF s = false ->
  has_LF g = false /\ has_LF r = false.
Proof.
  revert g r; induction s as [|c s IH]; intros g r; [discriminate|].
  cbn [find_close].
  destruct (strip_prefix "~~" (String c s)) as [rest|] eqn:Hp.
  - intros [= <- <-] Hs. split; [reflexivity|].
    eapply strip_prefix_no_LF; eassumption.
  - destruct (is_LF c) eqn:Hc; [discriminate|].
    destruct (find_close s) as [[g' r']|]; [|discriminate].
    intros [= <- <-] Hs. simpl in Hs. rewrite Hc in Hs. simpl in Hs.
    destruct (IH _ _ eq_refl Hs) as [Hg Hr].
    simpl. rewrite Hc, Hg. split; [reflexivity | exact Hr].
Qed.

Lemma re_sub_del_no_LF s : has_LF s = false -> has_LF (re_sub_del s) = false.
Proof.
  remember (String.length s) as n eqn:Hn.
  assert (Hle : String.length s <= n) by lia. clear Hn.
  revert s Hle; induction n as [|n IH]; intros s Hle Hs.
  - destruct s; [reflexivity | simpl in Hle; lia].
  - destruct s as [|c s]; [reflexivity|].
    rewrite re_sub_del_cons.
    destruct (match_here (String c s)) as [[g rest]|] eqn:Hm.
    + pose proof (match_here_length _ _ _ Hm) as Hlen. simpl in Hlen, Hle.
      unfold match_here in Hm.
      destruct (strip_prefix "~~" (String c s)) as [s'|] eqn:Hp; [|discriminate].
      pose proof (strip_prefix_no_LF _ _ _ Hp Hs) as Hs'.
      destruct (find_close_no_LF _ _ _ Hm Hs') as [Hg Hr].
      rewrite !has_LF_app, Hg, (IH rest) by (lia || assumption).
      reflexivity.
    + simpl in Hs, Hle. apply orb_false_iff in Hs as [Hc Hs].
      simpl. rewrite Hc, (IH s) by (lia || assumption). reflexivity.
Qed.


Lemma contains_cons_false c u p :
  contains (String c u) p = false ->
  strip_prefix p (String c u) = None /\ contains u p = false.
Proof.
  cbn [contains]. intros H. apply orb_false_iff in H as [H1 H2].
  split; [|exact H2]. unfold startswith in H1.
  destruct (strip_prefix p (String c u)); [discriminate | reflexivity].
Qed.




(** The loop, line by line: line [i] is copied when the flag is set after
    the toggle of line [i], and rewritten otherwise. *)
Lemma preprocess_lines_nth lines : forall b i,
  nth_error (preprocess_lines b lines) i =
  option_map
    (fun line =>
       if xorb b (Nat.odd (fences_upto lines (S i))) then line
       else re_sub_del line)
    (nth_error lines i).
Proof.
  induction lines as [|l ls IH]; intros b i.
  - destruct i; reflexivity.
  - destruct i as [|i].
    + unfold fences_upto. cbn [preprocess_lines nth_error option_map firstn List.filter].
      destruct (is_fence l), b; reflexivity.
    + cbn [preprocess_lines nth_error]. rewrite IH.
      destruct (nth_error ls i) as [line|]; [|reflexivity].
      cbn [option_map]. do 2 f_equal.
      unfold fences_upto.
      change (firstn (S (S i)) (l :: ls)) with (l :: firstn (S i) ls).
      cbn [List.filter].
      destruct (is_fence l); [|reflexivity].
      cbn [List.length]. rewrite Nat.odd_succ, <- Nat.negb_odd.
      destruct b, (Nat.odd _); reflexivity.
Qed.

Lemma preprocess_lines_no_LF lines : forall b,
  List.Forall (fun l => has_LF l = false) lines ->
  List.Forall (fun l => has_LF l = false) (preprocess_lines b lines).
Proof.
  induction lines as [|l ls IH]; intros b H; [constructor|].
  inversion H; subst. cbn [preprocess_lines]. constructor.
  - destruct (negb _); [apply re_sub_del_no_LF|]; assumption.
  - apply IH; assumption.
Qed.

Lemma preprocess_lines_nonempty b lines :
  lines <> [] -> preprocess_lines b lines <> [].
Proof. destruct lines; [congruence | discriminate]. Qed.

(** The output, split again, is the list the loop built. *)
Lemma split_preprocess text :
  split_lines (_preprocess_markdown text) =
  preprocess_lines false (split_lines text).
Proof.
  unfold _preprocess_markdown. apply split_join.
  - apply preprocess_lines_nonempty, split_lines_nonempty.
  - apply preprocess_lines_no_LF, split_lines_no_LF.
Qed.

Lemma fences_upto_S lines i line :
  nth_error lines i = Some line ->
  fences_upto lines (S i) =
  fences_upto lines i + (if is_fence line then 1 else 0).
Proof.
  revert i; induction lines as [|l ls IH]; intros i H.
  - destruct i; discriminate.
  - destruct i as [|i].
    + injection H as ->. unfold fences_upto. simpl.
      destruct (is_fence line); reflexivity.
    + cbn [nth_error] in H. specialize (IH _ H).
      unfold fences_upto in *.
      change (firstn (S (S i)) (l :: ls)) with (l :: firstn (S i) ls).
      change (firstn (S i) (l :: ls)) with (l :: firstn i ls).
      cbn [List.filter]. destruct (is_fence l); cbn [List.length]; lia.
Qed.












(** [_preprocess_markdown] on blocks the loop does not know, as Python
    gives them: inside a block fenced with tildes and inside a block of
    four backticks that shows one of three it rewrites; after three
    backticks that open nothing it does not. *)
Example preprocess_other_fences :
  _preprocess_markdown tilde_fenced =
    join_lines ["~~~"; "<del>x</del>"; "~~~"] /\
  _preprocess_markdown nested_fences =
    join_lines ["````"; "```"; "<del>x</del>"; "```"; "````"] /\
  _preprocess_markdown unclosed_fence = unclosed_fence /\
  fenced_places (split_lines nested_fences) =
    [FenceLine; Code; Code; Code; FenceLine] /\
  fenced_places (split_lines unclosed_fence) = [Plain; Plain].
Proof. vm_compute. repeat split. Qed.

(** [re.sub] on some lines, as Python gives them. *)
Example re_sub_del_samples :
  re_sub_del "x ~~a~~ y ~~b~ ~~~ z" = "x <del>a</del> y <del>b~ </del>~ z" /\
  re_sub_del "~~~~" = "<del></del>" /\
  re_sub_del "~~~d~~~" = "<del>~d</del>~" /\
  re_sub_del "a~~~b~~" = "a<del>~b</del>" /\
  re_sub_del "~~~" = "~~~".
Proof. vm_compute. repeat split. Qed.

Example preprocess_sample :
  _preprocess_markdown sample_markdown =
  join_lines ["a <del>b</del> c"; "```python"; "x = ~~b~~"; "```"; "<del>d</del>"].
Proof. vm_compute. reflexivity. Qed.

End PreprocessFacts.

(** ** What a computation sends *)

Module TraceFacts.
Import Json Api.

Lemma only_sends_refl P w : only_sends P w w.
Proof. exists []. split; [symmetry; apply app_nil_r | constructor]. Qed.

Lemma only_sends_trans P w1 w2 w3 :
  only_sends P w1 w2 -> only_sends P w2 w3 -> only_sends P w1 w3.
Proof.
  intros (l1 & E1 & F1) (l2 & E2 & F2). exists (l1 ++ l2). split.
  - rewrite E2, E1, app_assoc. reflexivity.
  - apply List.Forall_app. split; assumption.
Qed.

Lemma only_sends_weaken (P Q : request -> Prop) w w' :
  (forall r, P r -> Q r) -> only_sends P w w' -> only_sends Q w w'.
Proof.
  intros HPQ (l & E & F). exists l. split; [exact E|].
  eapply List.Forall_impl; [|exact F]. intros [r| |]; auto.
Qed.

Section Rules.
Context {A B : Type}.
Variable P : request -> Prop.

Lemma sends_ret (a : A) : sends P (ret a).
Proof. intros w. apply only_sends_refl. Qed.

Lemma sends_raise (e : exn) : sends P (@raise A e).
Proof. intros w. apply only_sends_refl. Qed.

Lemma sends_bind (c : M A) (k : A -> M B) :
sends P c -> (forall a, sends P (k a)) -> sends P (bind c k).
Proof.
intros Hc Hk w. unfold bind. specialize (Hc w).
destruct (c w) as [[a|e] w1]; cbn [snd] in *; [|exact Hc].
eapply only_sends_trans; [exact Hc | apply Hk].
Qed.

Lemma sends_wrapped (c : M A) : sends P c -> sends P (network_error_wrapped c).
Proof.
intros Hc w. unfold network_error_wrapped. specialize (Hc w).
destruct (c w) as [[a|[c0 m|msg|name]] w1]; exact Hc.
Qed.
End Rules.

Lemma sends_get P : sends P get.
Proof. intros w. apply only_sends_refl. Qed.

Lemma sends_modify P (f : world -> world) :
  (forall w, trace (f w) = trace w) -> sends P (modify f).
Proof.
  intros Hf w. exists []. cbn. rewrite Hf, app_nil_r. split; [reflexivity | constructor].
Qed.

Lemma sends_time_time P : sends P time_time.
Proof.
  intros w. exists []. cbn. rewrite app_nil_r. split; [reflexivity | constructor].
Qed.

Lemma sends_random_uniform P : sends P random_uniform.
Proof.
  intros w. exists []. cbn. rewrite app_nil_r. split; [reflexivity | constructor].
Qed.

Lemma sends_sleep P seconds : sends P (time_sleep seconds).
Proof. intros w. exists [EvSleep seconds]. split; [reflexivity | repeat constructor]. Qed.

Lemma sends_send (P : request -> Prop) r : P r -> sends P (send r).
Proof.
  intros Hr w. exists [EvRequest r]. unfold send.
  destruct (server (env w) (requests_made w)); (split; [reflexivity | repeat constructor; exact Hr]).
Qed.

Lemma sends_clear_cache P : sends P clear_cache.
Proof.
  intros w. exists [EvClearCache]. split; [reflexivity | repeat constructor].
Qed.

Ltac sends_step :=
  first
    [ apply sends_ret | apply sends_raise | apply sends_get
    | apply sends_time_time | apply sends_random_uniform | apply sends_sleep
    | apply sends_clear_cache
    | apply sends_modify; intros; reflexivity
    | apply sends_wrapped
    | apply sends_bind; [|intros ?]
    | match goal with
      | |- sends _ (match ?x with _ => _ end) => destruct x
      | |- sends _ (if ?x then _ else _) => destruct x
      end ].

Lemma sends_weaken {A} (P Q : request -> Prop) (c : M A) :
  (forall r, P r -> Q r) -> sends P c -> sends Q c.
Proof. intros HPQ Hc w. eapply only_sends_weaken; [exact HPQ | apply Hc]. Qed.

(** [get_token] sends credential exchanges only. *)
Lemma get_token_sends force_refresh :
  sends (fun r => rq_url r = token_url) (get_token force_refresh).
Proof.
  unfold get_token, memory_hit, file_hit, _fetch_token, save_token,
    get_cached_token, raise_for_status, response_json.
  repeat sends_step; try (apply sends_send; reflexivity).
  intros w. apply (sends_send (fun r => rq_url r = token_url)). reflexivity.
Qed.

(** [_request] sends credential exchanges and requests to its endpoint
    with its body. *)
Lemma request_sends method endpoint params json :
  sends (exchange_or endpoint json) (_request method endpoint params json).
Proof.
  assert (Htok : sends (exchange_or endpoint json) (get_token false)).
  { eapply sends_weaken; [|apply get_token_sends]. intros r Hr. left. exact Hr. }
  unfold _request, _get_access_token, raise_for_status, response_json.
  repeat (first [exact Htok | sends_step]);
    apply sends_send; right; split; reflexivity.
Qed.

Lemma back_off_sends P backoff_factor retry_count errcode :
  sends P (back_off backoff_factor retry_count errcode).
Proof. unfold back_off. repeat sends_step. Qed.

Lemma retry_loop_sends {A} P max_retries backoff_factor retryable_errors
    (func : M A) :
  sends P func ->
  forall n retry_count last,
    sends P (retry_loop max_retries backoff_factor retryable_errors func
               n retry_count last).
Proof.
  intros Hf. induction n as [|n IH]; intros retry_count last.
  - cbn [retry_loop]. destruct last; apply sends_raise.
  - intros w. cbn [retry_loop]. specialize (Hf w).
    destruct (func w) as [[a|[c m|msg|name]] w1]; cbn [snd] in *; try exact Hf.
    destruct (retryable retryable_errors c && (retry_count <? max_retries)%Z);
      [|exact Hf].
    eapply only_sends_trans; [exact Hf|].
    apply sends_bind; [apply back_off_sends | intros _; apply IH].
Qed.

(** [add_draft], retries included, sends credential exchanges and
    requests to [/draft/add] that carry the one payload. *)
Lemma add_draft_sends title content author digest content_source_url
    thumb_media_id need_open_comment only_fans_can_comment :
  sends (exchange_or "/draft/add"
           (Some (draft_payload title content author digest content_source_url
                    thumb_media_id need_open_comment only_fans_can_comment)))
    (add_draft title content author digest content_source_url
       thumb_media_id need_open_comment only_fans_can_comment).
Proof.
  unfold add_draft, retry_on_error. apply retry_loop_sends.
  unfold add_draft_body. apply sends_bind; [apply request_sends|].
  intros result. apply sends_ret.
Qed.

End TraceFacts.

(** ** Draft payload *)

Module DraftFacts.
Import Json Api TraceFacts.

Lemma snd_network_error_wrapped {A} (c : M A) w :
  snd (network_error_wrapped c w) = snd (c w).
Proof.
  unfold network_error_wrapped.
  destruct (c w) as [[a|[c0 m|msg|name]] w1]; reflexivity.
Qed.

(** A request sent is on the trace from then on. *)
Lemma bind_send_first {A} r (k : response -> M A) w :
  (forall resp, sends (fun _ => True) (k resp)) ->
  exists rest, trace (snd (bind (send r) k w)) = trace w ++ EvRequest r :: rest.
Proof.
  intros Hk. unfold bind, send.
  destruct (server (env w) (requests_made w)) as [msg|resp].
  - exists []. reflexivity.
  - destruct (Hk resp (set_requests_made (S (requests_made w))
                         (set_trace (trace w ++ [EvRequest r]) w)))
      as (l & E & _).
    exists l. rewrite E. cbn [trace set_requests_made set_trace].
    rewrite <- app_assoc. reflexivity.
Qed.

(** Once it has a token, [_request] sends its request with it. *)
Lemma request_first method endpoint params json w tok w1 :
  get_token false w = (Ok tok, w1) ->
  exists rest,
    trace (snd (_request method endpoint params json w)) =
    trace w1 ++ EvRequest (api_request method endpoint params json tok) :: rest.
Proof.
  intros Hget. unfold _request, _get_access_token.
  unfold bind at 1. rewrite Hget. rewrite snd_network_error_wrapped.
  apply bind_send_first. intros resp.
  assert (Htok : sends (fun _ : request => True) (get_token false)).
  { eapply sends_weaken; [|apply get_token_sends]. trivial. }
  unfold raise_for_status, response_json.
  repeat (first [exact Htok | sends_step]); apply sends_send; exact I.
Qed.

(** The first attempt of the retry policy is on the trace whatever
    follows. *)
Lemma retry_loop_first {A} max_retries backoff_factor retryable_errors
    (func : M A) n retry_count last w :
  sends (fun _ => True) func ->
  exists rest,
    trace (snd (retry_loop max_retries backoff_factor retryable_errors func
                  (S n) retry_count last w)) =
    trace (snd (func w)) ++ rest.
Proof.
  intros Hf. cbn [retry_loop].
  destruct (func w) as [[a|[c m|msg|name]] w1]; cbn [snd];
    try (exists []; symmetry; apply app_nil_r).
  destruct (retryable retryable_errors c && (retry_count <? max_retries)%Z);
    [|exists []; symmetry; apply app_nil_r].
  assert (Hs : sends (fun _ : request => True)
                 (back_off backoff_factor retry_count c;;
                  retry_loop max_retries backoff_factor retryable_errors func
                    n (retry_count + 1)%Z (Some (WeChatAPIError c m)))).
  { apply sends_bind; [apply back_off_sends|]. intros _.
    apply retry_loop_sends. exact Hf. }
  destruct (Hs w1) as (l & E & _). exists l. exact E.
Qed.

(** C8. A call of [add_draft] that gets a token posts the article it has
    built: the first request after the token goes to [/draft/add] with
    the token and the JSON body [{"articles": [article]}], where each of
    [author], [digest], [content_source_url] and [thumb_media_id] is
    present exactly when its value is a non-empty string, with that
    value, the two comment flags, the title and the content are present
    whatever the arguments, and there is no other field; and every
    request [add_draft] sends, retries included, is a credential exchange
    or a request to [/draft/add] with that body. *)
Theorem draft_article_optional_fields
    (title content author digest content_source_url thumb_media_id : string)
    (need_open_comment only_fans_can_comment : Z)
    (w w1 : world) (tok : jval) :
  get_token false w = (Ok tok, w1) ->
  let w' := snd (add_draft title content author digest content_source_url
                   thumb_media_id need_open_comment only_fans_can_comment w) in
  exists article rest,
    trace w' =
      trace w1 ++
      EvRequest (api_request POST "/draft/add" ∅
                   (Some (JObj (<["articles" := JList [JObj article]]> ∅))) tok)
      :: rest /\
    article !! "author" =
      (if PyStr.truthy author then Some (JStr author) else None) /\
    article !! "digest" =
      (if PyStr.truthy digest then Some (JStr digest) else None) /\
    article !! "content_source_url" =
      (if PyStr.truthy content_source_url
       then Some (JStr content_source_url) else None) /\
    article !! "thumb_media_id" =
      (if PyStr.truthy thumb_media_id then Some (JStr thumb_media_id) else None) /\
    article !! "need_open_comment" = Some (JInt need_open_comment) /\
    article !! "only_fans_can_comment" = Some (JInt only_fans_can_comment) /\
    article !! "title" = Some (JStr title) /\
    article !! "content" = Some (JStr content) /\
    (forall k, is_Some (article !! k) ->
       In k ["title"; "content"; "author"; "digest"; "content_source_url";
             "thumb_media_id"; "need_open_comment"; "only_fans_can_comment"]) /\
    only_sends
      (exchange_or "/draft/add"
         (Some (JObj (<["articles" := JList [JObj article]]> ∅))))
      w w'.
Proof.
  intros Hget w'.
  exists (draft_article title content author digest content_source_url
            thumb_media_id need_open_comment only_fans_can_comment).
  assert (Hbody : sends (fun _ : request => True)
            (add_draft_body title content author digest content_source_url
               thumb_media_id need_open_comment only_fans_can_comment)).
  { unfold add_draft_body. apply sends_bind; [|intros r; apply sends_ret].
    eapply sends_weaken; [|apply request_sends]. trivial. }
  destruct (retry_loop_first 3 1 default_retryable_errors _ 3 0%Z None w Hbody)
    as (rest2 & E2).
  destruct (request_first POST "/draft/add" ∅
              (Some (draft_payload title content author digest
                       content_source_url thumb_media_id need_open_comment
                       only_fans_can_comment)) w tok w1 Hget) as (rest1 & E1).
  exists (rest1 ++ rest2). split.
  { subst w'. unfold add_draft, retry_on_error.
    change (Z.to_nat (3 + 1)) with 4. rewrite E2.
    unfold add_draft_body at 1. unfold bind at 1.
    destruct (_request POST "/draft/add" ∅ _ w) as [[a|e] w2] eqn:Er;
      cbn [snd ret] in *; rewrite E1, <- app_assoc; reflexivity. }
  repeat (split; [|]); try apply add_draft_sends.
  9:{ intros k [v Hk].
      repeat match goal with
             | |- In k (?x :: _) =>
                 destruct (decide (k = x)) as [->|?];
                 [left; reflexivity | right]
             end.
      exfalso. revert Hk. unfold draft_article.
      destruct (PyStr.truthy author), (PyStr.truthy digest),
        (PyStr.truthy content_source_url), (PyStr.truthy thumb_media_id);
        rewrite ?lookup_insert_ne by congruence;
        rewrite lookup_empty; discriminate. }
  all: unfold draft_article;
    destruct (PyStr.truthy author), (PyStr.truthy digest),
      (PyStr.truthy content_source_url), (PyStr.truthy thumb_media_id);
    by simplify_map_eq.
Qed.

Lemma draft_article_optional_fields_witness :
  exists article rest,
    trace (snd (add_draft "Title" "<p>text</p>" "" "A digest" "" "" 0 1
                  (fresh_world filing_server))) =
      EvRequest (exchange_request (fresh_world filing_server))
      :: EvRequest (api_request POST "/draft/add" ∅
                      (Some (JObj (<["articles" := JList [JObj article]]> ∅)))
                      (JStr "T"))
      :: rest /\
    article !! "author" = None /\
    article !! "digest" = Some (JStr "A digest").
Proof.
  destruct (draft_article_optional_fields "Title" "<p>text</p>" "" "A digest"
              "" "" 0 1 (fresh_world filing_server)
              (snd (get_token false (fresh_world filing_server))) (JStr "T"))
    as (article & rest & Htrace & Hauthor & Hdigest & _).
  - vm_compute. reflexivity.
  - exists article, rest. split; [exact Htrace|]. split; assumption.
Defined.

Example add_draft_sample_run :
  fst (add_draft "Title" "<p>text</p>" "" "A digest" "" "" 0 1
         (fresh_world filing_server)) = Ok (JStr "M1").
Proof. vm_compute. reflexivity. Qed.

End DraftFacts.

(** ** Token manager *)

Module TokenFacts.
Import Json Api.

Lemma time_lt_false t z : time_lt t z = false <-> (inject_Z z <= t)%Q.
Proof.
  unfold time_lt. rewrite negb_false_iff. apply Qle_bool_iff.
Qed.

Lemma time_lt_true t z : time_lt t z = true <-> (t < inject_Z z)%Q.
Proof.
  unfold time_lt. rewrite negb_true_iff. split.
  - intros H. apply Qnot_le_lt. intros Hle.
    apply Qle_bool_iff in Hle. congruence.
  - intros H. destruct (Qle_bool (inject_Z z) t) eqn:E; [|reflexivity].
    apply Qle_bool_iff in E. exfalso. exact (Qlt_not_le _ _ H E).
Qed.

Lemma set_clock_reads_id w : set_clock_reads (clock_reads w) w = w.
Proof. destruct w; reflexivity. Qed.

(** A stale memory token: the memory check fails and only reads the clock. *)
Lemma memory_hit_stale w :
  memory_token_stale w ->
  exists n, clock_reads w <= n /\
            memory_hit false w = (Ok None, set_clock_reads n w).
Proof.
  unfold memory_token_stale, memory_hit, bind, get, ret, time_time.
  intros H. cbn beta iota.
  destruct (_access_token w) as [tok|].
  - destruct (jtruthy tok) eqn:Ht.
    + destruct H as [H|H]; [congruence|].
      exists (S (clock_reads w)). split; [lia|].
      cbn. replace (time_lt _ _) with false; [reflexivity|].
      symmetry. apply time_lt_false. apply (H (clock_reads w)). lia.
    + exists (clock_reads w). rewrite set_clock_reads_id. split; [lia | reflexivity].
  - exists (clock_reads w). rewrite set_clock_reads_id. split; [lia | reflexivity].
Qed.

(** A stale token file: the file check fails and only reads the clock. *)
Lemma file_hit_stale w n :
  file_token_stale w -> clock_reads w <= n ->
  exists n', n <= n' /\
             file_hit false (set_clock_reads n w) = (Ok None, set_clock_reads n' w).
Proof.
  unfold file_token_stale, file_hit, bind, get, ret, time_time, get_cached_token.
  intros H Hn. cbn beta iota.
  change (token_file (set_clock_reads n w)) with (token_file w).
  destruct (token_file w) as [d|].
  - destruct H as (z & Hz & H).
    destruct (jtruthy (JObj d) && eq_str (get_none d "appid") (appid (set_clock_reads n w))).
    + exists (S n). split; [lia|]. cbn. rewrite Hz.
      replace (time_lt _ _) with false; [reflexivity|].
      symmetry. apply time_lt_false. apply (H n). lia.
    + exists n. split; [lia | reflexivity].
  - exists n. split; [lia | reflexivity].
Qed.

(** One run of [_fetch_token]: one request, the credential exchange; a
    token comes back exactly when the server grants one, and it is then
    stored in memory and in the token file with its expiry. *)
Lemma fetch_token_run w :
  exists r w',
    _fetch_token w = (r, w') /\
    requests_made w' = S (requests_made w) /\
    trace w' = trace w ++ [EvRequest (exchange_request w)] /\
    env w' = env w /\
    match r with
    | Ok tok =>
        exists ttl,
          exchange_grants w tok ttl /\
          _access_token w' = Some tok /\
          _expires_at w' = (py_int (time_at w (clock_reads w)) + ttl - 300)%Z /\
          token_file w' =
            Some (token_data tok
                    (py_int (time_at w (S (clock_reads w))) + ttl - 300)
                    (config_appid w)) /\
          clock_reads w' = S (S (clock_reads w))
    | Raise _ => forall tok ttl, ~ exchange_grants w tok ttl
    end.
Proof.
  unfold _fetch_token, network_error_wrapped, bind, get, send, exchange_grants.
  cbn beta iota.
  fold (exchange_request w).
  destruct (server (env w) (requests_made w)) as [msg|[herr bd]] eqn:Hs.
  - do 2 eexists. split; [reflexivity|]. repeat split.
    intros tok ttl (resp & data & H & _). discriminate H.
  - unfold raise_for_status, response_json. cbn [http_error resp_body].
    destruct herr as [msg|].
    + do 2 eexists. split; [reflexivity|]. repeat split.
      intros tok ttl (resp & data & H & He & _).
      injection H as <-. discriminate He.
    + destruct bd as [msg|data].
      * do 2 eexists. split; [reflexivity|]. repeat split.
        intros tok ttl (resp & data & H & _ & Hb & _).
        injection H as <-. discriminate Hb.
      * cbn. destruct (data !! "access_token") as [tok|] eqn:Htok.
        -- cbn. destruct (as_number (get_default data "expires_in" (JInt 7200)))
             as [ttl|] eqn:Httl.
           ++ do 2 eexists. split; [reflexivity|]. repeat split.
              exists ttl. repeat split.
              eexists _, data. repeat split; eauto.
           ++ do 2 eexists. split; [reflexivity|]. repeat split.
              intros tok' ttl (resp & data' & H & _ & Hb & _ & Hn).
              injection H as <-. injection Hb as <-. congruence.
        -- do 2 eexists. split; [reflexivity|]. repeat split.
           intros tok' ttl (resp & data' & H & _ & Hb & Ht & _).
           injection H as <-. injection Hb as <-. congruence.
Qed.

(** C4. When the token in memory and the token in the file are absent or
    expired, [get_token()] sends exactly one request, the credential
    exchange, and what it returns is what the server granted in answer to
    it: a token is returned exactly when that answer carries one. *)
Theorem get_token_stale_refetches (w : world) :
  memory_token_stale w -> file_token_stale w ->
  exists r w',
    get_token false w = (r, w') /\
    requests_made w' = S (requests_made w) /\
    trace w' = trace w ++ [EvRequest (exchange_request w)] /\
    (forall tok, r = Ok tok <-> exists ttl, exchange_grants w tok ttl).
Proof.
  intros Hm Hf.
  destruct (memory_hit_stale w Hm) as (n & Hn & Hmem).
  destruct (file_hit_stale w n Hf Hn) as (n' & Hn' & Hfile).
  destruct (fetch_token_run (set_clock_reads n' w)) as (r & w' & Hrun & Hreq & Htr & _ & Hr).
  exists r, w'. unfold get_token, bind. rewrite Hmem, Hfile, Hrun.
  split; [reflexivity|]. split; [exact Hreq|]. split; [exact Htr|].
  intros tok. split.
  - intros ->. destruct Hr as (ttl & Hg & _). exists ttl. exact Hg.
  - intros (ttl & Hg). destruct r as [tok'|e].
    + destruct Hr as (ttl' & Hg' & _).
      destruct Hg as (resp & data & H1 & _ & H2 & H3 & _).
      destruct Hg' as (resp' & data' & H1' & _ & H2' & H3' & _).
      change (server (env (set_clock_reads n' w)) (requests_made (set_clock_reads n' w)))
        with (server (env w) (requests_made w)) in H1'.
      congruence.
    + exfalso. exact (Hr tok ttl Hg).
Qed.

Lemma get_token_stale_refetches_witness :
  exists r w',
    get_token false expired_world = (r, w') /\
    requests_made w' = 1 /\
    r = Ok (JStr "NEW").
Proof.
  destruct (get_token_stale_refetches expired_world) as (r & w' & Hrun & Hreq & _ & Hr).
  - right. intros k _. unfold time_at. cbn. rewrite <- Zle_Qle. lia.
  - exists 900%Z. split; [reflexivity|].
    intros k _. unfold time_at. cbn. rewrite <- Zle_Qle. lia.
  - exists r, w'. split; [exact Hrun|]. split; [exact Hreq|].
    apply Hr. exists 7200%Z. do 2 eexists. repeat split; reflexivity.
Defined.

Lemma div_le_quot a b : (0 < b -> a / b <= a ÷ b)%Z.
Proof. intros Hb. Z.to_euclidean_division_equations. nia. Qed.

(** [int(t)] is more than [t - 1]. *)
Lemma lt_py_int_succ q : (q < inject_Z (py_int q + 1))%Q.
Proof.
  eapply Qlt_le_trans; [apply Qlt_floor|].
  rewrite <- Zle_Qle. unfold py_int, Qfloor. destruct q as [a b]; simpl.
  pose proof (div_le_quot a (Zpos b) ltac:(lia)). lia.
Qed.

Lemma memory_hit_cases force w :
  (exists n, clock_reads w <= n /\
             memory_hit force w = (Ok None, set_clock_reads n w)) \/
  (exists tok, _access_token w = Some tok /\
               (time_at w (clock_reads w) < inject_Z (_expires_at w))%Q /\
               memory_hit force w =
               (Ok (Some tok), set_clock_reads (S (clock_reads w)) w)).
Proof.
  unfold memory_hit, bind, get, ret, time_time. cbn beta iota.
  destruct force.
  { left. exists (clock_reads w). rewrite set_clock_reads_id. split; [lia | reflexivity]. }
  destruct (_access_token w) as [tok|] eqn:Htok.
  - destruct (jtruthy tok).
    + cbn. destruct (time_lt _ _) eqn:Hlt.
      * right. exists tok. apply time_lt_true in Hlt. auto.
      * left. exists (S (clock_reads w)). split; [lia | reflexivity].
    + left. exists (clock_reads w). rewrite set_clock_reads_id. split; [lia | reflexivity].
  - left. exists (clock_reads w). rewrite set_clock_reads_id. split; [lia | reflexivity].
Qed.

Lemma file_hit_cases force w n :
  clock_reads w <= n ->
  (exists n', n <= n' /\
     file_hit force (set_clock_reads n w) = (Ok None, set_clock_reads n' w)) \/
  (exists e w2, file_hit force (set_clock_reads n w) = (Raise e, w2)) \/
  (exists tok z,
     (time_at w n < inject_Z z)%Q /\
     file_hit force (set_clock_reads n w) =
     (Ok (Some tok),
      set_expires_at z (set_access_token (Some tok) (set_clock_reads (S n) w)))).
Proof.
  intros Hn.
  unfold file_hit, bind, get, ret, raise, time_time, get_cached_token.
  destruct force.
  { left. exists n. split; [lia | reflexivity]. }
  cbn beta iota.
  change (token_file (set_clock_reads n w)) with (token_file w).
  destruct (token_file w) as [d|]; [|left; exists n; split; [lia | reflexivity]].
  destruct (jtruthy (JObj d) && eq_str (get_none d "appid") (appid (set_clock_reads n w)));
    [|left; exists n; split; [lia | reflexivity]].
  cbn.
  destruct (as_number (get_default d "expires_at" (JInt 0))) as [z|];
    [|right; left; eauto].
  destruct (time_lt _ z) eqn:Hlt;
    [|left; exists (S n); split; [lia | reflexivity]].
  destruct (d !! "access_token") as [tok|]; [|right; left; eauto].
  cbn. destruct (d !! "expires_at"); [|right; left; eauto].
  right; right. exists tok, z. apply time_lt_true in Hlt. split; [exact Hlt | reflexivity].
Qed.

Lemma py_int_le q : (0 <= q)%Q -> (inject_Z (py_int q) <= q)%Q.
Proof.
  intros H. eapply Qle_trans; [|apply Qfloor_le].
  rewrite <- Zle_Qle. unfold py_int, Qfloor. destruct q as [a b].
  unfold Qle in H. simpl in *. rewrite Z.quot_div_nonneg by lia. lia.
Qed.

(** C7, amended. A token [get_token] returns is the one held in memory.
    Either no request was sent: it came from memory or from the token file,
    and the last reading of the clock is before its [expires_at].  Or one
    exchange was made: [expires_at] is the truncated reading of the clock
    plus the lifetime the server reported minus 300, in memory and (at the
    next reading) in the token file; the token is returned without an
    expiry check, and it is unexpired at the fetch exactly when that
    lifetime exceeds 300. *)
Theorem get_token_expiry_margin (force_refresh : bool) (w w' : world) (tok : jval) :
  get_token force_refresh w = (Ok tok, w') ->
  _access_token w' = Some tok /\
  ((requests_made w' = requests_made w /\
    exists k, clock_reads w <= k /\ clock_reads w' = S k /\
              (time_at w k < inject_Z (_expires_at w'))%Q)
   \/
   (requests_made w' = S (requests_made w) /\
    exists ttl k,
      clock_reads w <= k /\ clock_reads w' = S (S k) /\
      exchange_grants w tok ttl /\
      _expires_at w' = (py_int (time_at w k) + ttl - 300)%Z /\
      token_file w' =
        Some (token_data tok (py_int (time_at w (S k)) + ttl - 300)
                (config_appid w)) /\
      ((300 < ttl)%Z -> (time_at w k < inject_Z (_expires_at w'))%Q) /\
      ((ttl <= 300)%Z -> (0 <= time_at w k)%Q ->
       (inject_Z (_expires_at w') <= time_at w k)%Q))).
Proof.
  unfold get_token, bind.
  destruct (memory_hit_cases force_refresh w)
    as [(n & Hn & Hmem)|(tok0 & Htok0 & Hlt & Hmem)]; rewrite Hmem.
  2:{ intros [= <- <-]. split; [exact Htok0|]. left. split; [reflexivity|].
      exists (clock_reads w). split; [lia|]. split; [reflexivity | exact Hlt]. }
  destruct (file_hit_cases force_refresh w n Hn)
    as [(n' & Hn' & Hfile)|[(e & w2 & Hfile)|(tok0 & z & Hlt & Hfile)]];
    rewrite Hfile.
  - destruct (fetch_token_run (set_clock_reads n' w))
      as (r & w1 & Hrun & Hreq & _ & _ & Hr).
    rewrite Hrun. intros [= -> ->].
    destruct Hr as (ttl & Hg & Ht & He & Hfl & Hc).
    split; [exact Ht|]. right. split; [exact Hreq|].
    exists ttl, n'. split; [lia|]. split; [exact Hc|]. split; [exact Hg|].
    split; [exact He|]. split; [exact Hfl|].
    change (time_at (set_clock_reads n' w) (clock_reads (set_clock_reads n' w)))
      with (time_at w n') in He.
    rewrite He. split.
    + intros Httl. eapply Qlt_le_trans; [apply lt_py_int_succ|].
      rewrite <- Zle_Qle. lia.
    + intros Httl Hpos. eapply Qle_trans; [|apply py_int_le; exact Hpos].
      rewrite <- Zle_Qle. lia.
  - discriminate.
  - intros [= <- <-]. split; [reflexivity|]. left. split; [reflexivity|].
    exists n. split; [lia|]. split; [reflexivity | exact Hlt].
Qed.

Lemma get_token_expiry_margin_witness :
  _access_token (snd (get_token false (fresh_world rejecting_server)))
  = Some (JStr "T").
Proof.
  apply (get_token_expiry_margin false (fresh_world rejecting_server)).
  vm_compute. reflexivity.
Defined.

(** C7 as worded fails: a server that reports a lifetime of 100 seconds at
    time 1000 gets its token stored with [expires_at = 800] and returned. *)
Lemma short_lived_token_returned_expired :
  ~ returned_token_unexpired false (fresh_world short_lived_server).
Proof.
  intros H.
  destruct (get_token false (fresh_world short_lived_server)) as [r w'] eqn:E.
  specialize (H (JStr "T") w').
  vm_compute in E. injection E as <- <-.
  destruct (H eq_refl) as (k & [_ Hk] & Hlt).
  cbn in Hk. unfold time_at, Qlt in Hlt. cbn in Hlt. lia.
Qed.

End TokenFacts.

(** ** Retry policy and the authentication retry of [_request] *)

Module RetryFacts.
Import Json Api TokenFacts.

Lemma back_off_waited backoff_factor k errcode w :
  back_off backoff_factor k errcode w =
  (Ok tt, waited (backoff_factor * inject_Z (2 ^ k)
                  + jitter (env w) (jitter_reads w))%Q errcode w).
Proof.
  unfold back_off, waited, bind, random_uniform, time_sleep, log, modify, ret.
  cbn beta iota.
  destruct (eq_int errcode 40001); reflexivity.
Qed.

(** The wait of the back-off: with jitters between 0 and a half, as
    [random.uniform(0, 0.5)] draws them, it lies between
    [backoff_factor * 2^k] and half a second more. *)
Lemma back_off_wait backoff_factor k errcode w :
  (0 <= jitter (env w) (jitter_reads w) <= 1 # 2)%Q ->
  exists seconds,
    sleeps (added_events w (snd (back_off backoff_factor k errcode w))) = [seconds] /\
    (backoff_factor * inject_Z (2 ^ k) <= seconds
     <= backoff_factor * inject_Z (2 ^ k) + (1 # 2))%Q.
Proof.
  intros [Hlo Hhi]. rewrite back_off_waited.
  exists (backoff_factor * inject_Z (2 ^ k) + jitter (env w) (jitter_reads w))%Q.
  split.
  - unfold waited, added_events. cbn [snd].
    destruct (eq_int errcode 40001); cbn [trace set_trace set_jitter_reads
      clear_cache bind log modify set_access_token set_expires_at clear_token
      set_token_file snd fst];
      rewrite <- ?app_assoc, drop_app_length; reflexivity.
  - split; lra.
Qed.

Section Policy.
Context {A : Type}.
Variable max_retries : Z.
Variable backoff_factor : Q.
Variable retryable_errors : list Z.
Variable func : M A.

Lemma retry_loop_run k w errs w1 :
  failing_attempts func backoff_factor k w errs w1 ->
  forall n last r w2,
    (0 <= k)%Z ->
    List.Forall (fun e => retryable retryable_errors (fst e) = true) errs ->
    (k + Z.of_nat (List.length errs) <= max_retries)%Z ->
    n = Z.to_nat (max_retries + 1 - k) ->
    func w1 = (r, w2) ->
    (match r with
     | Raise (WeChatAPIError errcode _) =>
         retryable retryable_errors errcode = false \/
         (k + Z.of_nat (List.length errs) = max_retries)%Z
     | _ => True
     end) ->
    retry_loop max_retries backoff_factor retryable_errors func n k last w
    = (r, w2).
Proof.
  induction 1 as [k w|k w errcode errmsg w1 errs w' Hf _ IH];
    intros n last r w2 Hk Hall Hle Hn Hr Hfin.
  - cbn [List.length] in *.
    destruct n as [|n]; [lia|]. cbn [retry_loop]. rewrite Hr.
    destruct r as [a|[c m|msg|name]]; try reflexivity.
    destruct Hfin as [Hno|Hmax].
    + rewrite Hno. reflexivity.
    + replace (k <? max_retries)%Z with false by (symmetry; apply Z.ltb_ge; lia).
      rewrite andb_false_r. reflexivity.
  - apply List.Forall_cons_iff in Hall as [Hc Hall']. cbn [fst] in Hc.
    cbn [List.length] in *.
    destruct n as [|n]; [lia|]. cbn [retry_loop]. rewrite Hf, Hc.
    replace (k <? max_retries)%Z with true by (symmetry; apply Z.ltb_lt; lia).
    cbn [andb]. unfold bind at 1. rewrite back_off_waited.
    apply IH; try assumption; try lia.
    destruct r as [a|[c m|msg|name]]; try exact I.
    destruct Hfin as [Hno|Hmax]; [left; exact Hno | right; lia].
Qed.
End Policy.

(** C5. The retry policy around [func]: when [func] fails with whitelisted
    API errors [errs], no more of them than [max_retries], the policy waits
    [backoff_factor * 2^k + jitter] after the failure of attempt [k] and
    runs [func] again; the first result, the first exception that is not an
    API error, the first API error outside the whitelist, or the API error
    of the attempt after [max_retries] retries ends it, unchanged and
    without a further wait. *)
Theorem retry_policy {A : Type} (max_retries : Z) (backoff_factor : Q)
    (retryable_errors : list Z) (func : M A)
    (w w1 w2 : world) (errs : list (jval * jval)) (r : result A) :
  failing_attempts func backoff_factor 0 w errs w1 ->
  List.Forall (fun e => retryable retryable_errors (fst e) = true) errs ->
  (Z.of_nat (List.length errs) <= max_retries)%Z ->
  func w1 = (r, w2) ->
  final_outcome retryable_errors max_retries (List.length errs) r ->
  retry_on_error max_retries backoff_factor retryable_errors func w = (r, w2).
Proof.
  intros Hfa Hall Hle Hr Hfin. unfold retry_on_error.
  eapply retry_loop_run; eauto; lia.
Qed.

(** Every run of the policy is of that shape. *)
Lemma retry_loop_shape {A : Type} (max_retries : Z) (backoff_factor : Q)
    (retryable_errors : list Z) (func : M A) :
  forall n k w,
    (0 <= k <= max_retries)%Z -> n = Z.to_nat (max_retries + 1 - k) ->
    exists errs w1 r w2,
      failing_attempts func backoff_factor k w errs w1 /\
      List.Forall (fun e => retryable retryable_errors (fst e) = true) errs /\
      (k + Z.of_nat (List.length errs) <= max_retries)%Z /\
      func w1 = (r, w2) /\
      match r with
      | Raise (WeChatAPIError errcode _) =>
          retryable retryable_errors errcode = false \/
          (k + Z.of_nat (List.length errs) = max_retries)%Z
      | _ => True
      end.
Proof.
  induction n as [|n IH]; intros k w Hk Hn; [lia|].
  destruct (func w) as [r w0] eqn:Hf.
  assert (Hstop : forall (P : Prop),
             match r with
             | Raise (WeChatAPIError errcode _) =>
                 retryable retryable_errors errcode = false \/
                 (k + Z.of_nat 0 = max_retries)%Z
             | _ => True
             end ->
             exists errs w1 r' w2,
               failing_attempts func backoff_factor k w errs w1 /\
               List.Forall (fun e => retryable retryable_errors (fst e) = true) errs /\
               (k + Z.of_nat (List.length errs) <= max_retries)%Z /\
               func w1 = (r', w2) /\
               match r' with
               | Raise (WeChatAPIError errcode _) =>
                   retryable retryable_errors errcode = false \/
                   (k + Z.of_nat (List.length errs) = max_retries)%Z
               | _ => True
               end).
  { intros _ H. exists [], w, r, w0. split; [constructor|].
    split; [constructor|]. cbn [List.length]. split; [lia|]. split; [exact Hf | exact H]. }
  destruct r as [a|[c m|msg|name]]; try (apply (Hstop True); exact I).
  destruct (retryable retryable_errors c) eqn:Hc; [|apply (Hstop True); left; reflexivity].
  destruct (Z.eq_dec k max_retries) as [->|Hne]; [apply (Hstop True); right; lia|].
  destruct (IH (k + 1)%Z
              (waited (backoff_factor * inject_Z (2 ^ k)
                       + jitter (env w0) (jitter_reads w0))%Q c w0))
    as (errs & w1 & r' & w2 & Hfa & Hall & Hle & Hr & Hfin); [lia | lia |].
  exists ((c, m) :: errs), w1, r', w2.
  split; [econstructor; eassumption|].
  split; [constructor; [exact Hc | exact Hall]|].
  cbn [List.length]. split; [lia|]. split; [exact Hr|].
  destruct r' as [a|[c' m'|msg|name]]; try exact I.
  destruct Hfin as [Hno|Hmax]; [left; exact Hno | right; lia].
Qed.

Lemma eq_int_40001_nonzero v : eq_int v 40001 = true -> eq_int v 0 = false.
Proof.
  unfold eq_int. destruct (as_number v) as [z|]; [|discriminate].
  intros H. apply Z.eqb_eq in H. subst z. reflexivity.
Qed.

(** After [clear_cache] nothing is cached: [get_token] is the exchange. *)
Lemma get_token_after_clear w :
  get_token false (snd (clear_cache w)) = _fetch_token (snd (clear_cache w)).
Proof. reflexivity. Qed.

Lemma added_events_app w w' l :
  trace w' = trace w ++ l -> added_events w w' = l.
Proof.
  unfold added_events. intros ->. apply drop_app_length.
Qed.

(** C2, amended. One call of [_request] whose first answer carries the
    code 40001 clears the token cache once and makes one credential
    exchange; when the exchange grants a token the same request is sent
    once more with it, and the call returns the second answer if its code
    is 0 and raises its code otherwise; when the exchange grants none the
    call raises without sending again.  [_request] does this by itself,
    whatever retry policy is around it. *)
Theorem request_auth_failure_one_retry
    (method : http_method) (endpoint : string) (params : gmap string jval)
    (json : option jval) (w w1 : world) (tok1 : jval)
    (resp1 : response) (data1 : gmap string jval) :
  get_token false w = (Ok tok1, w1) ->
  server (env w1) (requests_made w1) = Response resp1 ->
  http_error resp1 = None ->
  resp_body resp1 = Json data1 ->
  eq_int (get_default data1 "errcode" (JInt 0)) 40001 = true ->
  let w2 := set_requests_made (S (requests_made w1)) w1 in
  exists r w',
    _request method endpoint params json w = (r, w') /\
    clears (added_events w1 w') = 1 /\
    (forall tok2 ttl,
       exchange_grants w2 tok2 ttl ->
       added_events w1 w' =
         [EvRequest (api_request method endpoint params json tok1);
          EvClearCache;
          EvRequest (exchange_request w1);
          EvRequest (api_request method endpoint params json tok2)] /\
       forall resp2 data2,
         server (env w1) (S (S (requests_made w1))) = Response resp2 ->
         http_error resp2 = None ->
         resp_body resp2 = Json data2 ->
         r = if eq_int (get_default data2 "errcode" (JInt 0)) 0
             then Ok data2
             else Raise (WeChatAPIError
                           (get_default data2 "errcode" (JInt 0))
                           (get_default data2 "errmsg" (JStr "Unknown error")))) /\
    ((forall tok2 ttl, ~ exchange_grants w2 tok2 ttl) ->
     added_events w1 w' =
       [EvRequest (api_request method endpoint params json tok1);
        EvClearCache;
        EvRequest (exchange_request w1)] /\
     exists e, r = Raise e).
Proof.
  intros Htok Hs1 Herr1 Hbody1 Hcode w2.
  unfold _request, _get_access_token, bind at 1. rewrite Htok.
  fold (api_request method endpoint params json tok1).
  unfold network_error_wrapped, bind at 1, send at 1. rewrite Hs1.
  unfold bind at 1, raise_for_status. rewrite Herr1.
  unfold ret at 1, bind at 1, response_json at 1. rewrite Hbody1.
  unfold ret at 1. rewrite (eq_int_40001_nonzero _ Hcode), Hcode.
  cbn [negb].
  unfold bind at 1, bind at 1.
  set (wa := set_requests_made (S (requests_made w1))
               (set_trace (trace w1 ++
                  [EvRequest (api_request method endpoint params json tok1)]) w1)).
  change (clear_cache wa) with (Ok tt, snd (clear_cache wa)).
  cbv iota. unfold bind at 1.
  rewrite get_token_after_clear.
  destruct (fetch_token_run (snd (clear_cache wa)))
    as (rf & wf & Hrun & Hreq & Htr & Henv & Hr).
  rewrite Hrun.
  change (trace (snd (clear_cache wa)))
    with ((trace w1 ++ [EvRequest (api_request method endpoint params json tok1)])
          ++ [EvClearCache]) in Htr.
  change (exchange_request (snd (clear_cache wa))) with (exchange_request w1) in Htr.
  change (requests_made (snd (clear_cache wa))) with (S (requests_made w1)) in Hreq.
  change (env (snd (clear_cache wa))) with (env w1) in Henv.
  destruct rf as [tok2|e].
  - destruct Hr as (ttl & Hg & _).
    change (exchange_grants w2 tok2 ttl) in Hg.
    unfold bind at 1, send at 1. rewrite Henv, Hreq.
    rewrite insert_insert_eq.
    fold (api_request method endpoint params json tok2).
    set (wb := set_requests_made (S (S (S (requests_made w1))))
                 (set_trace (trace wf ++
                    [EvRequest (api_request method endpoint params json tok2)]) wf)).
    assert (Hadd : added_events w1 wb =
              [EvRequest (api_request method endpoint params json tok1);
               EvClearCache; EvRequest (exchange_request w1);
               EvRequest (api_request method endpoint params json tok2)]).
    { apply added_events_app. unfold wb. cbn [trace set_requests_made set_trace].
      rewrite Htr. rewrite <- !app_assoc. reflexivity. }
    assert (Hsame : forall tok2' ttl', exchange_grants w2 tok2' ttl' -> tok2' = tok2).
    { intros tok2' ttl' (resp & data & H1 & _ & H2 & H3 & _).
      destruct Hg as (resp' & data' & H1' & _ & H2' & H3' & _). congruence. }
    destruct (server (env w1) (S (S (requests_made w1)))) as [msg|resp2] eqn:Hs2.
    + eexists _, wb. split; [reflexivity|].
      split; [rewrite Hadd; reflexivity|]. split.
      * intros tok2' ttl' Hg'. rewrite (Hsame _ _ Hg'). split; [exact Hadd|].
        intros resp2 data2 H. discriminate H.
      * intros Hno. exfalso. exact (Hno _ _ Hg).
    + unfold bind at 1, response_json at 1.
      destruct (resp_body resp2) as [msg|data2] eqn:Hb2.
      * eexists _, wb. split; [reflexivity|].
        split; [rewrite Hadd; reflexivity|]. split.
        -- intros tok2' ttl' Hg'. rewrite (Hsame _ _ Hg'). split; [exact Hadd|].
           intros resp2' data2' [= <-] _ H. congruence.
        -- intros Hno. exfalso. exact (Hno _ _ Hg).
      * unfold ret, raise. cbv iota beta.
        destruct (eq_int (get_default data2 "errcode" (JInt 0)) 0) eqn:Hc2;
          cbn [negb]; cbv iota; eexists _, wb; (split; [reflexivity|]);
          (split; [rewrite Hadd; reflexivity|]); split.
        -- intros tok2' ttl' Hg'. rewrite (Hsame _ _ Hg'). split; [exact Hadd|].
           intros resp2' data2' [= <-] _ H.
           assert (data2' = data2) as -> by congruence. rewrite Hc2. reflexivity.
        -- intros Hno. exfalso. exact (Hno _ _ Hg).
        -- intros tok2' ttl' Hg'. rewrite (Hsame _ _ Hg'). split; [exact Hadd|].
           intros resp2' data2' [= <-] _ H.
           assert (data2' = data2) as -> by congruence. rewrite Hc2. reflexivity.
        -- intros Hno. exfalso. exact (Hno _ _ Hg).
  - assert (Hadd : added_events w1 wf =
              [EvRequest (api_request method endpoint params json tok1);
               EvClearCache; EvRequest (exchange_request w1)]).
    { apply added_events_app. rewrite Htr. rewrite <- !app_assoc. reflexivity. }
    destruct e as [c m|msg|name]; eexists _, wf; (split; [reflexivity|]);
      (split; [rewrite Hadd; reflexivity|]); split;
      try (intros tok2' ttl' Hg'; exfalso; exact (Hr _ _ Hg'));
      intros _; (split; [exact Hadd | eexists; reflexivity]).
Qed.

Lemma request_auth_failure_one_retry_witness :
  exists r w',
    get_draft "m" (fresh_world rejecting_server) = (r, w') /\
    clears (added_events (snd (get_token false (fresh_world rejecting_server))) w') = 1.
Proof.
  destruct (request_auth_failure_one_retry POST "/draft/get"
              (<["media_id" := JStr "m"]> ∅) None
              (fresh_world rejecting_server)
              (snd (get_token false (fresh_world rejecting_server)))
              (JStr "T")
              {| http_error := None;
                 resp_body := Json (<["errmsg" := JStr "invalid credential"]>
                                      (<["errcode" := JInt 40001]> ∅)) |}
              (<["errmsg" := JStr "invalid credential"]>
                 (<["errcode" := JInt 40001]> ∅)))
    as (r & w' & Hrun & Hclears & _);
    [vm_compute; reflexivity | reflexivity | reflexivity | reflexivity
    | reflexivity |].
  exists r, w'. split; [exact Hrun | exact Hclears].
Defined.

(** C2 as worded fails for draft creation: against a server that keeps
    answering 40001, [add_draft] sends the draft eight times and clears the
    token cache seven times before it raises. *)
Lemma add_draft_auth_failure_retried_more_than_once :
  ~ auth_failure_retried_once
      (add_draft "title" "content" "" "" "" "" 0 0)
      (fresh_world rejecting_server).
Proof.
  unfold auth_failure_retried_once. intros [H _].
  vm_compute in H. discriminate H.
Qed.

Example add_draft_rejected_counts :
  let w' := snd (add_draft "title" "content" "" "" "" "" 0 0
                   (fresh_world rejecting_server)) in
  clears (trace w') = 7 /\ List.length (api_requests (trace w')) = 8.
Proof. vm_compute. split; reflexivity. Qed.

Example upload_image_rejected_counts :
  let w' := snd (upload_image "a.png" (fresh_world rejecting_server)) in
  clears (trace w') = 3 /\ List.length (api_requests (trace w')) = 4.
Proof. vm_compute. split; reflexivity. Qed.

Lemma retry_policy_witness :
  exists w', upload_image "a.png" (fresh_world busy_server)
             = (Ok (JStr "http://mmbiz.qpic.cn/x"), w').
Proof.
  pose (func := upload_image_body "a.png").
  pose (wA := snd (func (fresh_world busy_server))).
  pose (wB := waited (1 * inject_Z (2 ^ 0) + jitter (env wA) (jitter_reads wA))%Q
                (JInt 45009) wA).
  pose (wC := snd (func wB)).
  pose (wD := waited (1 * inject_Z (2 ^ (0 + 1)) + jitter (env wC) (jitter_reads wC))%Q
                (JInt 45009) wC).
  exists (snd (func wD)).
  apply (retry_policy 3 1 default_retryable_errors func
           (fresh_world busy_server) wD (snd (func wD))
           [(JInt 45009, JStr "busy"); (JInt 45009, JStr "busy")]).
  - apply (fa_retry func 1 0%Z (fresh_world busy_server) (JInt 45009) (JStr "busy") wA);
      [vm_compute; reflexivity|].
    apply (fa_retry func 1 (0 + 1)%Z wB (JInt 45009) (JStr "busy") wC);
      [vm_compute; reflexivity|].
    apply fa_done.
  - repeat constructor.
  - cbn. lia.
  - vm_compute. reflexivity.
  - exact I.
Defined.

End RetryFacts.

(** ** Attribute scrub *)

Module CleanFacts.
Import Dom Clean.








Example sample_code_tag_cleaned :
  clean_soup [sample_code_tag] =
  [NTag "code" (<["class" := AList ["foo"]]> ∅) [NText "print"]].
Proof. vm_compute. reflexivity. Qed.

End CleanFacts.

(** ** Image processing *)

Module UploaderFacts.
Import Dom Uploader.

Section Facts.
Context {W : Type} `{Outside W}.
Variable base_path : option string.
Variable remove_failed : bool.

Lemma in_order_app f l1 l2 (r : @run W) :
  in_order f (l1 ++ l2) r =
  let '(a, r1) := in_order f l1 r in
  let '(b, r2) := in_order f l2 r1 in
  (a ++ b, r2).
Proof.
  revert r; induction l1 as [|n l1 IH]; intros r.
  - cbn. destruct (in_order f l2 r). reflexivity.
  - cbn [app in_order]. destruct (f n r) as [n' r1]. rewrite IH.
    destruct (in_order f l1 r1) as [a r2].
    destruct (in_order f l2 r2) as [b r3].
    rewrite app_assoc. reflexivity.
Qed.

(** The loop never looks at the two lists: it runs the same whatever
    they hold, and appends the same to them. *)
Lemma process_img_frame attrs pr (w : W) :
  exists o pr' w' ds df,
    forall s0 f0,
      process_img base_path remove_failed attrs (mk_run pr w s0 f0) =
      (o, mk_run pr' w' (s0 ++ ds) (f0 ++ df)).
Proof.
  unfold process_img. cbn [proc outside success_list fail_list].
  destruct (negb (PyStr.truthy (get_src attrs))).
  { exists (Some attrs), pr, w, [], []. intros. rewrite !app_nil_r. reflexivity. }
  destruct (on_wechat_host (get_src attrs)).
  { exists (Some attrs), pr, w, [], []. intros. rewrite !app_nil_r. reflexivity. }
  destruct (try_image (get_src attrs) base_path pr w) as [[[| u |] pr'] w'].
  - exists (if remove_failed then None else Some attrs), pr', w', [], [get_src attrs].
    intros. rewrite app_nil_r. reflexivity.
  - eexists _, pr', w', [get_src attrs], []. intros. rewrite app_nil_r. reflexivity.
  - exists (if remove_failed then None else Some attrs), pr', w', [], [get_src attrs].
    intros. rewrite app_nil_r. reflexivity.
Qed.

Lemma in_order_frame f l :
  List.Forall (fun n => forall pr (w : W),
                 exists h pr' w' ds df,
                   forall s0 f0,
                     f n (mk_run pr w s0 f0) = (h, mk_run pr' w' (s0 ++ ds) (f0 ++ df))) l ->
  forall pr w,
  exists h pr' w' ds df,
    forall s0 f0,
      in_order f l (mk_run pr w s0 f0) = (h, mk_run pr' w' (s0 ++ ds) (f0 ++ df)).
Proof.
  induction 1 as [|n l Hn _ IH]; intros pr w.
  - exists [], pr, w, [], []. intros. rewrite !app_nil_r. reflexivity.
  - destruct (Hn pr w) as (h1 & pr1 & w1 & ds1 & df1 & E1).
    destruct (IH pr1 w1) as (h2 & pr2 & w2 & ds2 & df2 & E2).
    exists (h1 ++ h2), pr2, w2, (ds1 ++ ds2), (df1 ++ df2).
    intros s0 f0. cbn [in_order]. rewrite E1, E2, !app_assoc. reflexivity.
Qed.

Lemma process_node_frame n : forall pr (w : W),
  exists h pr' w' ds df,
    forall s0 f0,
      process_node base_path remove_failed n (mk_run pr w s0 f0) =
      (h, mk_run pr' w' (s0 ++ ds) (f0 ++ df)).
Proof.
  induction n as [s|s|name attrs children IH] using node_induction; intros pr w.
  - exists [NText s], pr, w, [], []. intros. rewrite !app_nil_r. reflexivity.
  - exists [NMisc s], pr, w, [], []. intros. rewrite !app_nil_r. reflexivity.
  - cbn [process_node]. destruct (String.eqb name "img").
    + destruct (process_img_frame attrs pr w) as (o & pr1 & w1 & ds1 & df1 & E1).
      destruct o as [attrs'|].
      * destruct (in_order_frame _ _ IH pr1 w1) as (h2 & pr2 & w2 & ds2 & df2 & E2).
        exists [NTag name attrs' h2], pr2, w2, (ds1 ++ ds2), (df1 ++ df2).
        intros s0 f0. rewrite E1, E2, !app_assoc. reflexivity.
      * exists [], pr1, w1, ds1, df1. intros s0 f0. rewrite E1. reflexivity.
    + destruct (in_order_frame _ _ IH pr w) as (h2 & pr2 & w2 & ds2 & df2 & E2).
      exists [NTag name attrs h2], pr2, w2, ds2, df2.
      intros s0 f0. rewrite E2. reflexivity.
Qed.

Lemma process_soup_frame l : forall pr (w : W),
  exists h pr' w' ds df,
    forall s0 f0,
      process_soup base_path remove_failed l (mk_run pr w s0 f0) =
      (h, mk_run pr' w' (s0 ++ ds) (f0 ++ df)).
Proof.
  apply in_order_frame, List.Forall_forall. intros n _. apply process_node_frame.
Qed.

(** Processing a soup with something at a place [c]: what lies before
    the place is processed first, then what is at the place, then what
    lies after; only the state handed on matters to what comes after. *)
Lemma process_plug c :
  outside_img c ->
  forall pr (w : W),
  exists pr1 w1 ds1 df1,
    (forall s0 f0,
       run_before base_path remove_failed c (mk_run pr w s0 f0) =
       mk_run pr1 w1 (s0 ++ ds1) (f0 ++ df1)) /\
    forall pr2 w2,
    exists c' pr3 w3 ds3 df3,
      ancestors c' = ancestors c /\
      forall x hx dsx dfx,
        (forall s0 f0,
           process_soup base_path remove_failed x (mk_run pr1 w1 s0 f0) =
           (hx, mk_run pr2 w2 (s0 ++ dsx) (f0 ++ dfx))) ->
        forall s0 f0,
          process_soup base_path remove_failed (plug c x) (mk_run pr w s0 f0) =
          (plug c' hx,
           mk_run pr3 w3 (s0 ++ ds1 ++ dsx ++ ds3) (f0 ++ df1 ++ dfx ++ df3)).
Proof.
  induction c as [before after|before name attrs inner IH after];
    intros Hout pr w.
  - destruct (process_soup_frame before pr w) as (hb & pr1 & w1 & ds1 & df1 & Eb).
    exists pr1, w1, ds1, df1. split.
    { intros s0 f0. cbn [run_before]. rewrite Eb. reflexivity. }
    intros pr2 w2.
    destruct (process_soup_frame after pr2 w2) as (ha & pr3 & w3 & ds3 & df3 & Ea).
    exists (Hole hb ha), pr3, w3, ds3, df3. split; [reflexivity|].
    intros x hx dsx dfx Ex s0 f0. cbn [plug].
    unfold process_soup in *.
    rewrite in_order_app, Eb. cbv iota beta.
    rewrite in_order_app, Ex. cbv iota beta. rewrite Ea.
    rewrite <- !app_assoc. reflexivity.
  - apply List.Forall_cons_iff in Hout as [Hname Hout]. cbn [fst] in Hname.
    destruct (process_soup_frame before pr w) as (hb & pr0 & w0 & ds0 & df0 & Eb).
    destruct (IH Hout pr0 w0) as (pr1 & w1 & ds1 & df1 & Hrun & Hrest).
    exists pr1, w1, (ds0 ++ ds1), (df0 ++ df1). split.
    { intros s0 f0. cbn [run_before]. rewrite Eb. cbn [snd].
      rewrite Hrun, !app_assoc. reflexivity. }
    intros pr2 w2.
    destruct (Hrest pr2 w2) as (ci & pr3 & w3 & ds3 & df3 & Hanc & Hx).
    destruct (process_soup_frame after pr3 w3) as (ha & pr4 & w4 & ds4 & df4 & Ea).
    exists (Inside hb name attrs ci ha), pr4, w4, (ds3 ++ ds4), (df3 ++ df4).
    split; [cbn [ancestors]; rewrite Hanc; reflexivity|].
    intros x hx dsx dfx Ex s0 f0. cbn [plug].
    unfold process_soup in *.
    rewrite in_order_app, Eb. cbv iota beta.
    rewrite in_order_app. cbn [in_order process_node]. rewrite Hname.
    rewrite (Hx x hx dsx dfx Ex). cbv iota beta. rewrite Ea.
    rewrite <- !app_assoc. cbn [app]. reflexivity.
Qed.



(** The loop on an [img] without a source: nothing changes. *)
Lemma process_sourceless_img attrs pr (w : W) :
  PyStr.truthy (get_src attrs) = false ->
  forall s0 f0,
    process_soup base_path remove_failed [NTag "img" attrs []] (mk_run pr w s0 f0) =
    ([NTag "img" attrs []], mk_run pr w (s0 ++ []) (f0 ++ [])).
Proof.
  intros Ht s0 f0. unfold process_soup.
  cbn [in_order process_node String.eqb Ascii.eqb Bool.eqb].
  unfold process_img. rewrite Ht. cbn [negb in_order].
  rewrite !app_nil_r. reflexivity.
Qed.

Lemma process_img_truthy attrs (r : @run W) o r' :
  process_img base_path remove_failed attrs r = (o, r') ->
  lists_truthy r -> lists_truthy r'.
Proof.
  unfold process_img, lists_truthy.
  destruct (PyStr.truthy (get_src attrs)) eqn:Ht; cbn [negb];
    [|intros [= <- <-]; trivial].
  destruct (on_wechat_host (get_src attrs)); [intros [= <- <-]; trivial|].
  destruct (try_image _ _ _ _) as [[[| u |] pr'] w'];
    intros [= <- <-] [Hs Hf]; cbn [success_list fail_list];
    split; trivial; apply List.Forall_app; split; trivial;
    repeat constructor; exact Ht.
Qed.

Lemma in_order_truthy f l :
  List.Forall (fun n => forall (r : @run W) h r',
                 f n r = (h, r') -> lists_truthy r -> lists_truthy r') l ->
  forall r h r', in_order f l r = (h, r') -> lists_truthy r -> lists_truthy r'.
Proof.
  induction 1 as [|n l Hn _ IH]; intros r h r'; cbn [in_order].
  - intros [= <- <-]. trivial.
  - destruct (f n r) as [h1 r1] eqn:E1.
    destruct (in_order f l r1) as [h2 r2] eqn:E2.
    intros [= <- <-] Hr. eapply IH; [exact E2|]. eapply Hn; eassumption.
Qed.

Lemma process_node_truthy n : forall (r : @run W) h r',
  process_node base_path remove_failed n r = (h, r') ->
  lists_truthy r -> lists_truthy r'.
Proof.
  induction n as [s|s|name attrs children IH] using node_induction;
    intros r h r'; cbn [process_node]; try (intros [= <- <-]; trivial).
  destruct (String.eqb name "img").
  - destruct (process_img base_path remove_failed attrs r) as [[attrs'|] r1] eqn:E1.
    + destruct (in_order _ children r1) as [h2 r2] eqn:E2.
      intros [= <- <-] Hr. eapply in_order_truthy; [exact IH | exact E2|].
      eapply process_img_truthy; eassumption.
    + intros [= <- <-] Hr. eapply process_img_truthy; eassumption.
  - destruct (in_order _ children r) as [h2 r2] eqn:E2.
    intros [= <- <-] Hr. eapply in_order_truthy; [exact IH | exact E2 | exact Hr].
Qed.

Lemma process_soup_truthy l (r : @run W) h r' :
  process_soup base_path remove_failed l r = (h, r') ->
  lists_truthy r -> lists_truthy r'.
Proof.
  apply in_order_truthy, List.Forall_forall. intros n _. apply process_node_truthy.
Qed.

Lemma flat_map_flat_map {A B C} (f : A -> list B) (g : B -> list C) l :
  flat_map g (flat_map f l) = flat_map (fun x => flat_map g (f x)) l.
Proof.
  induction l as [|x l IH]; [reflexivity|].
  cbn [flat_map]. rewrite flat_map_app, IH. reflexivity.
Qed.



Lemma run_eta (r : @run W) :
  mk_run (proc r) (outside r) (success_list r) (fail_list r) = r.
Proof. destruct r; reflexivity. Qed.





End Facts.

Section Claims.
Context {W : Type} `{Outside W}.
Variable parse : string -> list node.
Variable render : list node -> string.
Variable base_path : option string.

Lemma process_soup_nil remove_failed pr (w : W) s0 f0 :
  process_soup base_path remove_failed [] (mk_run pr w s0 f0) =
  ([], mk_run pr w (s0 ++ []) (f0 ++ [])).
Proof. rewrite !app_nil_r. reflexivity. Qed.


(** C10. An [img] without a [src], or with an empty one, stays in the
    document as it is and where it is: the document with it gives the
    HTML of the document without it with the element back at its place,
    and the same two lists and state; and its source is in neither
    list. *)
Theorem process_html_sourceless_image
    (html html0 : string) (c : ctx) (attrs : gmap string attr_value)
    (remove_failed : bool) (pr : processor) (w : W) :
  parse html = plug c [NTag "img" attrs []] ->
  parse html0 = plug c [] ->
  outside_img c ->
  PyStr.truthy (get_src attrs) = false ->
  exists c' s f pr' w',
    ancestors c' = ancestors c /\
    process_html parse render html0 base_path remove_failed pr w
    = ((render (plug c' []), s, f), pr', w') /\
    process_html parse render html base_path remove_failed pr w
    = ((render (plug c' [NTag "img" attrs []]), s, f), pr', w') /\
    ~ In (get_src attrs) s /\ ~ In (get_src attrs) f.
Proof.
  intros Hp Hp0 Hout Ht.
  destruct (process_plug base_path remove_failed c Hout pr w)
    as (pr1 & w1 & ds1 & df1 & Hrun & Hrest).
  destruct (Hrest pr1 w1) as (c' & pr3 & w3 & ds3 & df3 & Hanc & Hx).
  pose proof (Hx _ _ _ _ (process_sourceless_img base_path remove_failed attrs pr1 w1 Ht) [] [])
    as E1.
  pose proof (Hx _ _ _ _ (process_soup_nil remove_failed pr1 w1) [] []) as E0.
  exists c', (ds1 ++ ds3), (df1 ++ df3), pr3, w3.
  split; [exact Hanc|].
  unfold process_html. rewrite Hp, Hp0, E1, E0.
  split; [reflexivity|]. split; [reflexivity|].
  destruct (process_soup_truthy base_path remove_failed _ _ _ _ E0) as [Hs Hf];
    [split; constructor|].
  cbn [success_list fail_list app] in Hs, Hf.
  rewrite List.Forall_forall in Hs, Hf.
  split; intros Hin; [apply Hs in Hin | apply Hf in Hin]; congruence.
Qed.

End Claims.


Example failed_upload_sample_run :
  process_html (fun _ => plug busy_place [img_tag "/work/bad.png"])
    sample_render "" None true sample_processor flaky_files
  = (("p,img,img", ["/work/ok.png"; "/work/late.png"], ["/work/bad.png"]),
     set_url_cache
       (<["/work/late.png" := "https://mmbiz.qpic.cn/work/late.png"]>
          (<["/work/ok.png" := "https://mmbiz.qpic.cn/work/ok.png"]> ∅))
       sample_processor,
     (fst flaky_files, 3)).
Proof. vm_compute. reflexivity. Qed.

Example missing_image_sample_run :
  process_html (sample_parse [img_tag "missing.png"]) sample_render
    "with" None true sample_processor sample_files
  = (("p,img,p", ["/work/ok.png"], ["missing.png"]),
     set_url_cache (<["/work/ok.png" := "https://mmbiz.qpic.cn/work/ok.png"]> ∅)
       sample_processor,
     sample_files).
Proof. vm_compute. reflexivity. Qed.

Lemma process_html_sourceless_image_witness :
  exists c' s f pr' w',
    ancestors c' = ancestors sample_place /\
    process_html (sample_parse [NTag "img" (<["alt" := AStr "x"]> ∅) []])
      sample_render "with" None true sample_processor sample_files
    = ((sample_render (plug c' [NTag "img" (<["alt" := AStr "x"]> ∅) []]), s, f),
       pr', w').
Proof.
  destruct (process_html_sourceless_image
              (sample_parse [NTag "img" (<["alt" := AStr "x"]> ∅) []])
              sample_render None "with" "without" sample_place
              (<["alt" := AStr "x"]> ∅) true sample_processor sample_files)
    as (c' & s & f & pr' & w' & Hanc & _ & Hrun & _).
  - reflexivity.
  - reflexivity.
  - repeat constructor.
  - vm_compute. reflexivity.
  - exists c', s, f, pr', w'. split; [exact Hanc | exact Hrun].
Defined.

End UploaderFacts.

(** ** Conversion *)

Module ConverterFacts.
Import Dom Converter.

(** *** The fuel of [visit_pre] is enough *)

Lemma max_depth_cons x l :
  max_depth (x :: l) = Nat.max (listed_depth x) (max_depth l).
Proof. reflexivity. Qed.

Lemma listed_depth_tag listed name attrs children :
  listed_depth (MTag listed name attrs children) =
  (if listed then 1 else 0) + max_depth children.
Proof. reflexivity. Qed.

Lemma max_depth_bound l x : In x l -> listed_depth x <= max_depth l.
Proof.
  induction l as [|y l IH]; [intros []|].
  rewrite max_depth_cons. intros [->|Hin]; [lia|].
  specialize (IH Hin). lia.
Qed.

Lemma listed_depth_unlisted n : listed_depth (mark false n) = 0.
Proof.
  induction n as [s|s|name attrs children IH] using node_induction;
    try reflexivity.
  cbn [mark]. rewrite listed_depth_tag. cbn [Nat.add].
  unfold max_depth. induction IH as [|x l Hx _ IHl]; [reflexivity|].
  cbn [List.map fold_right]. rewrite Hx. exact IHl.
Qed.

Lemma max_depth_unlisted soup : max_depth (List.map (mark false) soup) = 0.
Proof.
  unfold max_depth. induction soup as [|n l IH]; [reflexivity|].
  cbn [List.map fold_right]. rewrite listed_depth_unlisted. exact IH.
Qed.

Lemma find_in_tag name listed nm attrs children :
  find_in name (MTag listed nm attrs children) =
  if String.eqb nm name then Some (MTag listed nm attrs children)
  else find_first name children.
Proof.
  cbn [find_in]. destruct (String.eqb nm name); [reflexivity|].
  induction children as [|x l IH]; [reflexivity|].
  cbn [find_first]. destruct (find_in name x); [reflexivity | exact IH].
Qed.

Lemma find_in_depth name m : forall c,
  find_in name m = Some c -> listed_depth c <= listed_depth m.
Proof.
  induction m as [s|s|listed nm attrs children IH] using mnode_induction;
    intros c; try discriminate.
  rewrite find_in_tag. destruct (String.eqb nm name).
  { intros [= <-]. lia. }
  rewrite listed_depth_tag.
  induction IH as [|x l Hx _ IHl]; [discriminate|].
  cbn [find_first]. rewrite max_depth_cons.
  destruct (find_in name x) as [r|] eqn:E.
  - intros [= <-]. specialize (Hx _ eq_refl). lia.
  - intros Hc. specialize (IHl Hc). lia.
Qed.

Lemma find_first_depth name l c :
  find_first name l = Some c -> listed_depth c <= max_depth l.
Proof.
  induction l as [|x l IH]; [discriminate|].
  cbn [find_first]. rewrite max_depth_cons.
  destruct (find_in name x) as [r|] eqn:E.
  - intros [= <-]. apply find_in_depth in E. lia.
  - intros Hc. specialize (IH Hc). lia.
Qed.

Lemma children_of_depth c : max_depth (children_of c) <= listed_depth c.
Proof.
  destruct c as [s|s|listed nm attrs children]; cbn [children_of];
    [reflexivity | reflexivity | rewrite listed_depth_tag; lia].
Qed.

Lemma replace_in_tag name new listed nm attrs children :
  replace_in name new (MTag listed nm attrs children) =
  if String.eqb nm name then Some new
  else if List.existsb (fun x => match replace_in name new x with
                                 | Some _ => true | None => false end) children
       then Some (MTag listed nm attrs (replace_first name new children))
       else None.
Proof.
  cbn [replace_in]. destruct (String.eqb nm name); [reflexivity|].
  induction children as [|x l IH]; [reflexivity|].
  cbn [replace_first existsb].
  destruct (replace_in name new x) as [x'|]; [reflexivity|].
  cbn [orb]. revert IH.
  destruct ((fix first (l0 : list mnode) : option (list mnode) := _) l) as [l''|];
    destruct (existsb _ l); intros [=]; subst; reflexivity.
Qed.

Lemma replace_in_depth name new m :
  listed_depth new = 0 ->
  forall m', replace_in name new m = Some m' -> listed_depth m' <= listed_depth m.
Proof.
  intros Hnew.
  induction m as [s|s|listed nm attrs children IH] using mnode_induction;
    intros m'; try discriminate.
  rewrite replace_in_tag. destruct (String.eqb nm name).
  { intros [= <-]. lia. }
  destruct (existsb _ children); [|discriminate].
  intros [= <-]. rewrite !listed_depth_tag.
  apply Nat.add_le_mono_l.
  induction IH as [|x l Hx _ IHl]; [reflexivity|].
  cbn [replace_first].
  destruct (replace_in name new x) as [x'|] eqn:E.
  - rewrite !max_depth_cons. specialize (Hx _ eq_refl). lia.
  - rewrite !max_depth_cons. lia.
Qed.

Lemma replace_first_depth name new l :
  listed_depth new = 0 ->
  max_depth (replace_first name new l) <= max_depth l.
Proof.
  intros Hnew. induction l as [|x l IH]; [reflexivity|].
  cbn [replace_first].
  destruct (replace_in name new x) as [x'|] eqn:E.
  - rewrite !max_depth_cons. apply (replace_in_depth _ _ _ Hnew) in E. lia.
  - rewrite !max_depth_cons. lia.
Qed.

Section Fuel.
Context `{Libs}.

Lemma highlight_code_unlisted code new :
highlight_code code = Replacement new -> listed_depth new = 0.
Proof.
unfold highlight_code.
destruct (match code_language (attrs_of code) with
          | Some l => if PyStr.truthy l then get_lexer_by_name l
                      else guess_lexer (get_text code)
          | None => guess_lexer (get_text code)
          end) as [lx|]; [|discriminate].
destruct (and_then (highlight (get_text code) lx) bs_parse) as [parsed|];
  [|discriminate].
pose proof (max_depth_unlisted parsed) as Hd.
destruct (find_first "div" _) as [d|] eqn:Ediv.
- intros [= <-]. apply find_first_depth in Ediv. lia.
- destruct (find_first "pre" _) as [d|] eqn:Epre; [|discriminate].
  intros [= <-]. apply find_first_depth in Epre. lia.
Qed.

Lemma map_visit_ext f g l :
(forall x, In x l -> visit_pre f x = visit_pre g x) ->
List.map (visit_pre f) l = List.map (visit_pre g) l.
Proof. intros Hx. apply List.map_ext_in. exact Hx. Qed.

(** With fuel for every level of listed tags, more fuel changes nothing:
  the loop never stops short. *)
Lemma visit_pre_enough fuel : forall m k,
listed_depth m <= fuel -> visit_pre (fuel + k) m = visit_pre fuel m.
Proof.
induction fuel as [|fuel IH]; intros m k Hd.
- destruct m as [s|s|[] nm attrs children];
    try (destruct k; reflexivity).
  rewrite listed_depth_tag in Hd. lia.
- destruct m as [s|s|[] nm attrs children]; try reflexivity.
  rewrite listed_depth_tag in Hd.
  assert (Hch : max_depth children <= fuel) by lia.
  assert (Hmap : forall l, max_depth l <= fuel ->
            List.map (visit_pre (fuel + k)) l = List.map (visit_pre fuel) l).
  { intros l Hl. apply map_visit_ext. intros x Hx. apply IH.
    pose proof (max_depth_bound _ _ Hx). lia. }
  cbn [Nat.add visit_pre].
  destruct (String.eqb nm "pre"); [|rewrite (Hmap _ Hch); reflexivity].
  destruct (find_first "code" children) as [code|] eqn:Ecode;
    [|rewrite (Hmap _ Hch); reflexivity].
  destruct (highlight_code code) as [|new| |] eqn:Ehl;
    [rewrite (Hmap _ Hch); reflexivity| |reflexivity..].
  pose proof (highlight_code_unlisted _ _ Ehl) as Hnew.
  rewrite (Hmap (children_of code)).
  2:{ pose proof (children_of_depth code).
      pose proof (find_first_depth _ _ _ Ecode). lia. }
  rewrite (Hmap (replace_first "code" new children)).
  2:{ pose proof (replace_first_depth "code" new children Hnew). lia. }
  reflexivity.
Qed.
End Fuel.

Section Determinism.
Context `{Libs}.

Lemma set_md_same (cv : converter) : set_md (md cv) cv = cv.
Proof. destruct cv; reflexivity. Qed.

(** C6, amended.  Provided [reset()] puts the parser back in the state it
    has after construction, for a converter built with a theme, in
    whatever state its parser is: a conversion that returns leaves the
    converter as a new one built with that theme, so every later
    conversion goes as on a new converter; on a converter whose parser is
    in the state it has after construction, a text that converts gives
    the same HTML when it is converted again; and a conversion that raises
    leaves the parser in the state in which [md.convert] left it, without
    resetting it. *)
Theorem convert_twice_same_html
    (theme_name text : string) (title : option string) (cv : converter) :
  (forall s, md_reset s = md_new) ->
  theme cv = theme_name ->
  theme_css cv = get_theme_css theme_name ->
  (forall html cv1,
     convert cv text title = (Some html, cv1) ->
     cv1 = new_converter theme_name /\
     forall text' title',
       convert cv1 text' title' =
       convert (new_converter theme_name) text' title') /\
  (md cv = md_new ->
   forall html cv1,
     convert cv text title = (Some html, cv1) ->
     convert cv1 text title = (Some html, cv1)) /\
  (forall cv1,
     convert cv text title = (None, cv1) ->
     cv1 = set_md (snd (md_convert (md cv)
                          (Preprocess._preprocess_markdown text))) cv).
Proof.
  intros Hreset Htheme Hcss.
  assert (Hnew : forall html cv1,
            convert cv text title = (Some html, cv1) ->
            cv1 = new_converter theme_name).
  { intros html cv1. unfold convert.
    destruct (md_convert (md cv) _) as [html_content md1].
    destruct (and_then html_content style_passes); [|discriminate].
    intros [= _ <-]. unfold set_md, new_converter. cbn [md theme theme_css].
    rewrite Hreset, Htheme, Hcss. reflexivity. }
  split; [|split].
  - intros html cv1 Hrun. rewrite (Hnew _ _ Hrun). split; reflexivity.
  - intros Hmd html cv1 Hrun. pose proof (Hnew _ _ Hrun) as ->.
    assert (Hcv : cv = new_converter theme_name).
    { destruct cv as [t css s]. cbn in Htheme, Hcss, Hmd. subst.
      reflexivity. }
    rewrite <- Hcv at 1. exact Hrun.
  - intros cv1. unfold convert.
    destruct (md_convert (md cv) _) as [html_content md1]. cbn [snd].
    destruct (and_then html_content style_passes); [discriminate|].
    intros [= <-]. reflexivity.
Qed.
End Determinism.

Lemma convert_twice_same_html_witness :
  exists html cv1,
    convert (new_converter "default") "hello" None = (Some html, cv1) /\
    convert cv1 "hello" None = (Some html, cv1).
Proof.
  destruct (convert (new_converter "default") "hello" None) as [[html|] cv1] eqn:E;
    [|vm_compute in E; discriminate E].
  exists html, cv1. split; [reflexivity|].
  destruct (convert_twice_same_html "default" "hello" None
              (new_converter "default")) as (_ & Htwice & _).
  - intros s. reflexivity.
  - reflexivity.
  - reflexivity.
  - apply Htwice; [reflexivity | exact E].
Defined.

(** C6 as worded fails on a converter on which a conversion has raised:
    the parser has kept the link the text that was given up defined, the
    next text is printed with the link, and the same text converted once
    more, the parser now reset, is printed without. *)
Lemma conversion_after_failure_differs :
  fst (convert (new_converter "default") deep_text None) = None /\
  ~ same_html_twice (snd (convert (new_converter "default") deep_text None))
      "see [ref]" None.
Proof.
  split; [reflexivity|].
  unfold same_html_twice. vm_compute. discriminate.
Qed.

End ConverterFacts.

(** ** Strikethrough preprocessing: texts without tildes, fence lines *)

Module PreprocessMore.
Import PyStr Preprocess PreprocessFacts.

Lemma re_sub_del_no_tildes s : contains s "~~" = false -> re_sub_del s = s.
Proof.
  induction s as [|c s IH]; intros H; [reflexivity|].
  apply contains_cons_false in H as [Hh Ht].
  rewrite re_sub_del_cons. unfold match_here. rewrite Hh, (IH Ht). reflexivity.
Qed.

Lemma split_lines_no_tildes text :
  contains text "~~" = false ->
  List.Forall (fun l => contains l "~~" = false) (split_lines text).
Proof.
  induction text as [|c s IH]; intros H.
  - repeat constructor.
  - apply contains_cons_false in H as [Hh Ht]. specialize (IH Ht).
    cbn [split_lines]. destruct (is_LF c) eqn:Hc.
    + constructor; [reflexivity | exact IH].
    + pose proof (join_split s) as Hj.
      destruct (split_lines s) as [|l ls]; [repeat constructor|].
      * cbn [contains]. apply orb_false_iff. split; [|reflexivity].
        unfold startswith. cbn [strip_prefix] in *.
        destruct (Ascii.eqb "~" c); reflexivity.
      * apply List.Forall_cons_iff in IH as [Hl Hls].
        constructor; [|exact Hls].
        cbn [contains]. rewrite Hl, orb_false_r.
        unfold startswith. cbn [strip_prefix] in *.
        destruct (Ascii.eqb "~" c); [|reflexivity].
        destruct l as [|d l]; [reflexivity|].
        assert (exists s', s = String d s') as [s' ->].
        { destruct ls as [|l2 ls]; cbn [join_lines] in Hj; subst s; eauto. }
        destruct (Ascii.eqb "~" d); [discriminate Hh | reflexivity].
Qed.

Lemma preprocess_lines_id lines : forall b,
  List.Forall (fun l => contains l "~~" = false) lines ->
  preprocess_lines b lines = lines.
Proof.
  induction lines as [|l ls IH]; intros b H; [reflexivity|].
  apply List.Forall_cons_iff in H as [Hl Hls].
  cbn [preprocess_lines]. rewrite (IH _ Hls).
  destruct (negb _); [rewrite (re_sub_del_no_tildes _ Hl)|]; reflexivity.
Qed.

(** X1. A text without [~~] goes through [_preprocess_markdown] unchanged,
    byte for byte, fences or not. *)
Theorem preprocess_without_tildes (text : string) :
  contains text "~~" = false -> _preprocess_markdown text = text.
Proof.
  intros H. unfold _preprocess_markdown.
  rewrite (preprocess_lines_id _ _ (split_lines_no_tildes _ H)).
  apply join_split.
Qed.

Lemma preprocess_without_tildes_witness :
  _preprocess_markdown ("# Title" ++ String LF "a ~ b" ++ String LF "```")
  = ("# Title" ++ String LF "a ~ b" ++ String LF "```")%string.
Proof. apply preprocess_without_tildes. reflexivity. Defined.

Lemma preprocess_lines_length lines : forall b,
  List.length (preprocess_lines b lines) = List.length lines.
Proof.
  induction lines as [|l ls IH]; intros b; [reflexivity|].
  cbn [preprocess_lines List.length]. rewrite IH. reflexivity.
Qed.

(** X2. [_preprocess_markdown] keeps the number of lines, and treats the
    two fence lines of a block differently: the flag is toggled before the
    line is looked at, so a fence line that opens a block (an even number
    of fence lines before it) is copied, and a fence line that closes one
    is rewritten like the lines outside. *)
Theorem preprocess_fence_lines (text : string) :
  let lines := split_lines text in
  let out := split_lines (_preprocess_markdown text) in
  List.length out = List.length lines /\
  forall i line,
    nth_error lines i = Some line -> is_fence line = true ->
    nth_error out i =
    Some (if Nat.even (fences_upto lines i) then line else re_sub_del line).
Proof.
  cbv zeta. rewrite split_preprocess. split; [apply preprocess_lines_length|].
  intros i line Hi Hf. rewrite preprocess_lines_nth, Hi. cbn [option_map xorb].
  rewrite (fences_upto_S _ _ _ Hi), Hf, Nat.add_1_r, Nat.odd_succ.
  reflexivity.
Qed.

Lemma preprocess_fence_lines_witness :
  nth_error (split_lines (_preprocess_markdown
               (join_lines ["``` ~~a~~"; "x"; "``` ~~b~~"]))) 2
  = Some "``` <del>b</del>" /\
  nth_error (split_lines (_preprocess_markdown
               (join_lines ["``` ~~a~~"; "x"; "``` ~~b~~"]))) 0
  = Some "``` ~~a~~".
Proof.
  destruct (preprocess_fence_lines (join_lines ["``` ~~a~~"; "x"; "``` ~~b~~"]))
    as [_ H].
  split.
  - rewrite (H 2 "``` ~~b~~"); reflexivity.
  - rewrite (H 0 "``` ~~a~~"); reflexivity.
Defined.

End PreprocessMore.

(** ** Titles and image references of the Markdown text *)

Module ExtractFacts.
Import PyStr Preprocess PreprocessFacts Extract.

Example extract_images_samples :
  extract_images ("![a](x.png)" ++ String LF "text ![b](y.png) ![c]()d](e)")
  = ["x.png"; "y.png"; ")d](e"] /\
  extract_images ("![a](x" ++ String LF ")") = [] /\
  extract_images "![a]()" = [].
Proof. vm_compute. repeat split. Qed.

Example extract_title_samples :
  extract_title ("intro" ++ String LF "## two" ++ String LF "#  one  " ++ String LF "x")
  = Some "one" /\
  extract_title ("#" ++ String LF "# real") = Some "# real" /\
  extract_title "#  " = Some "" /\
  extract_title "#" = None /\
  extract_title ("text" ++ String LF "##" ++ String LF "next") = Some "next".
Proof. vm_compute. repeat split. Qed.

(** Whitespace is whitespace in any script: an ideographic space after the
    mark, a no-break space after the title; and a run of whitespace that
    ends the text gives an empty title. *)
Example extract_title_unicode_samples :
  extract_title "#　标题 " = Some "标题" /\
  extract_title ("# 　" ++ String LF "") = Some "" /\
  extract_title ("#" ++ String LF ("　" ++ String LF (String LF ""))) = Some "".
Proof. vm_compute. repeat split. Qed.

Lemma append_empty (s : string) : (s ++ "")%string = s.
Proof.
  induction s as [|c s IH]; [reflexivity|].
  change (String c s ++ "")%string with (String c (s ++ "")).
  rewrite IH. reflexivity.
Qed.

Lemma find_paren_length s g r :
  find_paren s = Some (g, r) ->
  String.length s = String.length g + 1 + String.length r.
Proof.
  revert g r; induction s as [|c s IH]; intros g r; [discriminate|].
  cbn [find_paren]. destruct (Ascii.eqb c ")").
  - intros [= <- <-]. reflexivity.
  - destruct (is_LF c); [discriminate|].
    destruct (find_paren s) as [[g' r']|]; [|discriminate].
    intros [= <- <-]. cbn. rewrite (IH _ _ eq_refl). reflexivity.
Qed.

Lemma url_here_length s g r :
  url_here s = Some (g, r) -> String.length r < String.length s.
Proof.
  destruct s as [|c s]; [discriminate|]. cbn [url_here].
  destruct (is_LF c); [discriminate|].
  destruct (find_paren s) as [[g' r']|] eqn:E; [|discriminate].
  intros [= <- <-]. apply find_paren_length in E. cbn. lia.
Qed.

Lemma alt_here_length s g r :
  alt_here s = Some (g, r) -> String.length r < String.length s.
Proof.
  revert g r; induction s as [|c s IH]; intros g r; [discriminate|].
  cbn [alt_here].
  destruct (strip_prefix "](" (String c s)) as [t|] eqn:Hp.
  - destruct (url_here t) as [[g' r']|] eqn:Hu.
    + intros [= <- <-]. apply url_here_length in Hu.
      apply strip_prefix_length in Hp. cbn in Hp |- *. lia.
    + destruct (is_LF c); [discriminate|].
      intros H. apply IH in H. cbn. lia.
  - destruct (is_LF c); [discriminate|].
    intros H. apply IH in H. cbn. lia.
Qed.

Lemma image_here_length s g r :
  image_here s = Some (g, r) -> String.length r < String.length s.
Proof.
  unfold image_here.
  destruct (strip_prefix "![" s) as [t|] eqn:Hp; [|discriminate].
  intros H. apply alt_here_length in H. apply strip_prefix_length in Hp.
  cbn in Hp. lia.
Qed.

(** The fuel given by [extract_images] is enough. *)
Lemma findall_from_enough n m s :
  String.length s <= n -> String.length s <= m ->
  findall_from n s = findall_from m s.
Proof.
  revert m s; induction n as [|n IH]; intros m s Hn Hm.
  - destruct s; cbn in Hn; [|lia]. destruct m; reflexivity.
  - destruct s as [|c s]; [destruct m; reflexivity|].
    destruct m as [|m]; [cbn in Hm; lia|].
    cbn [findall_from]. cbn in Hn, Hm.
    destruct (image_here (String c s)) as [[g rest]|] eqn:Hi.
    + apply image_here_length in Hi. cbn in Hi.
      rewrite (IH m rest) by lia. reflexivity.
    + rewrite (IH m s) by lia. reflexivity.
Qed.

Lemma extract_images_cons c s :
  extract_images (String c s) =
  match image_here (String c s) with
  | Some (g, rest) => g :: extract_images rest
  | None => extract_images s
  end.
Proof.
  unfold extract_images. cbn [String.length findall_from].
  destruct (image_here (String c s)) as [[g rest]|] eqn:Hi; [|reflexivity].
  apply image_here_length in Hi. cbn in Hi.
  rewrite (findall_from_enough (String.length s) (String.length rest) rest) by lia.
  reflexivity.
Qed.

(** No pattern of two characters [a b] starts at the head of
    [String c (u ++ s)] when none starts at the head of [String c u] and
    [s] does not begin with [b]. *)
Lemma strip_pair_head (a b c : ascii) u s :
  strip_prefix (String a (String b "")) (String c u) = None ->
  (forall s', s <> String b s') ->
  strip_prefix (String a (String b "")) (String c (u ++ s)) = None.
Proof.
  cbn [strip_prefix]. destruct (Ascii.eqb a c); [|reflexivity].
  destruct u as [|d u]; cbn [String.append].
  - intros _ Hs. destruct s as [|e s]; [reflexivity|].
    change ("" ++ String e s)%string with (String e s). cbv iota.
    destruct (Ascii.eqb b e) eqn:E; [|reflexivity].
    apply Ascii.eqb_eq in E. subst e. exfalso. exact (Hs s eq_refl).
  - change (String d u ++ s)%string with (String d (u ++ s)). cbv iota.
    destruct (Ascii.eqb b d); [discriminate | reflexivity].
Qed.

(** Text in which no [![] starts is passed over. *)
Lemma extract_images_skip pre s :
  contains pre "![" = false ->
  (forall s', s <> String "[" s') ->
  extract_images (pre ++ s) = extract_images s.
Proof.
  intros Hpre Hs2. induction pre as [|c pre IH]; [reflexivity|].
  apply contains_cons_false in Hpre as [Hh Ht].
  change (String c pre ++ s)%string with (String c (pre ++ s)).
  rewrite extract_images_cons. unfold image_here.
  rewrite (strip_pair_head _ _ _ _ _ Hh Hs2). exact (IH Ht).
Qed.

Lemma find_paren_first u post :
  has_LF u = false -> contains u ")" = false ->
  find_paren (u ++ ")" ++ post) = Some (u, post).
Proof.
  induction u as [|c u IH]; intros Hlf Hc; [reflexivity|].
  apply contains_cons_false in Hc as [Hh Ht].
  cbn in Hlf. apply orb_false_iff in Hlf as [Hc Hlf].
  change (String c u ++ ")" ++ post)%string with (String c (u ++ ")" ++ post)).
  cbn [find_paren]. cbn [strip_prefix] in Hh.
  rewrite Ascii.eqb_sym. destruct (Ascii.eqb ")" c); [discriminate|].
  rewrite Hc, (IH Hlf Ht). reflexivity.
Qed.

Lemma alt_here_first alt url post :
  has_LF alt = false -> contains alt "](" = false ->
  url <> "" -> has_LF url = false -> contains url ")" = false ->
  alt_here (alt ++ "](" ++ url ++ ")" ++ post) = Some (url, post).
Proof.
  intros Hlf Hc Hne Hul Huc.
  assert (Hurl : url_here (url ++ ")" ++ post) = Some (url, post)).
  { destruct url as [|c u]; [congruence|].
    apply contains_cons_false in Huc as [_ Huc].
    cbn in Hul. apply orb_false_iff in Hul as [Hcl Hul].
    change (String c u ++ ")" ++ post)%string with (String c (u ++ ")" ++ post)).
    cbn [url_here]. rewrite Hcl, (find_paren_first u post Hul Huc). reflexivity. }
  induction alt as [|c alt IH].
  - change ("" ++ "](" ++ url ++ ")" ++ post)%string
      with (String "]" (String "(" (url ++ ")" ++ post))).
    cbn [alt_here].
    change (strip_prefix "](" (String "]" (String "(" (url ++ ")" ++ post))))
      with (Some (url ++ ")" ++ post)%string).
    cbv iota. rewrite Hurl. reflexivity.
  - apply contains_cons_false in Hc as [Hh Ht].
    cbn in Hlf. apply orb_false_iff in Hlf as [Hcl Hlf].
    change (String c alt ++ "](" ++ url ++ ")" ++ post)%string
      with (String c (alt ++ "](" ++ url ++ ")" ++ post)).
    cbn [alt_here].
    rewrite (strip_pair_head _ _ _ _ _ Hh); [|discriminate].
    rewrite Hcl. exact (IH Hlf Ht).
Qed.

(** X4. [extract_images] and [extract_images_from_markdown] read the image
    references off the text in order.  An image written [![alt](url)],
    with no [](] in [alt], no [)] in a non-empty [url] and both on one
    line, after text in which no [![] occurs, gives [url] followed by what
    the rest of the text gives; a text in which no [![] occurs gives
    nothing. *)
Theorem extract_images_in_order :
  (forall pre alt url post,
     contains pre "![" = false ->
     has_LF alt = false -> contains alt "](" = false ->
     url <> "" -> has_LF url = false -> contains url ")" = false ->
     extract_images (pre ++ "![" ++ alt ++ "](" ++ url ++ ")" ++ post)
     = url :: extract_images post) /\
  (forall text, contains text "![" = false -> extract_images text = []) /\
  (forall text, extract_images_from_markdown text = extract_images text).
Proof.
  split; [|split].
  - intros pre alt url post Hpre Hlf Hc Hne Hul Huc.
    rewrite (extract_images_skip pre _ Hpre); [|discriminate].
    change ("![" ++ alt ++ "](" ++ url ++ ")" ++ post)%string
      with (String "!" (String "[" (alt ++ "](" ++ url ++ ")" ++ post))).
    rewrite extract_images_cons.
    change (image_here (String "!" (String "[" (alt ++ "](" ++ url ++ ")" ++ post))))
      with (alt_here (alt ++ "](" ++ url ++ ")" ++ post)).
    rewrite (alt_here_first alt url post Hlf Hc Hne Hul Huc). reflexivity.
  - intros text Hc.
    pose proof (extract_images_skip text "" Hc) as H.
    rewrite append_empty in H. apply H. discriminate.
  - reflexivity.
Qed.

Lemma extract_images_in_order_witness :
  extract_images "See ![one](a.png) and more"
  = "a.png" :: extract_images " and more".
Proof.
  exact (proj1 extract_images_in_order "See " "one" "a.png" " and more"
           eq_refl eq_refl eq_refl ltac:(discriminate) eq_refl eq_refl).
Defined.

Lemma append_assoc' (a b c : string) : ((a ++ b) ++ c)%string = (a ++ (b ++ c))%string.
Proof.
  induction a as [|x a IH]; [reflexivity|].
  change ((String x a ++ b) ++ c)%string with (String x ((a ++ b) ++ c)).
  rewrite IH. reflexivity.
Qed.

Lemma search_heading_step m s :
  heading_here m s = None ->
  search_heading m true s = search_heading m false s.
Proof. intros H. destruct s; cbn [search_heading]; rewrite H; reflexivity. Qed.

Lemma search_heading_line m l more :
  has_LF l = false ->
  search_heading m false (l ++ String LF more) = search_heading m true more.
Proof.
  induction l as [|c l IH]; intros H; [reflexivity|].
  cbn in H. apply orb_false_iff in H as [Hc Hl].
  change (String c l ++ String LF more)%string
    with (String c (l ++ String LF more)).
  cbn [search_heading]. rewrite Hc. exact (IH Hl).
Qed.

Lemma search_heading_last_line m l :
  has_LF l = false -> search_heading m false l = None.
Proof.
  induction l as [|c l IH]; intros H; [reflexivity|].
  cbn in H. apply orb_false_iff in H as [Hc Hl].
  cbn [search_heading]. rewrite Hc. exact (IH Hl).
Qed.

Lemma heading_here_not_h1 l s :
  not_h1 l = true -> strip_prefix "#" s = None ->
  heading_here "#" (l ++ s) = None.
Proof.
  destruct l as [|c l].
  - intros _ H. unfold heading_here. change ("" ++ s)%string with s.
    rewrite H. reflexivity.
  - unfold not_h1, startswith, heading_here.
    change (String c l ++ s)%string with (String c (l ++ s)).
    cbn [strip_prefix]. destruct (Ascii.eqb "#" c); [|reflexivity].
    cbn [negb orb]. destruct l as [|d l]; [discriminate|].
    change (String d l ++ s)%string with (String d (l ++ s)).
    destruct (Ascii.eqb "#" d) eqn:E; [|discriminate].
    apply Ascii.eqb_eq in E. subst d. intros _ _.
    unfold skip_space. change (space1 "#") with false. cbv iota.
    destruct (l ++ s)%string as [|b s2]; [reflexivity|].
    change (space2 "#" b) with false. cbv iota.
    destruct s2 as [|e s3]; [reflexivity|].
    change (space3 "#" b e) with false. reflexivity.
Qed.

Lemma search_heading_skip_lines lines rest :
  List.Forall (fun l => has_LF l = false /\ not_h1 l = true) lines ->
  search_heading "#" true (unlines lines ++ rest) = search_heading "#" true rest.
Proof.
  induction 1 as [|l ls [Hlf Hn] _ IH]; [reflexivity|].
  cbn [unlines]. rewrite append_assoc'.
  change (String LF (unlines ls) ++ rest)%string
    with (String LF (unlines ls ++ rest)).
  rewrite search_heading_step, (search_heading_line _ _ _ Hlf); [exact IH|].
  apply heading_here_not_h1; [exact Hn | reflexivity].
Qed.

Lemma line_rest_app title rest :
  has_LF title = false ->
  rest = "" \/ (exists r, rest = String LF r) ->
  line_rest (title ++ rest) = title.
Proof.
  intros Hlf Hrest. induction title as [|c t IH].
  - destruct Hrest as [->|[r ->]]; reflexivity.
  - cbn in Hlf. apply orb_false_iff in Hlf as [Hc Hlf].
    change (String c t ++ rest)%string with (String c (t ++ rest)).
    cbn [line_rest]. rewrite Hc, (IH Hlf). reflexivity.
Qed.

Lemma search_heading_none m' ls :
  List.Forall (fun l => has_LF l = false /\ startswith l "#" = false) ls ->
  ls <> [] ->
  search_heading (String "#" m') true (join_lines ls) = None.
Proof.
  induction 1 as [|l ls [Hlf Hn] _ IH]; [congruence|]. intros _.
  assert (Hhead : forall s, strip_prefix "#" s = None ->
                            heading_here (String "#" m') (l ++ s) = None).
  { intros s Hs. unfold heading_here.
    replace (strip_prefix (String "#" m') (l ++ s)) with (@None string);
      [reflexivity|].
    symmetry. destruct l as [|c l].
    - change ("" ++ s)%string with s. destruct s as [|c s]; [reflexivity|].
      cbn [strip_prefix] in *. destruct (Ascii.eqb "#" c); [discriminate | reflexivity].
    - change (String c l ++ s)%string with (String c (l ++ s)).
      unfold startswith in Hn. cbn [strip_prefix] in *.
      destruct (Ascii.eqb "#" c); [discriminate | reflexivity]. }
  destruct ls as [|l2 ls].
  - cbn [join_lines]. rewrite search_heading_step.
    + apply search_heading_last_line. exact Hlf.
    + specialize (Hhead "" eq_refl). rewrite append_empty in Hhead. exact Hhead.
  - change (join_lines (l :: l2 :: ls))
      with (l ++ String LF (join_lines (l2 :: ls)))%string.
    rewrite search_heading_step, (search_heading_line _ _ _ Hlf).
    + apply IH. discriminate.
    + apply Hhead. reflexivity.
Qed.

(** X3. [extract_title] gives the first level-1 heading, wherever it is.
    When the lines before a line [# title] are lines on which no level-1
    heading can start (they do not begin with [#], or they begin with
    [##]: level-2 headings do not count), the title is [title] stripped of
    the whitespace around it.  And a text none of whose lines begins with
    [#] has no title. *)
Theorem extract_title_first_heading :
  (forall lines title rest,
     List.Forall (fun l => has_LF l = false /\ not_h1 l = true) lines ->
     title <> "" -> has_LF title = false ->
     lstrip (title ++ rest) = (title ++ rest)%string ->
     rest = "" \/ (exists r, rest = String LF r) ->
     extract_title (unlines lines ++ "# " ++ title ++ rest)
     = Some (strip title)) /\
  (forall text,
     List.Forall (fun l => startswith l "#" = false) (split_lines text) ->
     extract_title text = None).
Proof.
  split.
  - intros lines title rest Hlines Hne Hlf Hblack Hrest.
    unfold extract_title. rewrite (search_heading_skip_lines _ _ Hlines).
    assert (Hh : heading_here "#" ("# " ++ title ++ rest) = Some title).
    { unfold heading_here.
      change (strip_prefix "#" ("# " ++ title ++ rest))
        with (Some (String " " (title ++ rest))).
      cbv iota.
      change (skip_space (String " " (title ++ rest)))
        with (Some (title ++ rest)%string).
      cbv iota. rewrite Hblack.
      destruct title as [|c t]; [congruence|].
      change (String c t ++ rest)%string with (String c (t ++ rest)).
      cbv iota.
      change (String c (t ++ rest)) with (String c t ++ rest)%string.
      rewrite (line_rest_app _ _ Hlf Hrest). reflexivity. }
    change ("# " ++ title ++ rest)%string
      with (String "#" (String " " (title ++ rest))) in *.
    cbn [search_heading]. rewrite Hh. reflexivity.
  - intros text Hall. unfold extract_title.
    assert (Hls : List.Forall (fun l => has_LF l = false /\ startswith l "#" = false)
                    (split_lines text)).
    { pose proof (split_lines_no_LF text) as Hlf.
      rewrite List.Forall_forall in *. intros l Hin. split; auto. }
    rewrite <- (join_split text).
    rewrite !search_heading_none;
      [reflexivity | exact Hls | apply split_lines_nonempty
      | exact Hls | apply split_lines_nonempty].
Qed.

Lemma extract_title_first_heading_witness :
  extract_title (unlines ["intro"; "## part"] ++ "# " ++ "Title " ++ String LF "body")
  = Some (strip "Title ").
Proof.
  apply (proj1 extract_title_first_heading ["intro"; "## part"] "Title "
           (String LF "body")).
  - repeat constructor.
  - discriminate.
  - reflexivity.
  - reflexivity.
  - right. eexists. reflexivity.
Defined.

End ExtractFacts.

(** ** Code blocks: when the conversion returns *)

Module CodeBlockFacts.
Import Dom Converter.

Section Total.
Context `{Libs}.

Lemma all_some_map_is_Some {A B} (f : A -> option B) (l : list A) :
(forall x, is_Some (f x)) -> is_Some (all_some (List.map f l)).
Proof.
intros Hf. induction l as [|x l [r IH]]; cbn; [eauto|].
destruct (Hf x) as [y ->]. rewrite IH. eauto.
Qed.

(** The loop over the [pre] tags raises only through the highlighting
  of a block. *)
Lemma visit_pre_returns :
(forall code, highlight_code code = NoLexer \/
              exists new, highlight_code code = Replacement new) ->
forall fuel m, is_Some (visit_pre fuel m).
Proof.
intros Hh. induction fuel as [|fuel IH]; intros m; cbn [visit_pre]; [eauto|].
destruct m as [s|s|[|] name attrs children]; eauto.
assert (Hall : forall l, is_Some (all_some (List.map (visit_pre fuel) l))).
{ intros l. apply all_some_map_is_Some, IH. }
destruct (String.eqb name "pre").
- destruct (find_first "code" children) as [code|].
  + destruct (Hh code) as [->|[new ->]].
    * destruct (Hall children) as [r ->]. cbn. eauto.
    * destruct (Hall (children_of code)) as [r ->].
      destruct (Hall (replace_first "code" new children)) as [r' ->].
      cbn. eauto.
  + destruct (Hall children) as [r ->]. cbn. eauto.
- destruct (Hall children) as [r ->]. cbn. eauto.
Qed.

Lemma restyled_returns loops html :
(forall html, is_Some (bs_parse html)) ->
(forall soup, is_Some (bs_render soup)) ->
is_Some (restyled loops html).
Proof.
intros Hparse Hrender. unfold restyled.
destruct (Hparse html) as [soup ->]. apply Hrender.
Qed.

(** X5. The code of [convert] adds one way to fail to those of the
    libraries.  Where the Markdown parser returns on the text,
    BeautifulSoup parses and prints what it is given, and highlighting a
    code block never comes to [replace_with(None)] nor raises (no lexer is
    found, or the highlighter's output holds a [div] or a [pre]),
    [convert] returns the article wrapped in the document shell and
    leaves the Markdown parser reset. *)
Theorem convert_returns_and_resets (cv : converter) (markdown_text : string)
  (title : option string) (html0 : string) :
(forall code, highlight_code code = NoLexer \/
              exists new, highlight_code code = Replacement new) ->
(forall html, is_Some (bs_parse html)) ->
(forall soup, is_Some (bs_render soup)) ->
fst (md_convert (md cv) (Preprocess._preprocess_markdown markdown_text))
  = Some html0 ->
exists body,
  fst (convert cv markdown_text title) =
    Some (_wrap_article (theme_css cv) body title) /\
  md (snd (convert cv markdown_text title)) =
    md_reset (snd (md_convert (md cv)
                     (Preprocess._preprocess_markdown markdown_text))) /\
  theme_css (snd (convert cv markdown_text title)) = theme_css cv.
Proof.
intros Hh Hparse Hrender. unfold convert.
destruct (md_convert (md cv) (Preprocess._preprocess_markdown markdown_text))
  as [html md1].
cbn [fst]. intros ->. cbn [and_then].
assert (Hcode : is_Some (_process_code_blocks html0)).
{ unfold _process_code_blocks. destruct (Hparse html0) as [parsed ->].
  destruct (all_some_map_is_Some
              (visit_pre (S (max_depth (List.map (mark true) parsed))))
              (List.map (mark true) parsed)) as [r ->]; [|apply Hrender].
  intros m. apply visit_pre_returns, Hh. }
unfold style_passes. destruct Hcode as [h1 ->]. cbn [and_then].
unfold _process_images, _process_tables, _apply_wechat_styles, _clean_html.
destruct (restyled_returns (map_soup style_image) h1 Hparse Hrender) as [h2 ->].
cbn [and_then].
destruct (restyled_returns (map_soup style_table) h2 Hparse Hrender) as [h3 ->].
cbn [and_then].
destruct (restyled_returns (map_soup style_structure) h3 Hparse Hrender) as [h4 ->].
cbn [and_then].
destruct (restyled_returns Clean.clean_soup h4 Hparse Hrender) as [h5 ->].
cbn [fst snd]. eexists. repeat split.
Qed.
End Total.

Lemma convert_returns_and_resets_witness :
  exists body,
    fst (convert (new_converter "default") "# title" None) =
      Some (_wrap_article (theme_css (new_converter "default")) body None).
Proof.
  destruct (convert_returns_and_resets (new_converter "default") "# title" None
              "# title")
    as (body & Hbody & _).
  - intros code. left. unfold highlight_code. cbn.
    destruct (code_language (attrs_of code)) as [l|];
      [destruct (PyStr.truthy l)|]; reflexivity.
  - intros html. cbn. eauto.
  - intros soup. cbn. eauto.
  - reflexivity.
  - exists body. exact Hbody.
Defined.

End CodeBlockFacts.

(** ** The styling passes, tag by tag and place by place *)

Module PlacesFacts.
Import Dom Clean Converter Places.

Lemma shape_map_tags f above n : shape (map_tags f above n) = shape n.
Proof.
  revert above.
  induction n as [s|s|name attrs children IH] using node_induction;
    intros above; try reflexivity.
  cbn [map_tags shape]. f_equal. rewrite List.map_map.
  apply List.map_ext_Forall.
  eapply List.Forall_impl; [|exact IH]. intros n Hn. apply Hn.
Qed.

Lemma shape_clean_node n : shape (clean_node n) = shape n.
Proof.
  induction n as [s|s|name attrs children IH] using node_induction;
    try reflexivity.
  cbn [clean_node shape]. f_equal. rewrite List.map_map.
  apply List.map_ext_Forall. exact IH.
Qed.

(** X6. The styling passes and the attribute scrub change attributes only:
    after [_process_images], [_process_tables], [_apply_wechat_styles], the
    inline-code loop of [_process_code_blocks] and [_clean_html] the
    document has the same tags, nested and ordered the same, around the
    same strings. *)
Theorem styling_keeps_shape (soup : list node) :
  List.map shape (map_soup style_image soup) = List.map shape soup /\
  List.map shape (map_soup style_table soup) = List.map shape soup /\
  List.map shape (map_soup style_structure soup) = List.map shape soup /\
  List.map shape (map_soup style_inline_code soup) = List.map shape soup /\
  List.map shape (clean_soup soup) = List.map shape soup.
Proof.
  unfold map_soup, clean_soup. rewrite !List.map_map.
  repeat split; apply List.map_ext; intros n;
    first [apply shape_map_tags | apply shape_clean_node].
Qed.

(** A loop that changes attributes, at a place. *)
Lemma map_tags_plug f c : forall above x,
  List.map (map_tags f above) (plug c x) =
  plug (map_ctx f above c) (List.map (map_tags f (names_above c above)) x).
Proof.
  induction c as [before after|before name attrs inner IH after];
    intros above x; cbn [plug map_ctx names_above].
  - rewrite !List.map_app. reflexivity.
  - rewrite !List.map_app. cbn [List.map map_tags]. rewrite IH. reflexivity.
Qed.

Lemma has_ancestor_names_above name c : forall above,
  has_ancestor name (names_above c above) =
  below name c || has_ancestor name above.
Proof.
  unfold below, has_ancestor.
  induction c as [before after|before nm attrs inner IH after];
    intros above; cbn [names_above ancestors existsb fst]; [reflexivity|].
  rewrite IH. cbn [existsb].
  destruct (String.eqb name nm), (existsb _ (ancestors inner)),
    (existsb _ above); reflexivity.
Qed.

Lemma names_above_parent c : forall above,
  names_above c above =
  match parent_name c with
  | Some p => p :: tl (names_above c above)
  | None => above
  end.
Proof.
  induction c as [before after|before nm attrs inner IH after];
    intros above; cbn [names_above parent_name]; [reflexivity|].
  rewrite IH. destruct (parent_name inner); reflexivity.
Qed.



(** X8. [_apply_wechat_styles] tells nested lists from top-level ones by
    their place: a [ul] or [ol] gets the nested-list style (margins of 8px)
    when some tag above it, at any distance, is an [li], and the top-level
    style (margins of 16px) otherwise; what surrounds it and what it holds
    is styled as it would be anyway. *)
Theorem list_style_by_nesting (c : ctx) (name : string)
    (attrs : gmap string attr_value) (children : list node) :
  name = "ul" \/ name = "ol" ->
  map_soup style_structure (plug c [NTag name attrs children]) =
  plug (map_ctx style_structure [] c)
    [NTag name
       (set_style (if below "li" c then nested_list_style else list_style) attrs)
       (List.map (map_tags style_structure (name :: names_above c [])) children)].
Proof.
  intros Hname. unfold map_soup. rewrite map_tags_plug.
  cbn [List.map map_tags]. do 3 f_equal.
  unfold style_structure. rewrite has_ancestor_names_above.
  replace (has_ancestor "li" []) with false by reflexivity. rewrite orb_false_r.
  destruct Hname; subst name; cbn; destruct (below "li" c); reflexivity.
Qed.

Lemma list_style_by_nesting_witness :
  map_soup style_structure (plug sample_list_place [NTag "ul" ∅ []]) =
  [NTag "ul" (set_style list_style ∅)
     [NTag "li" (set_style li_style ∅)
        [NText "item"; NTag "ul" (set_style nested_list_style ∅) []]]].
Proof.
  rewrite (list_style_by_nesting sample_list_place "ul" ∅ []);
    [reflexivity | left; reflexivity].
Defined.

(** X9. [_process_tables] styles the cells of tables only: a [th] or [td]
    gets the header or the cell style when some tag above it is a [table],
    and keeps its attributes as they are otherwise. *)
Theorem table_cells_styled_in_tables (c : ctx) (name : string)
    (attrs : gmap string attr_value) (children : list node) :
  name = "th" \/ name = "td" ->
  map_soup style_table (plug c [NTag name attrs children]) =
  plug (map_ctx style_table [] c)
    [NTag name
       (if below "table" c
        then set_style (if String.eqb name "th" then th_style else td_style) attrs
        else attrs)
       (List.map (map_tags style_table (name :: names_above c [])) children)].
Proof.
  intros Hname. unfold map_soup. rewrite map_tags_plug.
  cbn [List.map map_tags]. do 3 f_equal.
  unfold style_table. rewrite has_ancestor_names_above.
  replace (has_ancestor "table" []) with false by reflexivity. rewrite orb_false_r.
  destruct Hname; subst name; cbn; destruct (below "table" c); reflexivity.
Qed.

Lemma table_cells_styled_in_tables_witness :
  map_soup style_table (plug (Hole [] []) [NTag "td" ∅ [NText "x"]]) =
  [NTag "td" ∅ [NText "x"]].
Proof.
  rewrite (table_cells_styled_in_tables (Hole [] []) "td" ∅ [NText "x"]);
    [reflexivity | right; reflexivity].
Defined.

(** X10. [_process_images] on an image, wherever it stands: the style is
    set to the image style; [src] is not touched; [data-src] keeps its
    value if the image has one and becomes a copy of [src] otherwise (so it
    stays absent when there is no [src] either); every other attribute is
    kept. *)
Theorem process_images_attrs (c : ctx) (attrs : gmap string attr_value)
    (children : list node) :
  exists attrs',
    map_soup style_image (plug c [NTag "img" attrs children]) =
    plug (map_ctx style_image [] c)
      [NTag "img" attrs'
         (List.map (map_tags style_image ("img" :: names_above c [])) children)] /\
    attrs' !! "style" = Some (AStr img_style) /\
    attrs' !! "src" = attrs !! "src" /\
    attrs' !! "data-src" =
      match attrs !! "data-src" with
      | Some d => Some d
      | None => attrs !! "src"
      end /\
    forall k, k <> "style" -> k <> "data-src" -> attrs' !! k = attrs !! k.
Proof.
  exists (style_image (names_above c []) "img" attrs). split.
  { unfold map_soup. rewrite map_tags_plug. reflexivity. }
  unfold style_image, set_style. cbn [String.eqb Ascii.eqb Bool.eqb].
  cbv iota beta zeta.
  rewrite !lookup_insert_ne by discriminate.
  destruct (attrs !! "src") as [src|] eqn:Hsrc,
           (attrs !! "data-src") as [d|] eqn:Hd;
    repeat split; intros; simplify_map_eq; auto.
Qed.

(** The inline-code loop of [_process_code_blocks] goes by the parent:
    a [code] tag whose parent is a [pre] keeps its attributes, any other
    [code] tag, at the top of the document or below another tag, gets the
    inline-code style. *)
Lemma inline_code_styled_unless_in_pre (c : ctx)
    (attrs : gmap string attr_value) (children : list node) :
  map_soup style_inline_code (plug c [NTag "code" attrs children]) =
  plug (map_ctx style_inline_code [] c)
    [NTag "code"
       (if bool_decide (parent_name c = Some "pre") then attrs
        else set_style inline_code_style attrs)
       (List.map (map_tags style_inline_code ("code" :: names_above c [])) children)].
Proof.
  unfold map_soup. rewrite map_tags_plug.
  cbn [List.map map_tags]. do 3 f_equal.
  unfold style_inline_code. cbn [String.eqb Ascii.eqb Bool.eqb]. cbv iota.
  rewrite names_above_parent.
  destruct (parent_name c) as [p|].
  - destruct (String.eqb_spec p "pre") as [->|Hne].
    + rewrite bool_decide_eq_true_2; reflexivity.
    + rewrite bool_decide_eq_false_2; [reflexivity | congruence].
  - rewrite bool_decide_eq_false_2; [reflexivity | discriminate].
Qed.

End PlacesFacts.

(** ** Token cache, requests and failures *)

Module ApiFacts.
Import Json Api TraceFacts TokenFacts RetryFacts Operations.

(** What the memory and file checks leave alone. *)
Lemma memory_hit_quiet force w :
  let w' := snd (memory_hit force w) in
  trace w' = trace w /\ requests_made w' = requests_made w /\
  env w' = env w /\ token_file w' = token_file w /\
  _access_token w' = _access_token w /\ _expires_at w' = _expires_at w /\
  appid w' = appid w /\ appsecret w' = appsecret w /\
  config_appid w' = config_appid w /\ jitter_reads w' = jitter_reads w.
Proof.
  destruct (memory_hit_cases force w) as [(n & _ & E)|(tok & _ & _ & E)];
    rewrite E; cbn; repeat split.
Qed.

Lemma file_hit_quiet force w :
  let w' := snd (file_hit force w) in
  trace w' = trace w /\ requests_made w' = requests_made w /\
  env w' = env w /\ token_file w' = token_file w /\
  appid w' = appid w /\ appsecret w' = appsecret w /\
  config_appid w' = config_appid w /\ jitter_reads w' = jitter_reads w.
Proof.
  unfold file_hit, bind, get, ret, raise, time_time, get_cached_token, modify.
  destruct force; [cbn; repeat split|].
  cbn beta iota.
  destruct (token_file w) as [d|] eqn:Hd; [|cbn; rewrite ?Hd; repeat split].
  destruct (jtruthy (JObj d) && eq_str (get_none d "appid") (appid w));
    [|cbn; rewrite ?Hd; repeat split].
  cbn.
  destruct (as_number (get_default d "expires_at" (JInt 0))) as [z|];
    [|cbn; rewrite ?Hd; repeat split].
  destruct (time_lt _ z); [|cbn; rewrite ?Hd; repeat split].
  destruct (d !! "access_token"); [|cbn; rewrite ?Hd; repeat split].
  cbn. destruct (d !! "expires_at"); cbn; rewrite ?Hd; repeat split.
Qed.

Lemma fetch_token_quiet w :
  let w' := snd (_fetch_token w) in
  env w' = env w /\ appid w' = appid w /\ appsecret w' = appsecret w /\
  config_appid w' = config_appid w /\ jitter_reads w' = jitter_reads w.
Proof.
  unfold _fetch_token, network_error_wrapped, bind, get, send,
    raise_for_status, response_json, save_token, modify, time_time, ret, raise.
  cbn beta iota.
  destruct (server (env w) (requests_made w)) as [msg|[herr bd]];
    [cbn; repeat split|].
  cbn. destruct herr; [cbn; repeat split|].
  destruct bd as [msg|data]; [cbn; repeat split|]. cbn.
  destruct (data !! "access_token"); cbn; [|repeat split].
  destruct (as_number (get_default data "expires_in" (JInt 7200)));
    cbn; repeat split.
Qed.

(** The three ways [get_token] ends: served from a cache without a
    request; stopped by a malformed token file; or the exchange, run from a
    state that differs from the first by readings of the clock only. *)
Lemma get_token_cases force w :
  forall r w', get_token force w = (r, w') ->
  (exists tok, r = Ok tok /\ force = false /\
               requests_made w' = requests_made w /\ trace w' = trace w /\
               token_file w' = token_file w /\
               _access_token w' = Some tok) \/
  (exists e, r = Raise e /\ force = false /\
             requests_made w' = requests_made w /\ trace w' = trace w /\
             token_file w' = token_file w) \/
  (exists n, clock_reads w <= n /\
             _fetch_token (set_clock_reads n w) = (r, w')).
Proof.
  intros r w'. unfold get_token, bind.
  destruct (memory_hit_cases force w) as [(n & Hn & Em)|(tok & Htok & _ & Em)];
    rewrite Em.
  - destruct (file_hit_cases force w n Hn)
      as [(n' & Hn' & Ef)|[(e & w2 & Ef)|(tok & z & _ & Ef)]].
    + rewrite Ef. intros E. right. right. exists n'. split; [lia | exact E].
    + pose proof (file_hit_quiet force (set_clock_reads n w)) as Hq.
      rewrite Ef in *. cbn [snd] in Hq. intros [= <- <-].
      right. left. exists e. destruct force.
      { unfold file_hit in Ef. discriminate Ef. }
      repeat split; apply Hq.
    + rewrite Ef. unfold ret. intros [= <- <-].
      left. exists tok. destruct force.
      { unfold file_hit in Ef. discriminate Ef. }
      repeat split.
  - unfold ret. intros [= <- <-]. left. exists tok. destruct force.
    { unfold memory_hit, bind, get, ret in Em. discriminate Em. }
    repeat split. exact Htok.
Qed.

Lemma get_token_quiet force w :
  let w' := snd (get_token force w) in
  env w' = env w /\ appid w' = appid w /\ appsecret w' = appsecret w /\
  config_appid w' = config_appid w /\ jitter_reads w' = jitter_reads w.
Proof.
  unfold get_token, bind.
  pose proof (memory_hit_quiet force w) as Hm.
  destruct (memory_hit force w) as [[[tok|]|e] w1]; cbn [snd] in *;
    try (unfold ret; cbn [snd]; intuition congruence).
  pose proof (file_hit_quiet force w1) as Hf.
  destruct (file_hit force w1) as [[[tok|]|e] w2]; cbn [snd] in *;
    try (unfold ret; cbn [snd]; intuition congruence).
  pose proof (fetch_token_quiet w2) as Hx. cbv zeta in Hx.
  intuition congruence.
Qed.

Lemma exchange_grants_same w tok ttl tok' ttl' :
  exchange_grants w tok ttl -> exchange_grants w tok' ttl' -> tok = tok'.
Proof.
  intros (resp & data & H1 & _ & H2 & H3 & _)
         (resp' & data' & H1' & _ & H2' & H3' & _). congruence.
Qed.

(** X11. [get_token] sends at most one request, whatever is cached and
    whatever it is asked: nothing, or the credential exchange that carries
    the client's [appid] and [appsecret].  With [force_refresh] it is the
    exchange, the caches not being looked at.  When the exchange is made, a
    token is returned exactly when the server grants one, that token. *)
Theorem get_token_at_most_one_exchange (force_refresh : bool) (w : world) :
  exists r w',
    get_token force_refresh w = (r, w') /\
    ((force_refresh = false /\
      trace w' = trace w /\ requests_made w' = requests_made w) \/
     (trace w' = trace w ++ [EvRequest (exchange_request w)] /\
      requests_made w' = S (requests_made w) /\
      forall tok, r = Ok tok <-> exists ttl, exchange_grants w tok ttl)).
Proof.
  destruct (get_token force_refresh w) as [r w'] eqn:E.
  exists r, w'. split; [reflexivity|].
  destruct (get_token_cases _ _ _ _ E)
    as [(tok & _ & Hf & Hr & Ht & _)|[(e & _ & Hf & Hr & Ht & _)|(n & _ & Ef)]];
    [left; auto | left; auto | right].
  destruct (fetch_token_run (set_clock_reads n w))
    as (r' & w'' & Ef' & Hr & Ht & _ & Hres).
  rewrite Ef in Ef'. injection Ef' as <- <-.
  split; [exact Ht|]. split; [exact Hr|].
  intros tok. split.
  - intros ->. destruct Hres as (ttl & Hg & _). exists ttl. exact Hg.
  - intros (ttl & Hg). destruct r as [tok'|e].
    + destruct Hres as (ttl' & Hg' & _).
      change (exchange_grants w tok' ttl') in Hg'.
      rewrite (exchange_grants_same _ _ _ _ _ Hg Hg'). reflexivity.
    + exfalso. exact (Hres _ _ Hg).
Qed.

(** X12. A token [get_token] has returned is served again from memory: as
    long as the clock reads less than the expiry kept with it, the next
    [get_token()] returns the same token and does nothing but read the
    clock once; no request is sent and the token file is not touched. *)
Theorem get_token_reuses_token (force_refresh : bool) (w w1 : world) (tok : jval) :
  get_token force_refresh w = (Ok tok, w1) ->
  jtruthy tok = true ->
  (time_at w1 (clock_reads w1) < inject_Z (_expires_at w1))%Q ->
  get_token false w1 = (Ok tok, set_clock_reads (S (clock_reads w1)) w1).
Proof.
  intros E Htruthy Hlt.
  assert (Hmem : _access_token w1 = Some tok).
  { destruct (get_token_cases _ _ _ _ E)
      as [(tok' & [= <-] & _ & _ & _ & _ & H)|[(e & [=] & _)|(n & _ & Ef)]];
      [exact H|].
    destruct (fetch_token_run (set_clock_reads n w)) as (r' & w'' & Ef' & _ & _ & _ & Hres).
    rewrite Ef in Ef'. injection Ef' as <- <-.
    destruct Hres as (ttl & _ & H & _). exact H. }
  apply time_lt_true in Hlt.
  unfold get_token, memory_hit, bind, get, ret, time_time. cbn beta iota.
  rewrite Hmem, Htruthy. cbn. unfold time_at in Hlt. rewrite Hlt. reflexivity.
Qed.

Lemma get_token_reuses_token_witness :
  let w1 := snd (get_token false (fresh_world (fun _ => token_response "T" 7200))) in
  get_token false w1 = (Ok (JStr "T"), set_clock_reads (S (clock_reads w1)) w1).
Proof.
  apply (get_token_reuses_token false
           (fresh_world (fun _ => token_response "T" 7200))).
  - vm_compute. reflexivity.
  - reflexivity.
  - vm_compute. reflexivity.
Defined.

(** X13. The token file carries a token over a restart.  After a successful
    exchange by a client whose [appid] is the configured one, a new process
    that finds the file left behind, and whose clock still reads less than
    the [expires_at] written in it, gets the same token from [get_token()]
    without sending a request; the token and that expiry are then in its
    memory. *)
Theorem saved_token_survives_restart (w w1 : world) (tok : jval) :
  _fetch_token w = (Ok tok, w1) ->
  config_appid w = Some (appid w) ->
  exists z,
    token_file w1 ≫= (.!! "expires_at") = Some (JInt z) /\
    ((time_at w1 (clock_reads w1) < inject_Z z)%Q ->
     get_token false (restarted w1) =
     (Ok tok,
      set_expires_at z
        (set_access_token (Some tok) (set_clock_reads (S (clock_reads w1)) w1)))).
Proof.
  intros Ef Hcfg.
  pose proof (fetch_token_quiet w) as Hq. rewrite Ef in Hq. cbn [snd] in Hq.
  destruct Hq as (_ & Happ & _).
  destruct (fetch_token_run w) as (r' & w'' & Ef' & _ & _ & _ & Hres).
  rewrite Ef in Ef'. injection Ef' as <- <-.
  destruct Hres as (ttl & _ & _ & _ & Hfile & _).
  eexists. split.
  - rewrite Hfile. cbn. unfold token_data. by simplify_map_eq.
  - intros Hlt. apply time_lt_true in Hlt.
    unfold get_token, memory_hit, file_hit, bind, get, ret, get_cached_token,
      time_time, modify, restarted.
    cbn beta iota.
    cbn [_access_token set_expires_at set_access_token token_file appid].
    rewrite Hfile, Hcfg, Happ. unfold token_data at 1 2.
    replace (jtruthy (JObj _)) with true.
    2:{ symmetry. unfold jtruthy.
        destruct (map_to_list _) eqn:El; [|reflexivity].
        apply map_to_list_empty_iff in El.
        apply (f_equal (fun m => m !! "appid")) in El.
        rewrite lookup_insert_eq, lookup_empty in El. discriminate El. }
    unfold get_none, get_default. simplify_map_eq.
    cbn [option_jstr eq_str]. rewrite String.eqb_refl. cbn.
    unfold time_at in *. rewrite Hlt. destruct w1; reflexivity.
Qed.

Lemma saved_token_survives_restart_witness :
  exists z w3,
    get_token false
      (restarted (snd (_fetch_token (fresh_world (fun _ => token_response "T" 7200)))))
    = (Ok (JStr "T"), w3) /\ _expires_at w3 = z /\ requests_made w3 = 1.
Proof.
  destruct (saved_token_survives_restart
              (fresh_world (fun _ => token_response "T" 7200))
              (snd (_fetch_token (fresh_world (fun _ => token_response "T" 7200))))
              (JStr "T")) as (z & Hz & Hget).
  - vm_compute. reflexivity.
  - reflexivity.
  - vm_compute in Hz. injection Hz as <-.
    eexists _, _. split; [apply Hget; vm_compute; reflexivity|].
    split; reflexivity.
Defined.

(** X14. The token file is written under the configured [appid], not the
    client's.  When the two differ (a client built with an explicit
    [appid]), the file a successful exchange leaves is of no use to the next
    process: its [get_token()] makes the credential exchange again, however
    fresh the file is. *)
Theorem saved_token_of_other_appid_refetched (w w1 : world) (tok : jval) :
  _fetch_token w = (Ok tok, w1) ->
  config_appid w <> Some (appid w) ->
  exists r w2,
    get_token false (restarted w1) = (r, w2) /\
    requests_made w2 = S (requests_made w1) /\
    trace w2 = trace w1 ++ [EvRequest (exchange_request w)].
Proof.
  intros Ef Hcfg.
  pose proof (fetch_token_quiet w) as Hq. rewrite Ef in Hq. cbn [snd] in Hq.
  destruct Hq as (_ & Happ & Hsec & _).
  destruct (fetch_token_run w) as (r' & w'' & Ef' & _ & _ & _ & Hres).
  rewrite Ef in Ef'. injection Ef' as <- <-.
  destruct Hres as (ttl & _ & _ & _ & Hfile & _).
  assert (Eg : get_token false (restarted w1) = _fetch_token (restarted w1)).
  { unfold get_token, memory_hit, file_hit, bind, get, ret, get_cached_token,
      restarted.
    cbn beta iota.
    cbn [_access_token set_expires_at set_access_token token_file appid].
    rewrite Hfile, Happ. unfold get_none, get_default, token_data.
    simplify_map_eq.
    replace (eq_str (option_jstr (config_appid w)) (appid w)) with false.
    { rewrite andb_false_r. reflexivity. }
    symmetry. destruct (config_appid w) as [a|]; [|reflexivity].
    cbn. apply String.eqb_neq. congruence. }
  destruct (fetch_token_run (restarted w1)) as (r & w2 & Ef2 & Hr & Ht & _).
  exists r, w2. rewrite Eg. split; [exact Ef2|]. split; [exact Hr|].
  rewrite Ht. unfold exchange_request, restarted. cbn. rewrite Happ, Hsec.
  reflexivity.
Qed.

Lemma saved_token_of_other_appid_refetched_witness :
  exists r w2,
    get_token false
      (restarted (snd (_fetch_token (foreign_world (fun _ => token_response "T" 7200)))))
    = (r, w2) /\ requests_made w2 = 2.
Proof.
  destruct (saved_token_of_other_appid_refetched
              (foreign_world (fun _ => token_response "T" 7200))
              (snd (_fetch_token (foreign_world (fun _ => token_response "T" 7200))))
              (JStr "T")) as (r & w2 & Hget & Hr & _).
  - vm_compute. reflexivity.
  - discriminate.
  - exists r, w2. split; [exact Hget | exact Hr].
Defined.

(** X15. [clear_cache] empties both caches, so that the next [get_token],
    asked to refresh or not and whatever the clock reads, makes the
    credential exchange: after the call nothing is held in memory, there is
    no token file, and the next call sends exactly one request. *)
Theorem clear_cache_forces_exchange (force_refresh : bool) (w : world) :
  let w1 := snd (clear_cache w) in
  _access_token w1 = None /\ _expires_at w1 = 0%Z /\ token_file w1 = None /\
  exists r w2,
    get_token force_refresh w1 = (r, w2) /\
    requests_made w2 = S (requests_made w) /\
    trace w2 = trace w ++ [EvClearCache; EvRequest (exchange_request w)] /\
    (forall tok, r = Ok tok <-> exists ttl, exchange_grants w tok ttl).
Proof.
  cbv zeta. split; [reflexivity|]. split; [reflexivity|]. split; [reflexivity|].
  assert (Eg : get_token force_refresh (snd (clear_cache w))
               = _fetch_token (snd (clear_cache w))).
  { destruct force_refresh; reflexivity. }
  destruct (fetch_token_run (snd (clear_cache w))) as (r & w2 & Ef & Hr & Ht & _ & Hres).
  exists r, w2. rewrite Eg. split; [exact Ef|]. split; [exact Hr|]. split.
  - rewrite Ht. cbn. rewrite <- app_assoc. reflexivity.
  - intros tok. split.
    + intros ->. destruct Hres as (ttl & Hg & _). exists ttl. exact Hg.
    + intros (ttl & Hg). destruct r as [tok'|e].
      * destruct Hres as (ttl' & Hg' & _).
        change (exchange_grants w tok' ttl') in Hg'.
        rewrite (exchange_grants_same _ _ _ _ _ Hg Hg'). reflexivity.
      * exfalso. exact (Hres _ _ Hg).
Qed.

(** X16. An exchange that yields no token raises a [WeChatAPIError] and
    leaves the caches as they were.  When the transport fails (no
    connection, an HTTP error status, a body that is not JSON) the code is
    -1 and the message is [Network error: ] followed by the failure's;
    when the answer has no [access_token] the code and the message are the
    answer's, -1 and [Unknown error] where it has none. *)
Theorem fetch_token_failure (w : world) (e : exn) :
  exchange_refused w e ->
  exists w', _fetch_token w = (Raise e, w') /\
             _access_token w' = _access_token w /\
             _expires_at w' = _expires_at w /\
             token_file w' = token_file w /\
             clock_reads w' = clock_reads w.
Proof.
  intros [(msg & Hfail & ->)|(data & (resp & Hs & He & Hb) & Hno & ->)].
  - revert Hfail. unfold transport_fails, _fetch_token, network_error_wrapped,
      bind, get, send, raise_for_status, response_json, raise, network_error.
    cbn beta iota.
    destruct (server (env w) (requests_made w)) as [m|[herr bd]].
    + intros ->. eexists. split; [reflexivity|]. repeat split.
    + cbn. destruct herr as [m|].
      * intros ->. eexists. split; [reflexivity|]. repeat split.
      * intros ->. eexists. split; [reflexivity|]. repeat split.
  - unfold _fetch_token, network_error_wrapped,
      bind, get, send, raise_for_status, response_json, raise, ret.
    cbn beta iota. rewrite Hs, He, Hb. cbn. rewrite Hno.
    eexists. split; [reflexivity|]. repeat split.
Qed.

Lemma fetch_token_failure_witness :
  exists w',
    _fetch_token (fresh_world (fun _ => error_response 40164 "invalid ip"))
    = (Raise (WeChatAPIError (JInt 40164) (JStr "invalid ip")), w') /\
    token_file w' = None.
Proof.
  destruct (fetch_token_failure
              (fresh_world (fun _ => error_response 40164 "invalid ip"))
              (WeChatAPIError (JInt 40164) (JStr "invalid ip")))
    as (w' & Hrun & _ & _ & Hfile & _).
  - right. eexists. split; [eexists; repeat split; reflexivity|].
    split; reflexivity.
  - exists w'. split; [exact Hrun | exact Hfile].
Defined.

(** One run of [_request] up to the first answer. *)
Lemma request_unfold method endpoint params json w w1 tok :
  get_token false w = (Ok tok, w1) ->
  _request method endpoint params json w =
  let params1 := <["access_token" := tok]> params in
  match server (env w1) (requests_made w1) with
  | ConnectionError msg =>
      (Raise (network_error msg),
       sent (api_request method endpoint params json tok) w1)
  | Response resp =>
      network_error_wrapped
        (raise_for_status resp;;
         do data <- response_json resp;
         let errcode := get_default data "errcode" (JInt 0) in
         if negb (eq_int errcode 0) then
           do retried <-
             (if eq_int errcode 40001 then
                clear_cache;;
                do tok <- _get_access_token;
                let params := <["access_token" := tok]> params1 in
                do response <- send {| rq_method := method;
                                       rq_url := (API_BASE ++ endpoint)%string;
                                       rq_params := params; rq_json := json;
                                       rq_file := None |};
                do data <- response_json response;
                ret (data, get_default data "errcode" (JInt 0))
              else ret (data, errcode));
           let '(data, errcode) := retried in
           if negb (eq_int errcode 0) then
             raise (WeChatAPIError errcode
                      (get_default data "errmsg" (JStr "Unknown error")))
           else ret data
         else ret data)
        (sent (api_request method endpoint params json tok) w1)
  end.
Proof.
  intros Htok. unfold _request, _get_access_token. unfold bind at 1.
  rewrite Htok. unfold network_error_wrapped. unfold bind at 1, send at 1.
  fold (api_request method endpoint params json tok).
  fold (sent (api_request method endpoint params json tok) w1).
  destruct (server (env w1) (requests_made w1)); reflexivity.
Qed.

(** X17. An answer whose code is not 40001 ends [_request] at once.  With
    the code 0, or none, the answer is returned; with any other code a
    [WeChatAPIError] carrying it and the answer's message ([Unknown error]
    where it has none) is raised.  Either way one request has been sent and
    nothing else has changed: the token cache is not cleared. *)
Theorem request_other_code_final
    (method : http_method) (endpoint : string) (params : gmap string jval)
    (json : option jval) (w w1 : world) (tok : jval) (data : gmap string jval) :
  get_token false w = (Ok tok, w1) ->
  answers w1 data ->
  eq_int (get_default data "errcode" (JInt 0)) 40001 = false ->
  _request method endpoint params json w =
  ((if eq_int (get_default data "errcode" (JInt 0)) 0 then Ok data
    else Raise (WeChatAPIError (get_default data "errcode" (JInt 0))
                  (get_default data "errmsg" (JStr "Unknown error")))),
   sent (api_request method endpoint params json tok) w1).
Proof.
  intros Htok (resp & Hs & He & Hb) Hcode.
  rewrite (request_unfold _ _ _ _ _ _ _ Htok), Hs.
  unfold network_error_wrapped, bind, raise_for_status, response_json, ret, raise.
  rewrite He, Hb. cbv iota beta. rewrite Hcode.
  destruct (eq_int (get_default data "errcode" (JInt 0)) 0); reflexivity.
Qed.

Lemma request_other_code_final_witness :
  exists w',
    get_draft_count (fresh_world busy_server)
    = (Raise (WeChatAPIError (JInt 45009) (JStr "busy")), w') /\
    requests_made w' = 2 /\ clears (trace w') = 0.
Proof.
  eexists. split.
  - unfold get_draft_count.
    rewrite (request_other_code_final GET "/draft/count" ∅ None
               (fresh_world busy_server)
               (snd (get_token false (fresh_world busy_server))) (JStr "T")
               (<["errmsg" := JStr "busy"]> (<["errcode" := JInt 45009]> ∅)));
      [reflexivity | vm_compute; reflexivity
      | eexists; repeat split; reflexivity | reflexivity].
  - split; reflexivity.
Defined.

Lemma request_fails_on_transport method endpoint params json w w1 tok msg :
  get_token false w = (Ok tok, w1) ->
  transport_fails w1 msg ->
  _request method endpoint params json w =
  (Raise (network_error msg),
   sent (api_request method endpoint params json tok) w1).
Proof.
  intros Htok Hfail. rewrite (request_unfold _ _ _ _ _ _ _ Htok).
  unfold transport_fails in Hfail. cbv zeta.
  destruct (server (env w1) (requests_made w1)) as [m|resp]; [subst m; reflexivity|].
  unfold network_error_wrapped, bind, raise_for_status, response_json, raise.
  destruct (http_error resp) as [m|]; [subst m; reflexivity|].
  rewrite Hfail. reflexivity.
Qed.

(** X18. A transport failure on the request (no connection, an HTTP error
    status, a body that is not JSON) makes [_request] raise
    [WeChatAPIError(-1, "Network error: ...")] after that one request; and
    [add_draft] does not retry it: -1 is not in the whitelist of the retry
    policy, so the error is raised after one request to the draft
    endpoint, without a wait. *)
Theorem transport_failure_not_retried
    (method : http_method) (endpoint : string) (params : gmap string jval)
    (json : option jval)
    (title content author digest content_source_url thumb_media_id : string)
    (need_open_comment only_fans_can_comment : Z)
    (w w1 : world) (tok : jval) (msg : string) :
  get_token false w = (Ok tok, w1) ->
  transport_fails w1 msg ->
  _request method endpoint params json w =
  (Raise (network_error msg),
   sent (api_request method endpoint params json tok) w1) /\
  add_draft title content author digest content_source_url thumb_media_id
    need_open_comment only_fans_can_comment w =
  (Raise (network_error msg),
   sent (api_request POST "/draft/add" ∅
           (Some (draft_payload title content author digest content_source_url
                    thumb_media_id need_open_comment only_fans_can_comment))
           tok) w1).
Proof.
  intros Htok Hfail. split; [exact (request_fails_on_transport _ _ _ _ _ _ _ _ Htok Hfail)|].
  unfold add_draft, retry_on_error.
  change (Z.to_nat (3 + 1)) with 4. cbn [retry_loop].
  unfold add_draft_body. unfold bind at 1.
  rewrite (request_fails_on_transport _ _ _ _ _ _ _ _ Htok Hfail).
  reflexivity.
Qed.

Lemma transport_failure_not_retried_witness :
  exists w',
    add_draft "title" "content" "" "" "" "" 0 0 (fresh_world unreachable_server)
    = (Raise (network_error "refused"), w') /\
    requests_made w' = 2 /\ sleeps (trace w') = [].
Proof.
  eexists. split.
  - apply (transport_failure_not_retried POST "/draft/add" ∅ None
             "title" "content" "" "" "" "" 0 0
             (fresh_world unreachable_server)
             (snd (get_token false (fresh_world unreachable_server))) (JStr "T")).
    + vm_compute. reflexivity.
    + reflexivity.
  - split; reflexivity.
Defined.

Lemma request_code_zero method endpoint params json w w' data :
  _request method endpoint params json w = (Ok data, w') ->
  eq_int (get_default data "errcode" (JInt 0)) 0 = true.
Proof.
  destruct (get_token false w) as [[tok|e] w1] eqn:Htok.
  2:{ unfold _request, _get_access_token. unfold bind at 1. rewrite Htok.
      discriminate. }
  rewrite (request_unfold _ _ _ _ _ _ _ Htok). cbv zeta.
  destruct (server (env w1) (requests_made w1)) as [m|resp]; [discriminate|].
  unfold network_error_wrapped, raise_for_status, response_json.
  unfold bind at 1.
  destruct (http_error resp); [discriminate|]. unfold ret at 1.
  unfold bind at 1.
  destruct (resp_body resp) as [m|data1]; [discriminate|].
  unfold ret at 1. cbv iota beta.
  destruct (eq_int (get_default data1 "errcode" (JInt 0)) 0) eqn:Hc1;
    cbn [negb]; cbv iota.
  { unfold ret. intros [= <- _]. exact Hc1. }
  unfold bind at 1.
  destruct (eq_int (get_default data1 "errcode" (JInt 0)) 40001).
  2:{ unfold ret at 1. cbv iota beta. rewrite Hc1. discriminate. }
  unfold bind at 1.
  destruct (clear_cache _) as [[[]|e] wa]; [|destruct e; discriminate].
  unfold bind at 1, _get_access_token.
  destruct (get_token false wa) as [[tok2|e] wb];
    [|destruct e; discriminate].
  unfold bind at 1.
  destruct (send _ wb) as [[resp2|e] wc]; [|destruct e; discriminate].
  unfold bind at 1.
  destruct (resp_body resp2) as [m|data2]; [discriminate|].
  unfold ret at 1 2. cbv iota beta.
  destruct (eq_int (get_default data2 "errcode" (JInt 0)) 0) eqn:Hc2;
    cbn [negb]; cbv iota.
  - unfold ret. intros [= <- _]. exact Hc2.
  - discriminate.
Qed.

(** X19. What [_request] returns never carries an error: the [errcode] of a
    returned answer is 0, or the answer has none.  An answer with any other
    code, on the first send or on the resend after 40001, is raised. *)
Theorem request_returns_code_zero
    (method : http_method) (endpoint : string) (params : gmap string jval)
    (json : option jval) (w w' : world) (data : gmap string jval) :
  _request method endpoint params json w = (Ok data, w') ->
  eq_int (get_default data "errcode" (JInt 0)) 0 = true.
Proof. apply request_code_zero. Qed.

Lemma request_returns_code_zero_witness :
  eq_int (get_default (∅ : gmap string jval) "errcode" (JInt 0)) 0 = true.
Proof.
  apply (request_returns_code_zero POST "/draft/get"
           (<["media_id" := JStr "m"]> ∅) None
           (fresh_world terse_server)
           (snd (get_draft "m" (fresh_world terse_server)))).
  vm_compute. reflexivity.
Defined.

(** The two operations that answer with a flag. *)
Lemma flag_of_request endpoint json w b w' :
  (do result <- _request POST endpoint ∅ json;
   ret (eq_int (get_none result "errcode") 0)) w = (Ok b, w') ->
  exists data,
    _request POST endpoint ∅ json w = (Ok data, w') /\
    (b = true <-> is_Some (data !! "errcode")).
Proof.
  unfold bind.
  destruct (_request POST endpoint ∅ json w) as [[data|e] w1] eqn:Er;
    [|discriminate].
  unfold ret. intros [= <- <-]. exists data. split; [reflexivity|].
  pose proof (request_code_zero _ _ _ _ _ _ _ Er) as Hz.
  unfold get_none, get_default in *.
  destruct (data !! "errcode") as [v|].
  - rewrite Hz. split; [eauto | reflexivity].
  - cbn. split; [discriminate | intros [v Hv]; discriminate Hv].
Qed.

(** X20. The flag [delete_draft] and [update_draft] return tells whether
    the answer reports a code, not whether the operation succeeded: failures
    are raised by [_request], so the answer behind a returned flag has the
    code 0 or none, and the flag is [True] exactly when the answer has an
    [errcode] field.  An answer without one gives [False]. *)
Theorem draft_flag_true_iff_code_reported
    (media_id : string) (index : Z) (article : gmap string jval)
    (w w' : world) (b : bool) :
  delete_draft media_id w = (Ok b, w') \/
  update_draft media_id index article w = (Ok b, w') ->
  exists endpoint json data,
    _request POST endpoint ∅ json w = (Ok data, w') /\
    eq_int (get_default data "errcode" (JInt 0)) 0 = true /\
    (b = true <-> is_Some (data !! "errcode")).
Proof.
  intros [H|H]; apply flag_of_request in H as (data & Hr & Hb);
    eexists _, _, data; (split; [exact Hr|]);
    (split; [exact (request_code_zero _ _ _ _ _ _ _ Hr) | exact Hb]).
Qed.

Lemma draft_flag_true_iff_code_reported_witness :
  exists w', delete_draft "m" (fresh_world terse_server) = (Ok false, w').
Proof.
  exists (snd (delete_draft "m" (fresh_world terse_server))).
  assert (H : delete_draft "m" (fresh_world terse_server)
              = (Ok false, snd (delete_draft "m" (fresh_world terse_server)))).
  { vm_compute. reflexivity. }
  destruct (draft_flag_true_iff_code_reported "m" 0 ∅ _ _ _ (or_introl H))
    as (endpoint & json & data & _ & _ & _).
  exact H.
Defined.

(** X21. [list_drafts] never asks for more than 20 drafts: whatever [count]
    it is given, it posts [min(count, 20)], and every request it sends is a
    credential exchange or that one body posted to [/draft/batchget]. *)
Theorem list_drafts_count_capped (offset count no_content : Z) (w : world) :
  exists c,
    (c <= 20)%Z /\ (c <= count)%Z /\ (c = count \/ c = 20%Z) /\
    only_sends
      (exchange_or "/draft/batchget"
         (Some (JObj (<["no_content" := JInt no_content]>
                        (<["count" := JInt c]>
                           (<["offset" := JInt offset]> ∅))))))
      w (snd (list_drafts offset count no_content w)).
Proof.
  exists (Z.min count 20). split; [lia|]. split; [lia|]. split; [lia|].
  revert w. fold (list_payload offset count no_content).
  change (sends (exchange_or "/draft/batchget"
                   (Some (list_payload offset count no_content)))
            (list_drafts offset count no_content)).
  unfold list_drafts. apply sends_bind; [apply request_sends|].
  intros result. apply sends_ret.
Qed.

(** X22. Every run of the retry policy has one shape.  With
    [max_retries >= 0] the function fails at most [max_retries] times with
    whitelisted codes, the process waiting after each failure, and is then
    run once more; the outcome of that last run, which is a result, another
    kind of exception, a code outside the whitelist, or any code once
    [max_retries] retries are used up, is the outcome of the policy: the
    function is run at most [max_retries + 1] times.  With a negative
    [max_retries] the function is not run at all: the loop has no iteration
    and [raise last_exception] raises a [TypeError]. *)
Theorem retry_on_error_shape {A : Type} (max_retries : Z) (backoff_factor : Q)
    (retryable_errors : list Z) (func : M A) (w : world) :
  ((0 <= max_retries)%Z ->
   exists errs w1 r w2,
     failing_attempts func backoff_factor 0 w errs w1 /\
     List.Forall (fun e => retryable retryable_errors (fst e) = true) errs /\
     (Z.of_nat (List.length errs) <= max_retries)%Z /\
     func w1 = (r, w2) /\
     final_outcome retryable_errors max_retries (List.length errs) r /\
     retry_on_error max_retries backoff_factor retryable_errors func w = (r, w2)) /\
  ((max_retries < 0)%Z ->
   retry_on_error max_retries backoff_factor retryable_errors func w =
   (Raise (OtherError "TypeError"), w)).
Proof.
  split.
  - intros Hmax.
    destruct (retry_loop_shape max_retries backoff_factor retryable_errors func
                (Z.to_nat (max_retries + 1)) 0 w)
      as (errs & w1 & r & w2 & Hfa & Hall & Hle & Hf & Hfin); [lia | f_equal; lia|].
    exists errs, w1, r, w2. split; [exact Hfa|]. split; [exact Hall|].
    split; [lia|]. split; [exact Hf|]. split.
    + unfold final_outcome. destruct r as [a|[c m|m|n]]; try exact I.
      destruct Hfin as [H|H]; [left; exact H | right; lia].
    + unfold retry_on_error.
      eapply retry_loop_run; eauto; lia.
  - intros Hneg. unfold retry_on_error.
    replace (Z.to_nat (max_retries + 1)) with 0 by lia. reflexivity.
Qed.

Lemma retry_on_error_shape_witness :
  exists errs w1 r w2,
    failing_attempts (upload_image_body "a.png") 1 0
      (fresh_world busy_server) errs w1 /\
    (Z.of_nat (List.length errs) <= 3)%Z /\
    upload_image "a.png" (fresh_world busy_server) = (r, w2).
Proof.
  destruct (proj1 (retry_on_error_shape 3 1 default_retryable_errors
                     (upload_image_body "a.png") (fresh_world busy_server)))
    as (errs & w1 & r & w2 & Hfa & _ & Hle & _ & _ & Hrun); [lia|].
  exists errs, w1, r, w2. split; [exact Hfa|]. split; [exact Hle | exact Hrun].
Defined.

(** X23. [upload_image] fails at once, without the retry policy coming into
    play, on what is not an API error.  A file that cannot be opened
    raises [OSError] after the token has been obtained and before anything
    is posted.  A transport failure on the upload raises the
    [RequestException] itself, not wrapped in a [WeChatAPIError] as
    [_request] does, after that one post. *)
Theorem upload_image_failure_not_retried
    (image_path : string) (w w1 : world) (tok : jval) :
  get_token false w = (Ok tok, w1) ->
  (can_open (env w) image_path = false ->
   upload_image image_path w = (Raise (OtherError "OSError"), w1)) /\
  (forall msg,
     can_open (env w) image_path = true -> transport_fails w1 msg ->
     upload_image image_path w =
     (Raise (RequestException msg), sent (upload_request image_path tok) w1)).
Proof.
  intros Htok.
  pose proof (get_token_quiet false w) as Hq. rewrite Htok in Hq.
  cbn [snd] in Hq. destruct Hq as (Henv & _).
  assert (Hbody : upload_image_body image_path w =
            (if can_open (env w) image_path then
               (do response <- send (upload_request image_path tok);
                raise_for_status response;;
                do data <- response_json response;
                match data !! "url" with
                | Some u => ret u
                | None =>
                    raise (WeChatAPIError (get_default data "errcode" (JInt (-1)))
                             (get_default data "errmsg" (JStr "Upload failed")))
                end) w1
             else (Raise (OtherError "OSError"), w1))).
  { unfold upload_image_body, _get_access_token. unfold bind at 1.
    rewrite Htok. unfold bind at 1, get. rewrite Henv.
    destruct (can_open (env w) image_path); reflexivity. }
  assert (Hpolicy : forall r w2,
            upload_image_body image_path w = (r, w2) ->
            match r with Raise (WeChatAPIError _ _) => False | _ => True end ->
            upload_image image_path w = (r, w2)).
  { intros r w2 Hr Hkind. unfold upload_image, retry_on_error.
    eapply (retry_loop_run 3 1 default_retryable_errors
              (upload_image_body image_path) 0 w [] w);
      [constructor | lia | constructor | cbn; lia | reflexivity | exact Hr |].
    destruct r as [a|[c m|m|n]]; try exact I. destruct Hkind. }
  split.
  - intros Hopen. apply Hpolicy; [|exact I]. rewrite Hbody, Hopen. reflexivity.
  - intros msg Hopen Hfail. apply Hpolicy; [|exact I]. rewrite Hbody, Hopen.
    unfold bind at 1, send at 1.
    fold (sent (upload_request image_path tok) w1).
    unfold transport_fails in Hfail.
    destruct (server (env w1) (requests_made w1)) as [m|resp];
      [subst m; reflexivity|].
    unfold bind, raise_for_status, response_json, raise.
    destruct (http_error resp) as [m|]; [subst m; reflexivity|].
    rewrite Hfail. reflexivity.
Qed.

Lemma upload_image_failure_not_retried_witness :
  exists w',
    upload_image "a.png" (fresh_world unreachable_server)
    = (Raise (RequestException "refused"), w') /\
    requests_made w' = 2 /\ sleeps (trace w') = [].
Proof.
  eexists. split.
  - apply (upload_image_failure_not_retried "a.png"
             (fresh_world unreachable_server)
             (snd (get_token false (fresh_world unreachable_server))) (JStr "T")).
    + vm_compute. reflexivity.
    + reflexivity.
    + reflexivity.
  - split; reflexivity.
Defined.

Lemma get_token_sends_token_or req :
  sends (token_or req) (get_token false).
Proof.
  eapply sends_weaken; [|apply get_token_sends]. intros r Hr. left. exact Hr.
Qed.

(** X24. No request leaves without a token, and the secret goes to the
    token endpoint only.  Every request [_request], [upload_image] and
    [add_draft] send, resends and retries included, is either a credential
    exchange or the one request of the operation: its URL, method, body
    and file, and the caller's parameters with [access_token] set. *)
Theorem api_requests_carry_token :
  (forall method endpoint params json,
     sends (token_or (api_request method endpoint params json))
       (_request method endpoint params json)) /\
  (forall image_path,
     sends (token_or (upload_request image_path)) (upload_image image_path)) /\
  (forall title content author digest content_source_url thumb_media_id
          need_open_comment only_fans_can_comment,
     sends (token_or (api_request POST "/draft/add" ∅
                        (Some (draft_payload title content author digest
                                 content_source_url thumb_media_id
                                 need_open_comment only_fans_can_comment))))
       (add_draft title content author digest content_source_url
          thumb_media_id need_open_comment only_fans_can_comment)).
Proof.
  assert (Hreq : forall method endpoint params json,
            sends (token_or (api_request method endpoint params json))
              (_request method endpoint params json)).
  { intros method endpoint params json.
    pose proof (get_token_sends_token_or (api_request method endpoint params json))
      as Htok.
    unfold _request, _get_access_token, raise_for_status, response_json.
    repeat (first [exact Htok | sends_step]);
      apply sends_send; right; eexists; unfold api_request;
      rewrite ?insert_insert_eq; reflexivity. }
  split; [exact Hreq|]. split.
  - intros image_path.
    pose proof (get_token_sends_token_or (upload_request image_path)) as Htok.
    unfold upload_image, retry_on_error. apply retry_loop_sends.
    unfold upload_image_body, _get_access_token, raise_for_status, response_json.
    repeat (first [exact Htok | sends_step]);
      apply sends_send; right; eexists; reflexivity.
  - intros. unfold add_draft, retry_on_error. apply retry_loop_sends.
    unfold add_draft_body. apply sends_bind; [apply Hreq|].
    intros result. apply sends_ret.
Qed.

End ApiFacts.

(** ** The image loop: what it keeps, what it caches *)

Module SourcesFacts.
Import Dom Uploader UploaderFacts Places Sources.

Section Loop.
Context {W : Type} `{Outside W}.
Variable base_path : option string.
Variable remove_failed : bool.

Lemma in_order_fst {X} (g : node -> list X) f l :
List.Forall (fun n => forall r : @run W, flat_map g (fst (f n r)) = g n) l ->
forall r, flat_map g (fst (in_order f l r)) = flat_map g l.
Proof.
induction 1 as [|n l Hn _ IH]; intros r; [reflexivity|].
cbn [in_order flat_map]. specialize (Hn r).
destruct (f n r) as [h1 r1]. specialize (IH r1).
destruct (in_order f l r1) as [h2 r2]. cbn [fst] in *.
rewrite flat_map_app, Hn, IH. reflexivity.
Qed.

Lemma in_order_rel (R : @run W -> @run W -> Prop) f l :
(forall r, R r r) -> (forall a b c, R a b -> R b c -> R a c) ->
List.Forall (fun n => forall r, R r (snd (f n r))) l ->
forall r, R r (snd (in_order f l r)).
Proof.
intros Hrefl Htrans. induction 1 as [|n l Hn _ IH]; intros r; [apply Hrefl|].
cbn [in_order]. specialize (Hn r).
destruct (f n r) as [h1 r1]. specialize (IH r1).
destruct (in_order f l r1) as [h2 r2]. cbn [snd] in *.
eapply Htrans; eassumption.
Qed.

Lemma process_node_rel (R : @run W -> @run W -> Prop) :
(forall r, R r r) -> (forall a b c, R a b -> R b c -> R a c) ->
(forall attrs r, R r (snd (process_img base_path remove_failed attrs r))) ->
forall n r, R r (snd (process_node base_path remove_failed n r)).
Proof.
intros Hrefl Htrans Himg.
induction n as [s|s|name attrs children IH] using node_induction;
  intros r; cbn [process_node]; try apply Hrefl.
pose proof (in_order_rel R _ _ Hrefl Htrans IH) as Hch.
destruct (String.eqb name "img").
- specialize (Himg attrs r).
  destruct (process_img base_path remove_failed attrs r) as [[attrs'|] r1];
    cbn [snd] in *; [|exact Himg].
  specialize (Hch r1).
  destruct (in_order _ children r1) as [h2 r2]. cbn [snd] in *.
  eapply Htrans; eassumption.
- specialize (Hch r).
  destruct (in_order _ children r) as [h2 r2]. exact Hch.
Qed.

Lemma process_soup_rel (R : @run W -> @run W -> Prop) :
(forall r, R r r) -> (forall a b c, R a b -> R b c -> R a c) ->
(forall attrs r, R r (snd (process_img base_path remove_failed attrs r))) ->
forall soup r, R r (snd (process_soup base_path remove_failed soup r)).
Proof.
intros Hrefl Htrans Himg soup. apply in_order_rel; [exact Hrefl | exact Htrans|].
apply List.Forall_forall. intros n _. apply process_node_rel; assumption.
Qed.

Lemma cache_extends_refl pr : cache_extends pr pr.
Proof. split; [reflexivity | repeat split]. Qed.

Lemma cache_extends_trans a b c :
cache_extends a b -> cache_extends b c -> cache_extends a c.
Proof.
intros (H1 & H2 & H3 & H4) (H1' & H2' & H3' & H4').
split; [etrans; eassumption|]. repeat split; congruence.
Qed.

Lemma try_image_cache_extends src pr (w : W) :
cache_extends pr (snd (fst (try_image src base_path pr w))).
Proof.
unfold try_image.
destruct (_resolve_image_path src base_path w) as [image_path w1].
destruct (negb (option_truthy image_path)); [apply cache_extends_refl|].
destruct (_url_cache pr !! _) eqn:Hc; [apply cache_extends_refl|].
destruct (compress_and_upload pr _ w1) as [[u|] w2];
  [|apply cache_extends_refl].
split; [|repeat split]. cbn. apply insert_subseteq. exact Hc.
Qed.

Lemma process_img_cache_extends attrs (r : @run W) :
cache_extends (proc r) (proc (snd (process_img base_path remove_failed attrs r))).
Proof.
unfold process_img.
destruct (negb (PyStr.truthy (get_src attrs))); [apply cache_extends_refl|].
destruct (on_wechat_host (get_src attrs)); [apply cache_extends_refl|].
pose proof (try_image_cache_extends (get_src attrs) (proc r) (outside r)) as Ht.
destruct (try_image _ _ _ _) as [[[| u |] pr'] w']; exact Ht.
Qed.

Lemma process_soup_cache_extends soup (r : @run W) :
cache_extends (proc r) (proc (snd (process_soup base_path remove_failed soup r))).
Proof.
apply (process_soup_rel (fun a b => cache_extends (proc a) (proc b))).
- intros a. apply cache_extends_refl.
- intros a b c. apply cache_extends_trans.
- apply process_img_cache_extends.
Qed.

Lemma flat_map_singleton {A B} (g : A -> B) l :
flat_map (fun x => [g x]) l = List.map g l.
Proof. induction l as [|x l IH]; [reflexivity|]. cbn. rewrite IH. reflexivity. Qed.

Lemma process_node_without_imgs n : forall r : @run W,
flat_map without_imgs (fst (process_node base_path remove_failed n r))
= without_imgs n.
Proof.
induction n as [s|s|name attrs children IH] using node_induction;
  intros r; try reflexivity.
cbn [process_node without_imgs].
destruct (String.eqb name "img") eqn:Hname.
- destruct (process_img base_path remove_failed attrs r) as [[attrs'|] r1];
    [|reflexivity].
  destruct (in_order _ children r1) as [h2 r2]. cbn. rewrite Hname. reflexivity.
- pose proof (in_order_fst without_imgs _ _ IH r) as Hch.
  destruct (in_order _ children r) as [h2 r2]. cbn [fst] in *.
  cbn. rewrite Hname, app_nil_r, Hch. reflexivity.
Qed.

Lemma process_img_kept attrs (r : @run W) :
remove_failed = false ->
is_Some (fst (process_img base_path remove_failed attrs r)).
Proof.
intros ->. unfold process_img.
destruct (negb (PyStr.truthy (get_src attrs))); [eauto|].
destruct (on_wechat_host (get_src attrs)); [eauto|].
destruct (try_image _ _ _ _) as [[[| u |] pr'] w']; cbn; eauto.
Qed.

Lemma process_node_shape n :
remove_failed = false ->
forall r : @run W,
  flat_map (fun x => [shape x]) (fst (process_node base_path remove_failed n r))
  = [shape n].
Proof.
intros Hkeep.
induction n as [s|s|name attrs children IH] using node_induction;
  intros r; try reflexivity.
cbn [process_node shape].
pose proof (in_order_fst (fun x => [shape x]) _ _ IH) as Hch.
destruct (String.eqb name "img").
- destruct (process_img_kept attrs r Hkeep) as [attrs' Hk].
  destruct (process_img base_path remove_failed attrs r) as [o r1].
  cbn [fst] in Hk. subst o. specialize (Hch r1).
  destruct (in_order _ children r1) as [h2 r2]. cbn [fst] in *.
  cbn. rewrite !flat_map_singleton in Hch. rewrite Hch. reflexivity.
- specialize (Hch r).
  destruct (in_order _ children r) as [h2 r2]. cbn [fst] in *.
  cbn. rewrite !flat_map_singleton in Hch. rewrite Hch. reflexivity.
Qed.

Lemma in_order_same f l :
List.Forall (fun n => forall r : @run W, f n r = ([n], r)) l ->
forall r, in_order f l r = (l, r).
Proof.
induction 1 as [|n l Hn _ IH]; intros r; [reflexivity|].
cbn [in_order]. rewrite Hn, IH. reflexivity.
Qed.

Lemma flat_map_nil {A B} (g : A -> list B) l :
flat_map g l = [] -> forall x, In x l -> g x = [].
Proof.
induction l as [|y l IH]; intros Hnil x; [intros []|].
cbn in Hnil. apply app_eq_nil in Hnil as [Hy Hl].
intros [<-|Hin]; [exact Hy | apply IH; assumption].
Qed.

Lemma process_node_same n :
flat_map candidate (tags_of n) = [] ->
forall r : @run W, process_node base_path remove_failed n r = ([n], r).
Proof.
induction n as [s|s|name attrs children IH] using node_induction;
  intros Hc r; try reflexivity.
cbn [tags_of flat_map] in Hc. apply app_eq_nil in Hc as [Hn Hch].
assert (Hsame : in_order (process_node base_path remove_failed) children r
                = (children, r)).
{ apply in_order_same. rewrite List.Forall_forall in IH |- *.
  intros n Hin r'. apply IH; [exact Hin|].
  rewrite flat_map_flat_map in Hch.
  exact (flat_map_nil _ _ Hch n Hin). }
cbn [process_node]. unfold candidate in Hn.
destruct (String.eqb name "img").
- unfold process_img.
  destruct (PyStr.truthy (get_src attrs)); cbn [negb andb] in *;
    [|rewrite Hsame; reflexivity].
  destruct (on_wechat_host (get_src attrs)); cbn [negb] in *;
    [|discriminate Hn].
  rewrite Hsame. reflexivity.
- rewrite Hsame. reflexivity.
Qed.
End Loop.

Section Html.
Context {W : Type} `{Outside W}.
Variable parse : string -> list node.
Variable render : list node -> string.

(** X26. A document in which no image is left to deal with (every [img] has
    no source, an empty one, or one on the platform's hosts) comes back as
    parsed, with two empty lists; the processor and the outside are as
    they were: nothing is resolved, downloaded or uploaded. *)
Theorem process_html_nothing_to_upload (html : string)
  (base_path : option string) (remove_failed : bool) (pr : processor) (w : W) :
candidates (parse html) = [] ->
process_html parse render html base_path remove_failed pr w =
((render (parse html), [], []), pr, w).
Proof.
intros Hc. unfold process_html, process_soup.
rewrite in_order_same; [reflexivity|].
apply List.Forall_forall. intros n Hin. apply process_node_same.
unfold candidates, find_all in Hc. rewrite flat_map_flat_map in Hc.
exact (flat_map_nil _ _ Hc n Hin).
Qed.

(** X27. Whatever the document and whatever fails, [process_html] leaves the
    processor with the settings it had and with a cache that has grown at
    most: every path cached before is still cached, with the same URL. *)
Theorem process_html_cache_grows (html : string)
  (base_path : option string) (remove_failed : bool) (pr : processor) (w : W) :
let pr' := snd (fst (process_html parse render html base_path remove_failed pr w)) in
(forall path url, _url_cache pr !! path = Some url ->
                  _url_cache pr' !! path = Some url) /\
auto_compress pr' = auto_compress pr /\
max_width pr' = max_width pr /\
quality pr' = quality pr.
Proof.
cbv zeta. unfold process_html.
pose proof (process_soup_cache_extends base_path remove_failed (parse html)
              (mk_run pr w [] [])) as Hext.
destruct (process_soup _ _ _ _) as [soup r]. cbn [fst snd proc] in *.
destruct Hext as (Hsub & Hrest). split; [|exact Hrest].
intros path url Hin. eapply lookup_weaken; eassumption.
Qed.

(** X28. [process_html] touches images only.  Apart from the [img]
    elements, the document it prints is the document it parsed: the same
    tags with the same attributes, nested and ordered the same, around the
    same strings.  And when failed images are kept ([remove_failed] unset)
    no element goes: the images are all there, at their places. *)
Theorem process_html_touches_images_only (html : string)
  (base_path : option string) (remove_failed : bool) (pr : processor) (w : W) :
exists soup,
  fst (fst (fst (fst (process_html parse render html base_path remove_failed pr w))))
  = render soup /\
  flat_map without_imgs soup = flat_map without_imgs (parse html) /\
  (remove_failed = false -> List.map shape soup = List.map shape (parse html)).
Proof.
unfold process_html, process_soup.
pose proof (in_order_fst without_imgs
              (process_node base_path remove_failed) (parse html)) as Hw.
pose proof (fun Hk => in_order_fst (fun x => [shape x])
              (process_node base_path remove_failed) (parse html)
              (proj2 (List.Forall_forall _ _)
                 (fun n _ => process_node_shape base_path remove_failed n Hk)))
  as Hs.
specialize (Hw (proj2 (List.Forall_forall _ _)
                  (fun n _ => process_node_without_imgs base_path remove_failed n))
              (mk_run pr w [] [])).
destruct (in_order _ (parse html) _) as [soup r] eqn:E. cbn [fst] in *.
exists soup. split; [reflexivity|]. split; [exact Hw|].
intros Hk. specialize (Hs Hk (mk_run pr w [] [])). rewrite E in Hs.
cbn [fst] in Hs. rewrite !flat_map_singleton in Hs. exact Hs.
Qed.

(** The loop on an [img] whose file is in the cache. *)
Lemma process_cached_img base_path remove_failed attrs pr (w : W) p u :
PyStr.truthy (get_src attrs) = true ->
on_wechat_host (get_src attrs) = false ->
_resolve_image_path (get_src attrs) base_path w = (Some p, w) ->
PyStr.truthy p = true ->
_url_cache pr !! p = Some u ->
forall s0 f0,
  process_soup base_path remove_failed [NTag "img" attrs []] (mk_run pr w s0 f0) =
  ([NTag "img" (<["data-src" := AStr u]> (<["src" := AStr u]> attrs)) []],
   mk_run pr w (s0 ++ [get_src attrs]) (f0 ++ [])).
Proof.
intros Ht Hw Hres Hp Hc s0 f0. unfold process_soup.
cbn [in_order process_node String.eqb Ascii.eqb Bool.eqb].
unfold process_img, try_image. rewrite Ht, Hw. cbn [negb proc outside].
rewrite Hres. cbn [option_truthy]. rewrite Hp. cbn [negb]. rewrite Hc.
cbn [success_list fail_list in_order]. rewrite (app_nil_r f0). reflexivity.
Qed.

(** X29. An image whose file is in the cache costs nothing.  When the source
    of an image resolves, without a download, to a path the processor has
    cached, the image gets the cached URL as [src] and [data-src] and its
    source joins the success list; the rest of the run, the processor and
    the outside at the end are those of the document without the image:
    nothing is compressed or uploaded for it. *)
Theorem process_html_cached_image
  (html html0 : string) (c : ctx) (attrs : gmap string attr_value)
  (base_path : option string) (remove_failed : bool)
  (pr : processor) (w : W) (p u : string) :
let r1 := run_before base_path remove_failed c (mk_run pr w [] []) in
parse html = plug c [NTag "img" attrs []] ->
parse html0 = plug c [] ->
outside_img c ->
PyStr.truthy (get_src attrs) = true ->
on_wechat_host (get_src attrs) = false ->
_resolve_image_path (get_src attrs) base_path (outside r1) = (Some p, outside r1) ->
PyStr.truthy p = true ->
_url_cache (proc r1) !! p = Some u ->
exists c' s1 s2 f pr' w',
  process_html parse render html0 base_path remove_failed pr w
  = ((render (plug c' []), s1 ++ s2, f), pr', w') /\
  process_html parse render html base_path remove_failed pr w
  = ((render (plug c' [NTag "img" (<["data-src" := AStr u]>
                                     (<["src" := AStr u]> attrs)) []]),
      s1 ++ get_src attrs :: s2, f), pr', w').
Proof.
intros r1 Hp Hp0 Hout Ht Hw Hres Hpath Hc. subst r1.
destruct (process_plug base_path remove_failed c Hout pr w)
  as (pr1 & w1 & ds1 & df1 & Hrun & Hrest).
rewrite Hrun in Hres, Hc. cbn [outside proc] in Hres, Hc.
destruct (Hrest pr1 w1) as (c' & pr3 & w3 & ds3 & df3 & _ & Hx).
pose proof (Hx _ _ _ _ (process_cached_img base_path remove_failed attrs
                          pr1 w1 p u Ht Hw Hres Hpath Hc) [] []) as E1.
pose proof (Hx _ _ _ _ (process_soup_nil base_path remove_failed pr1 w1) [] [])
  as E0.
exists c', ds1, ds3, (df1 ++ df3), pr3, w3.
unfold process_html. rewrite Hp, Hp0, E1, E0. split; reflexivity.
Qed.

(** X30. [extract_images_from_html] lists each source once: the list has no
    duplicates, and a string is in it exactly when it is non-empty and the
    [src] of some [img] of the document. *)
Theorem extract_images_from_html_distinct (html : string) :
let images := extract_images_from_html parse html in
NoDup images /\
forall s,
  In s images <->
  PyStr.truthy s = true /\
  exists attrs children,
    In (NTag "img" attrs children) (find_all (parse html)) /\ get_src attrs = s.
Proof.
cbv zeta. unfold extract_images_from_html.
assert (Hgen : forall l acc,
          NoDup acc ->
          NoDup (fold_left collect_src l acc) /\
          forall s, In s (fold_left collect_src l acc) <->
                    In s acc \/
                    (PyStr.truthy s = true /\
                     exists name attrs children,
                       In (NTag name attrs children) l /\ get_src attrs = s)).
{ induction l as [|n l IH]; intros acc Hnd; cbn [fold_left].
  - split; [exact Hnd|]. intros s. split; [auto|].
    intros [Hin|(_ & name & attrs & children & [] & _)]. exact Hin.
  - assert (Hstep : NoDup (collect_src acc n) /\
              forall s, In s (collect_src acc n) <->
                        In s acc \/
                        (PyStr.truthy s = true /\
                         exists name attrs children,
                           n = NTag name attrs children /\ get_src attrs = s)).
    { destruct n as [t|t|name attrs children]; cbn [collect_src].
      - split; [exact Hnd|]. intros s. split; [auto|].
        intros [Hin|(_ & ? & ? & ? & [=] & _)]. exact Hin.
      - split; [exact Hnd|]. intros s. split; [auto|].
        intros [Hin|(_ & ? & ? & ? & [=] & _)]. exact Hin.
      - destruct (PyStr.truthy (get_src attrs)) eqn:Ht; cbn [andb].
        + destruct (existsb (String.eqb (get_src attrs)) acc) eqn:Hex; cbn [negb].
          * split; [exact Hnd|]. intros s. split; [auto|].
            intros [Hin|(_ & ? & ? & ? & [= <- <- <-] & <-)]; [exact Hin|].
            apply existsb_exists in Hex as (x & Hx & Heq).
            apply String.eqb_eq in Heq. subst x. exact Hx.
          * split.
            -- apply NoDup_app. split; [exact Hnd|]. split; [|apply NoDup_singleton].
               intros x Hx Hx'. apply list_elem_of_In in Hx, Hx'.
               destruct Hx' as [<-|[]].
               assert (existsb (String.eqb (get_src attrs)) acc = true) as Habs.
               { apply existsb_exists. exists (get_src attrs).
                 split; [exact Hx | apply String.eqb_refl]. }
               congruence.
            -- intros s. rewrite in_app_iff. split.
               ++ intros [Hin|[<-|[]]]; [left; exact Hin|].
                  right. split; [exact Ht|]. eauto.
               ++ intros [Hin|(_ & ? & ? & ? & [= <- <- <-] & <-)];
                    [left; exact Hin | right; left; reflexivity].
        + split; [exact Hnd|]. intros s. split; [auto|].
          intros [Hin|(Hs & ? & ? & ? & [= <- <- <-] & <-)]; [exact Hin|].
          congruence. }
    destruct Hstep as [Hnd' Hin']. destruct (IH _ Hnd') as [Hnd'' Hin''].
    split; [exact Hnd''|]. intros s. rewrite Hin'', Hin'. split.
    + intros [[Hin|(Hs & name & attrs & children & -> & Hsrc)]
             |(Hs & name & attrs & children & Hl & Hsrc)]; [left; exact Hin | |];
        right; (split; [exact Hs|]); exists name, attrs, children;
        (split; [|exact Hsrc]); [left; reflexivity | right; exact Hl].
    + intros [Hin|(Hs & name & attrs & children & [Hn|Hl] & Hsrc)];
        [left; left; exact Hin | |].
      * left. right. split; [exact Hs|]. eauto.
      * right. split; [exact Hs|]. eauto. }
destruct (Hgen (find_all_named "img" (parse html)) [] (NoDup_nil_2))
  as [Hnd Hin].
split; [exact Hnd|]. intros s. rewrite Hin. split.
- intros [[]|(Hs & name & attrs & children & Hl & Hsrc)].
  split; [exact Hs|]. unfold find_all_named in Hl.
  apply filter_In in Hl as [Hl Hname]. apply String.eqb_eq in Hname. subst name.
  eauto.
- intros (Hs & attrs & children & Hl & Hsrc). right. split; [exact Hs|].
  exists "img", attrs, children. split; [|exact Hsrc].
  unfold find_all_named. apply filter_In. split; [exact Hl | reflexivity].
Qed.
End Html.

Lemma process_html_nothing_to_upload_witness :
  process_html (fun _ => [img_tag "https://mmbiz.qpic.cn/a.png"; NTag "img" ∅ []])
    sample_render "" None true sample_processor sample_files
  = (("img,img", [], []), sample_processor, sample_files).
Proof.
  apply (process_html_nothing_to_upload
           (fun _ => [img_tag "https://mmbiz.qpic.cn/a.png"; NTag "img" ∅ []])
           sample_render "" None true sample_processor sample_files).
  vm_compute. reflexivity.
Defined.

Lemma process_html_cached_image_witness :
  exists c' s1 s2 f pr' w',
    process_html (sample_parse [img_tag "/work/ok.png"]) sample_render
      "with" None true sample_processor sample_files
    = ((sample_render
          (plug c' [NTag "img"
                      (<["data-src" := AStr "https://mmbiz.qpic.cn/work/ok.png"]>
                         (<["src" := AStr "https://mmbiz.qpic.cn/work/ok.png"]>
                            (<["src" := AStr "/work/ok.png"]> ∅))) []]),
        s1 ++ "/work/ok.png" :: s2, f), pr', w').
Proof.
  destruct (process_html_cached_image
              (sample_parse [img_tag "/work/ok.png"]) sample_render
              "with" "without" sample_place (<["src" := AStr "/work/ok.png"]> ∅)
              None true sample_processor sample_files
              "/work/ok.png" "https://mmbiz.qpic.cn/work/ok.png")
    as (c' & s1 & s2 & f & pr' & w' & _ & Hrun).
  - reflexivity.
  - reflexivity.
  - repeat constructor.
  - vm_compute. reflexivity.
  - vm_compute. reflexivity.
  - vm_compute. reflexivity.
  - reflexivity.
  - vm_compute. reflexivity.
  - exists c', s1, s2, f, pr', w'. exact Hrun.
Defined.

End SourcesFacts.

(** ** Configuration values *)

Module ConfigFacts.
Import Json Config.

Lemma split_dots_nonempty s : split_dots s <> [].
Proof.
  destruct s as [|c s]; cbn; [discriminate|].
  destruct (Ascii.eqb c dot); [discriminate|].
  destruct (split_dots s); discriminate.
Qed.

Lemma walk_set_path keys : forall value c c' default,
  set_path keys value c = Some c' -> walk keys c' default = value.
Proof.
  induction keys as [|k keys IH]; intros value c c' default; cbn [set_path];
    [discriminate|].
  destruct c as [| | | | |d]; try discriminate.
  destruct keys as [|k' keys].
  - intros [= <-]. cbn. rewrite lookup_insert_eq. reflexivity.
  - destruct (set_path (k' :: keys) value _) as [sub'|] eqn:E; [|discriminate].
    intros [= <-]. cbn [walk]. rewrite lookup_insert_eq.
    eapply IH. exact E.
Qed.

Lemma walk_set_path_other ks1 : forall ks2 value c c' default,
  set_path ks1 value c = Some c' -> diverge ks1 ks2 = true ->
  walk ks2 c' default = walk ks2 c default.
Proof.
  induction ks1 as [|k1 ks1 IH]; intros ks2 value c c' default; cbn [set_path];
    [discriminate|].
  destruct c as [| | | | |d]; try discriminate.
  destruct ks2 as [|k2 ks2]; [discriminate|]. cbn [diverge walk].
  destruct (String.eqb_spec k1 k2) as [<-|Hne].
  - destruct ks1 as [|k1' ks1]; [discriminate|].
    destruct (set_path (k1' :: ks1) value _) as [sub'|] eqn:E; [|discriminate].
    intros [= <-] Hd. rewrite lookup_insert_eq.
    rewrite (IH _ _ _ _ default E Hd).
    destruct (d !! k1) as [v|]; [reflexivity|].
    destruct ks2 as [|k2 ks2]; [destruct ks1; discriminate|].
    cbn. rewrite lookup_empty. reflexivity.
  - intros Hs _.
    assert (exists v, c' = JObj (<[k1 := v]> d)) as [v ->].
    { destruct ks1 as [|k1' ks1]; [injection Hs as <-; eauto|].
      destruct (set_path (k1' :: ks1) value _); [|discriminate].
      injection Hs as <-. eauto. }
    rewrite lookup_insert_ne by exact Hne. reflexivity.
Qed.

Section Upper.
Variable upper : string -> string.

(** X25. What [set] stores, [get] reads back, and nothing else moves.
    After a [set(key, value)] that returned, [get(key)] gives the
    environment's value for the key if there is a non-empty one and [value]
    otherwise, in the process that set it and in any later process that
    loads the file it saved; and a key whose path parts from the path of
    [key] (after the same keys, a different one) reads as before, whether it
    was there or not. *)
Theorem set_then_get (cfg cfg' : config) (key : string) (value default : jval) :
Config.set cfg key value = (Done, cfg') ->
let expected :=
  match env_value upper (environ cfg) key with
  | Some v => if PyStr.truthy v then JStr v else value
  | None => value
  end in
get upper cfg' key default = expected /\
get upper (new_config (environ cfg) (stored cfg') (writable cfg')) key default
= expected /\
forall other,
  diverge (split_dots key) (split_dots other) = true ->
  get upper cfg' other default = get upper cfg other default.
Proof.
unfold Config.set, save_config.
destruct (set_path (split_dots key) value (_config cfg)) as [c|] eqn:E;
  [|discriminate].
cbn [writable]. destruct (writable cfg); [|discriminate].
intros [= <-]. cbv zeta. unfold get, new_config, _load_config.
cbn [environ _config stored].
rewrite (walk_set_path _ _ _ _ default E).
split; [|split].
- destruct (env_value upper (environ cfg) key) as [v|];
    [destruct (PyStr.truthy v)|]; reflexivity.
- destruct (env_value upper (environ cfg) key) as [v|];
    [destruct (PyStr.truthy v)|]; reflexivity.
- intros other Hd.
  rewrite (walk_set_path_other _ _ _ _ _ default E Hd). reflexivity.
Qed.

End Upper.

Lemma set_then_get_witness :
  let cfg' := snd (Config.set (new_config ∅ None true) "default.theme" (JStr "tech")) in
  get ascii_upper cfg' "default.theme" JNull = JStr "tech" /\
  get ascii_upper (new_config ∅ (stored cfg') true) "default.theme" JNull
  = JStr "tech" /\
  get ascii_upper cfg' "default.author" JNull = JStr "".
Proof.
  destruct (set_then_get ascii_upper (new_config ∅ None true)
              (snd (Config.set (new_config ∅ None true) "default.theme" (JStr "tech")))
              "default.theme" (JStr "tech") JNull eq_refl) as (H1 & H2 & H3).
  split; [exact H1|]. split; [exact H2|].
  rewrite (H3 "default.author"); reflexivity.
Defined.

End ConfigFacts.
